(** * Custom-functions metadata extraction: a shallow embedding of [parseTree]

    The development follows the TypeScript source of the metadata generator
    (the file that exports [parseTree] and [logError]).  The syntax tree that
    the TypeScript compiler hands to [parseTree] is the input of the model;
    the mutable arrays that the nested walkers of [parseTree] capture are an
    explicit state record, and a thrown exception is an explicit outcome.

    A character of a string is a code unit of a string of the host
    language, and the strings of the model are ASCII texts: the case
    mappings, the white space, the letter class and the comparison of
    [localeCompare] are given on the ASCII range, in a locale with the
    default case mappings.  A property whose statement depends on what the
    host language does with other characters ([toLocaleUpperCase],
    [localeCompare], [trim], the white space and the letter class of the
    patterns) is stated for the strings that [JS.isAscii] or
    [JS.isPrintable] accepts. *)

From Stdlib Require Import ZArith Lia Ascii.
From stdpp Require Import base strings list gmap pretty.

Set Warnings "-register-all".

(** ** Host-language string operations *)

Fixpoint allChars (f : ascii → bool) (s : string) : bool :=
  match s with
  | EmptyString => true
  | String c r => f c && allChars f r
  end.

Module JS.

Definition isUpper (c : ascii) : bool :=
  let n := nat_of_ascii c in (65 <=? n) && (n <=? 90).

Definition isLower (c : ascii) : bool :=
  let n := nat_of_ascii c in (97 <=? n) && (n <=? 122).

Definition isDigit (c : ascii) : bool :=
  let n := nat_of_ascii c in (48 <=? n) && (n <=? 57).

(** The letters of the ASCII range: the class [\pL] of the name patterns
    on an ASCII character *)
Definition isLetter (c : ascii) : bool := isUpper c || isLower c.

Definition lowerChar (c : ascii) : ascii :=
  if isUpper c then ascii_of_nat (nat_of_ascii c + 32) else c.

Definition upperChar (c : ascii) : ascii :=
  if isLower c then ascii_of_nat (nat_of_ascii c - 32) else c.

Fixpoint mapChars (f : ascii → ascii) (s : string) : string :=
  match s with
  | EmptyString => EmptyString
  | String c r => String (f c) (mapChars f r)
  end.

(** [s.toLowerCase()], [s.toLocaleLowerCase()] on an ASCII text; the
    extractor compares the result with ASCII names only *)
Definition toLowerCase : string → string := mapChars lowerChar.

(** [s.toLocaleUpperCase()] on an ASCII text *)
Definition toLocaleUpperCase : string → string := mapChars upperChar.

(** The string that holds one double quote *)
Definition quote : string := String (ascii_of_nat 34) EmptyString.

(** A string is truthy when it is not empty. *)
Definition truthy (s : string) : bool :=
  match s with EmptyString => false | _ => true end.

(** [a || b] on strings *)
Definition orElse (a b : string) : string := if truthy a then a else b.

Fixpoint drop (n : nat) (s : string) : string :=
  match n, s with
  | O, _ => s
  | S n', String _ r => drop n' r
  | S _, EmptyString => EmptyString
  end.

Fixpoint take (n : nat) (s : string) : string :=
  match n, s with
  | S n', String c r => String c (take n' r)
  | _, _ => EmptyString
  end.

Definition clampIndex (len i : Z) : Z :=
  (if i <? 0 then Z.max (len + i) 0 else Z.min i len)%Z.

(** [s.slice(start, end)] *)
Definition slice (s : string) (start stop : Z) : string :=
  let len := Z.of_nat (String.length s) in
  let from := clampIndex len start in
  let to := clampIndex len stop in
  take (Z.to_nat (Z.max (to - from) 0)%Z) (drop (Z.to_nat from) s).

(** [s.slice(start)] *)
Definition sliceFrom (s : string) (start : Z) : string :=
  slice s start (Z.of_nat (String.length s)).

(** [s.indexOf(c)] for a pattern of one character; -1 when absent *)
Fixpoint indexOfFrom (c : ascii) (s : string) (i : Z) : Z :=
  match s with
  | EmptyString => (-1)%Z
  | String d r => if Ascii.eqb d c then i else indexOfFrom c r (i + 1)%Z
  end.

Definition indexOf (s : string) (c : ascii) : Z := indexOfFrom c s 0%Z.

(** Number of matches of a one-character pattern: [(s.match(/c/g) || []).length] *)
Fixpoint countChar (c : ascii) (s : string) : nat :=
  match s with
  | EmptyString => O
  | String d r => (if Ascii.eqb d c then 1 else 0) + countChar c r
  end.

(** [s.startsWith(p)] *)
Definition startsWith (s p : string) : bool := String.prefix p s.

Fixpoint trimStart (s : string) : string :=
  match s with
  | String c r => if Ascii.is_space c then trimStart r else s
  | EmptyString => EmptyString
  end.

(** [s.trim()] on an ASCII text: the white space of the ASCII range *)
Definition trim (s : string) : string :=
  String.rev (trimStart (String.rev (trimStart s))).

(** [s.split(sep)] for a separator of one character *)
Fixpoint splitGo (sep : ascii) (cur : string) (s : string) : list string :=
  match s with
  | EmptyString => [String.rev cur]
  | String c r =>
      if Ascii.eqb c sep then String.rev cur :: splitGo sep EmptyString r
      else splitGo sep (String c cur) r
  end.

Definition split (s : string) (sep : ascii) : list string :=
  splitGo sep EmptyString s.

(** [text.replace(/\r\n|\r/g, "\n")] *)
Fixpoint replaceLineEndings (s : string) : string :=
  match s with
  | EmptyString => EmptyString
  | String c r =>
      if Ascii.eqb c "013" then
        match r with
        | String d r' =>
            if Ascii.eqb d "010" then String "010" (replaceLineEndings r')
            else String "010" (replaceLineEndings r)
        | EmptyString => String "010" EmptyString
        end
      else String c (replaceLineEndings r)
  end.

(** [first.localeCompare(second, undefined, {sensitivity: "accent"}) === 0]
    on texts of printing ASCII characters: the two strings agree up to
    letter case. *)
Definition equalIgnoringCase (a b : string) : bool :=
  bool_decide (toLowerCase a = toLowerCase b).

(** The characters of the ASCII range, and those of them that print: the
    collation of [localeCompare] ignores control characters. *)
Definition isAscii (s : string) : bool :=
  allChars (λ c, nat_of_ascii c <? 128) s.


(** *** Objects used as tables

    The extractor keeps its tables in objects made by an object literal, and
    reads them with [object[key]].  Such a read finds the own property of that
    name, or else what the object inherits: the members of
    [Object.prototype]. *)
Definition objectPrototype : list string :=
  ["constructor"; "__defineGetter__"; "__defineSetter__"; "hasOwnProperty";
   "__lookupGetter__"; "__lookupSetter__"; "isPrototypeOf"; "propertyIsEnumerable";
   "toString"; "valueOf"; "__proto__"; "toLocaleString"].

(** What [object[key]] gives when it is not [undefined]: the value of an own
    property, or an inherited member, which is a function or an object and
    never one of the values that the extractor stores. *)
Inductive Property (V : Type) :=
| Own (value : V)
| Inherited (member : string).

Arguments Own {V} value.
Arguments Inherited {V} member.

Global Instance Property_eq_dec {V} `{EqDecision V} : EqDecision (Property V).
Proof. solve_decision. Defined.

(** Truthiness of what a read gives: an inherited member is truthy. *)
Definition isTruthy {V} (truthyValue : V → bool) (p : option (Property V)) : bool :=
  match p with
  | Some (Own v) => truthyValue v
  | Some (Inherited _) => true
  | None => false
  end.

(** An object that starts as [{}] and is filled by assignments
    [object[key] = value]: its own properties and, once an assignment to
    [__proto__] has put a stored object in the place of [Object.prototype],
    that object. *)
Record Object (V : Type) := {
  own : gmap string V;
  prototype : option V;
}.

Arguments own {V} _.
Arguments prototype {V} _.

Definition emptyObject {V} : Object V := {| own := ∅; prototype := None |}.

Global Instance Object_empty {V} : Empty (Object V) := emptyObject.

(** [object[key] = value] for a string or a boolean: the setter of
    [__proto__] ignores a value that is not an object. *)
Definition setPrimitive {V} (key : string) (value : V) (object : Object V) : Object V :=
  if bool_decide (key = "__proto__") then object
  else {| own := <[key := value]> (own object); prototype := prototype object |}.

(** [object[key] = value] for an object: under [__proto__] the value becomes
    the prototype of the table. *)
Definition setObject {V} (key : string) (value : V) (object : Object V) : Object V :=
  if bool_decide (key = "__proto__")
  then {| own := own object; prototype := Some value |}
  else {| own := <[key := value]> (own object); prototype := prototype object |}.

(** [object[key]]; [fields] lists the properties of a stored object, which
    the table inherits from the object that replaced its prototype. *)
Definition get {V} (fields : V → list string) (object : Object V) (key : string)
    : option (Property V) :=
  if bool_decide (key = "__proto__") then
    Some (match prototype object with
          | Some value => Own value
          | None => Inherited key
          end)
  else
    match own object !! key with
    | Some value => Some (Own value)
    | None =>
        if bool_decide (key ∈ from_option fields [] (prototype object) ++ objectPrototype)
        then Some (Inherited key) else None
    end.

End JS.

(** ** The syntax tree *)

Module Ts.

(** Kinds of type node other than array types and type references. *)
Inductive LeafKind :=
| NumberKeyword | StringKeyword | BooleanKeyword | AnyKeyword
| UnionType | TupleType | EnumKeyword | ObjectKeyword | VoidKeyword
| UnknownKeyword
| NeverKeyword | UndefinedKeyword | LiteralType | TypeLiteral
| FunctionType | ParenthesizedType | IntersectionType | JSDocAllType.

Inductive SyntaxKind :=
| ArrayType
| TypeReference
| Leaf (k : LeafKind).

Global Instance LeafKind_eq_dec : EqDecision LeafKind.
Proof. solve_decision. Defined.

Global Instance SyntaxKind_eq_dec : EqDecision SyntaxKind.
Proof. solve_decision. Defined.

(** [ts.SyntaxKind[kind]] *)
Definition SyntaxKind_name (k : SyntaxKind) : string :=
  match k with
  | ArrayType => "ArrayType"
  | TypeReference => "TypeReference"
  | Leaf NumberKeyword => "NumberKeyword"
  | Leaf StringKeyword => "StringKeyword"
  | Leaf BooleanKeyword => "BooleanKeyword"
  | Leaf AnyKeyword => "AnyKeyword"
  | Leaf UnionType => "UnionType"
  | Leaf TupleType => "TupleType"
  | Leaf EnumKeyword => "EnumKeyword"
  | Leaf ObjectKeyword => "ObjectKeyword"
  | Leaf VoidKeyword => "VoidKeyword"
  | Leaf UnknownKeyword => "UnknownKeyword"
  | Leaf NeverKeyword => "NeverKeyword"
  | Leaf UndefinedKeyword => "UndefinedKeyword"
  | Leaf LiteralType => "LiteralType"
  | Leaf TypeLiteral => "TypeLiteral"
  | Leaf FunctionType => "FunctionType"
  | Leaf ParenthesizedType => "ParenthesizedType"
  | Leaf IntersectionType => "IntersectionType"
  | Leaf JSDocAllType => "JSDocAllType"
  end.

Record LineAndCharacter := { line : nat; character : nat }.

(** A type node, with the line and character of its start.  [T[]] is
    [ArrayTypeNode _ T]; [N<A, B>] is [TypeReferenceNode _ "N" (Some [A; B])]
    and a bare [N] has no type arguments.  Every other type is a leaf for
    the extractor, which reads its kind and its source text only. *)
Inductive TypeNode :=
| ArrayTypeNode (pos : LineAndCharacter) (elementType : TypeNode)
| TypeReferenceNode (pos : LineAndCharacter) (typeName : string)
    (typeArguments : option (list TypeNode))
| LeafTypeNode (pos : LineAndCharacter) (k : LeafKind) (text : string).

Definition kind (t : TypeNode) : SyntaxKind :=
  match t with
  | ArrayTypeNode _ _ => ArrayType
  | TypeReferenceNode _ _ _ => TypeReference
  | LeafTypeNode _ k _ => Leaf k
  end.

Definition typePos (t : TypeNode) : LineAndCharacter :=
  match t with
  | ArrayTypeNode p _ | TypeReferenceNode p _ _ | LeafTypeNode p _ _ => p
  end.

Definition isArrayTypeNode (t : TypeNode) : bool :=
  bool_decide (kind t = ArrayType).

Definition isTypeReferenceNode (t : TypeNode) : bool :=
  bool_decide (kind t = TypeReference).

(** [node.getFullText()] of a type node written without comments or
    leading white space *)
Fixpoint getFullText (t : TypeNode) : string :=
  match t with
  | ArrayTypeNode _ e => getFullText e +:+ "[]"
  | TypeReferenceNode _ n None => n
  | TypeReferenceNode _ n (Some args) =>
      n +:+ "<" +:+
      (fix commaSep (l : list TypeNode) : string :=
         match l with
         | [] => ""
         | [a] => getFullText a
         | a :: r => getFullText a +:+ ", " +:+ commaSep r
         end) args +:+ ">"
  | LeafTypeNode _ _ text => text
  end.

(** A doc-comment tag.  [parameter] is present on a [JSDocParameterTag]
    and holds [name.getFullText()], [typeExpression.getFullText()] and
    [isBracketed]. *)
Record JSDocParameter := {
  jp_name : string;
  jp_typeExpression : option string;
  jp_isBracketed : bool;
}.

(** The [comment] of a doc comment or of a tag: a string, or, when the text
    holds an inline tag such as [{@link}], a node array of that many parts. *)
Inductive JSDocComment :=
| CommentText (text : string)
| CommentNodes (parts : nat).

Record JSDocTag := {
  tagName : string;
  tag_comment : option JSDocComment;
  tag_parameter : option JSDocParameter;
}.

Record JSDoc := {
  doc_comment : option JSDocComment;
  doc_tags : list JSDocTag;
}.

(** [comment.toString()]: a node array joins the texts of its parts with
    commas, and a part is a node object, whose text is [[object Object]]. *)
Fixpoint nodesToString (parts : nat) : string :=
  match parts with
  | 0 => ""
  | 1 => "[object Object]"
  | S n => "[object Object]," +:+ nodesToString n
  end.

Definition commentToString (comment : JSDocComment) : string :=
  match comment with
  | CommentText text => text
  | CommentNodes parts => nodesToString parts
  end.

(** An array is truthy, even when empty. *)
Definition commentTruthy (comment : JSDocComment) : bool :=
  match comment with
  | CommentText text => JS.truthy text
  | CommentNodes _ => true
  end.

(** A parameter of a function declaration.  [p_jsDocType] is
    [ts.getJSDocType(p)]. *)
Record ParameterDeclaration := {
  p_name : string;
  p_type : option TypeNode;
  p_jsDocType : option TypeNode;
  p_questionToken : bool;
  p_initializer : bool;
  p_dotDotDotToken : bool;
  p_pos : LineAndCharacter;
}.

(** A function declaration.  [fn_jsDoc] is [node.jsDoc], the doc comments
    before the declaration in source order, empty when the declaration has
    none; [fn_jsDocReturnType] is
    [ts.getJSDocReturnType(func)]; [fn_parametersEnd] is the line and
    character of [func.parameters.end]. *)
Record FunctionDeclaration := {
  fn_name : option string;
  fn_parameters : list ParameterDeclaration;
  fn_type : option TypeNode;
  fn_jsDoc : list JSDoc;
  fn_jsDocReturnType : option TypeNode;
  fn_pos : LineAndCharacter;
  fn_parametersEnd : LineAndCharacter;
}.

(** Values of the host language that [JSON.parse] can return. *)
Inductive JsValue :=
| JsNumber (n : Z)
| JsString (s : string)
| JsBoolean (b : bool)
| JsNull
| JsObject.

Definition typeof (v : JsValue) : string :=
  match v with
  | JsNumber _ => "number"
  | JsString _ => "string"
  | JsBoolean _ => "boolean"
  | JsNull | JsObject => "object"
  end.

(** The initializer of an enum member.  The extractor never looks into
    the expression: it takes its source text and passes the text to two
    built-ins of the host language, so the node carries the text together
    with what the built-ins answer on it: [init_isNaN] is
    [isNaN(Number(text))], and [init_JSON] is [JSON.parse(text)], absent
    when [JSON.parse] throws a [SyntaxError]. *)
Record Expression := {
  init_text : string;
  init_isNaN : bool;
  init_JSON : option JsValue;
}.

(** An enum member; [m_tooltip] is the text that the extractor computes
    from the leading comment ranges of the member. *)
Record EnumMember := {
  m_name : string;
  m_initializer : option Expression;
  m_tooltip : string;
}.

Record EnumDeclaration := {
  en_name : string;
  en_members : list EnumMember;
  en_jsDoc : list JSDoc;
  en_pos : LineAndCharacter;
}.

(** A node of the tree as far as the walkers of [parseTree] tell nodes
    apart: an enum declaration, a function declaration with the nodes
    below it, or any other node with its children. *)
Inductive Node :=
| EnumDeclarationNode (e : EnumDeclaration)
| FunctionDeclarationNode (f : FunctionDeclaration) (children : list Node)
| OtherNode (children : list Node).

(** The source file: its top-level statements. *)
Record SourceFile := { statements : list Node }.

End Ts.

Import Ts.

(** ** The metadata document *)

Record IFunctionOptions := {
  cancelable : option bool;
  requiresAddress : option bool;
  requiresStreamAddress : option bool;
  stream : option bool;
  volatile : option bool;
  requiresParameterAddresses : option bool;
  requiresStreamParameterAddresses : option bool;
  excludeFromAutoComplete : option bool;
  linkedEntityLoadService : option bool;
  capturesCallingObject : option bool;
}.

(** A field of an object is [None] when the object lacks the property or
    holds [undefined] there.  A field that is read from a table can hold
    what the table inherits. *)
Record IFunctionParameter := {
  fp_name : string;
  fp_description : option (JS.Property string);
  fp_type : option string;
  fp_cellValueType : option (JS.Property string);
  fp_dimensionality : option string;
  fp_optional : option (JS.Property bool);
  fp_repeating : option bool;
  fp_customEnumType : option string;
}.

Record IParameterType := {
  pt_type : option string;
  pt_customEnumType : option string;
  pt_cellValueType : option (JS.Property string);
}.

Record IFunctionResult := {
  fr_type : option string;
  fr_dimensionality : option string;
}.

Record IEnumValue := {
  ev_name : string;
  ev_value : JsValue;
  ev_tooltip : string;
}.

Record IEnum := {
  enum_id : string;
  enum_type : string;
  enum_values : list IEnumValue;
}.

Record IFunction := {
  f_id : string;
  f_name : string;
  f_description : option string;
  f_helpUrl : option string;
  f_parameters : list IFunctionParameter;
  f_result : option IFunctionResult;
  f_options : option IFunctionOptions;
}.

Record IFunctionExtras := {
  errors : list string;
  javascriptFunctionName : string;
}.

Record IAssociate := {
  as_sourceFileName : string;
  as_functionName : string;
  as_id : string;
}.

Record IParseTreeResult := {
  r_associate : list IAssociate;
  r_extras : list IFunctionExtras;
  r_functions : list IFunction;
  r_enums : list IEnum;
}.

Record IJsDocParamType := {
  jt_type : string;
  jt_returnType : option string;
  jt_dimensionality : option string;
}.

(** ** Outcomes: a returned value or a thrown exception *)

Inductive Outcome (A : Type) :=
| Return (a : A)
| Throw (error : string).

Arguments Return {A} a.
Arguments Throw {A} error.

Global Instance Outcome_ret : MRet Outcome := λ A a, Return a.

Global Instance Outcome_bind : MBind Outcome := λ A B k m,
  match m with
  | Return a => k a
  | Throw e => Throw e
  end.

(** ** JSDoc tags and tables *)

Definition CANCELABLE := "cancelable".
Definition CAPTURESCALLINGOBJECT := "capturescallingobject".
Definition CUSTOM_ENUM := "customenum".
Definition CUSTOM_FUNCTION := "customfunction".
Definition EXCLUDEFROMAUTOCOMPLETE := "excludefromautocomplete".
Definition HELPURL_PARAM := "helpurl".
Definition LINKEDENTITYLOADSERVICE := "linkedentityloadservice".
Definition REQUIRESADDRESS := "requiresaddress".
Definition REQUIRESPARAMETERADDRESSES := "requiresparameteraddresses".
Definition STREAMING := "streaming".
Definition VOLATILE := "volatile".

Definition TYPE_MAPPINGS (k : SyntaxKind) : option string :=
  match k with
  | Leaf NumberKeyword => Some "number"
  | Leaf StringKeyword => Some "string"
  | Leaf BooleanKeyword => Some "boolean"
  | Leaf AnyKeyword => Some "any"
  | Leaf UnionType => Some "any"
  | Leaf TupleType => Some "any"
  | Leaf EnumKeyword => Some "any"
  | Leaf ObjectKeyword => Some "any"
  | Leaf VoidKeyword => Some "any"
  | Leaf UnknownKeyword => Some "any"
  | _ => None
  end.

Definition TYPE_CUSTOM_FUNCTIONS_STREAMING : list (string * nat) :=
  [("customfunctions.streaminghandler", 1);
   ("customfunctions.streaminginvocation", 2)].

Definition TYPE_CUSTOM_FUNCTION_CANCELABLE : list (string * nat) :=
  [("customfunctions.cancelablehandler", 1);
   ("customfunctions.cancelableinvocation", 2)].

Definition TYPE_CUSTOM_FUNCTION_INVOCATION := "customfunctions.invocation".

Definition CELLVALUETYPE_MAPPINGS : list (string * string) :=
  [("Excel.CellValue", "cellvalue");
   ("Excel.BooleanCellValue", "booleancellvalue");
   ("Excel.DoubleCellValue", "doublecellvalue");
   ("Excel.EntityCellValue", "entitycellvalue");
   ("Excel.ErrorCellValue", "errorcellvalue");
   ("Excel.FormattedNumberCellValue", "formattednumbercellvalue");
   ("Excel.LinkedEntityCellValue", "linkedentitycellvalue");
   ("Excel.LocalImageCellValue", "localimagecellvalue");
   ("Excel.StringCellValue", "stringcellvalue");
   ("Excel.WebImageCellValue", "webimagecellvalue");
   ("Excel.ArrayCellValue", "unsupported");
   ("Excel.EmptyCellValue", "unsupported");
   ("Excel.ReferenceCellValue", "unsupported");
   ("Excel.ValueTypeNotAvailableCellValue", "unsupported")].

Definition CELLVALUETYPE_TO_BASICTYPE_MAPPINGS : list (string * string) :=
  [("cellvalue", "any");
   ("booleancellvalue", "boolean");
   ("doublecellvalue", "number");
   ("entitycellvalue", "any");
   ("errorcellvalue", "any");
   ("formattednumbercellvalue", "number");
   ("linkedentitycellvalue", "any");
   ("localimagecellvalue", "any");
   ("stringcellvalue", "string");
   ("webimagecellvalue", "any")].

(** The own property [key] of an object literal used as a table *)
Fixpoint tableOwn {V} (table : list (string * V)) (key : string) : option V :=
  match table with
  | [] => None
  | (k, v) :: rest => if bool_decide (k = key) then Some v else tableOwn rest key
  end.

(** [table[key]] *)
Definition tableGet {V} (table : list (string * V)) (key : string)
    : option (JS.Property V) :=
  match tableOwn table key with
  | Some v => Some (JS.Own v)
  | None =>
      if bool_decide (key ∈ JS.objectPrototype) then Some (JS.Inherited key) else None
  end.

(** [Object.values(table)] *)
Definition tableValues {V} (table : list (string * V)) : list V := map snd table.

(** ** Diagnostics *)

Definition logError (error : string) (position : option LineAndCharacter) : string :=
  match position with
  | Some position =>
      error +:+ " (" +:+ pretty (line position + 1) +:+ "," +:+
      pretty (character position + 1) +:+ ")"
  | None => error
  end.

Definition pushError (extra : IFunctionExtras) (error : string) : IFunctionExtras :=
  {| errors := errors extra ++ [error];
     javascriptFunctionName := javascriptFunctionName extra |}.

Definition areStringsEqual (first second : string) : bool :=
  JS.equalIgnoringCase first second.

Definition checkForDuplicate (list : list string) (item : string) : bool :=
  existsb (λ value, areStringsEqual value item) list.

Definition idChar (c : ascii) : bool :=
  JS.isLetter c || JS.isDigit c || bool_decide (c = "."%char) || bool_decide (c = "_"%char).

Definition validateId (id : string) (position : option LineAndCharacter)
    (extra : IFunctionExtras) : IFunctionExtras :=
  let '(id, extra) :=
    if negb (allChars idChar id) then
      let id := if negb (JS.truthy id) then "Function name is invalid" else id in
      (id, pushError extra (logError
        ("The custom function id contains invalid characters. Allowed characters are ('A-Z','a-z','0-9','.','_'):" +:+ id)
        position))
    else (id, extra) in
  if 128 <? String.length id then
    pushError extra (logError
      "The custom function id exceeds the maximum of 128 characters allowed." position)
  else extra.

Definition startsWithLetter (name : string) : bool :=
  match name with
  | String c _ => JS.isLetter c
  | EmptyString => false
  end.

Definition validName (name : string) : bool :=
  match name with
  | String c r => JS.isLetter c && allChars idChar r
  | EmptyString => false
  end.

(** [validateName]; [type] is ["function"] or ["enum"]. *)
Definition validateName (name : string) (position : option LineAndCharacter)
    (extra : IFunctionExtras) (type : string) : IFunctionExtras :=
  let extra :=
    if negb (JS.truthy name) then
      pushError extra (logError ("You need to provide a custom " +:+ type +:+ " name.") position)
    else extra in
  let extra :=
    if negb (startsWithLetter name) then
      pushError extra (logError
        ("The custom " +:+ type +:+ " name " +:+ JS.quote +:+ name +:+ JS.quote +:+
         " should start with an alphabetic character.") position)
    else if negb (validName name) then
      pushError extra (logError
        ("The custom " +:+ type +:+ " name " +:+ JS.quote +:+ name +:+ JS.quote +:+
         " should contain only alphabetic characters, numbers (0-9), period (.), and underscore (_).")
        position)
    else extra in
  if 128 <? String.length name then
    pushError extra (logError
      ("The custom " +:+ type +:+ " name " +:+ JS.quote +:+ name +:+ JS.quote +:+
       " is too long. It must be 128 characters or less.") position)
  else extra.

Definition normalizeCustomFunctionId (id : string) : string :=
  if JS.truthy id then JS.toLocaleUpperCase id else id.

Definition normalizeLineEndings (text : option string) : option string :=
  match text with
  | Some t => if JS.truthy t then Some (JS.replaceLineEndings t) else text
  | None => None
  end.

(** ** Doc-comment tags *)

(** [ts.getJSDocTags(node)]: the tags of the last doc comment attached to
    the declaration, in source order. *)
Definition getJSDocTags (jsDoc : list JSDoc) : list JSDocTag :=
  match last jsDoc with
  | Some doc => doc_tags doc
  | None => []
  end.

Definition containsTag (tag : JSDocTag) (name : string) : bool :=
  bool_decide (JS.toLowerCase (tagName tag) = name).

Definition findTag (jsDoc : list JSDoc) (name : string) : option JSDocTag :=
  List.find (λ tag, containsTag tag name) (getJSDocTags jsDoc).

Definition getTagComment (jsDoc : list JSDoc) (name : string) : string :=
  match findTag jsDoc name with
  | Some tag => JS.orElse (default "" (commentToString <$> tag_comment tag)) ""
  | None => ""
  end.

Definition hasTag (jsDoc : list JSDoc) (name : string) : bool :=
  bool_decide (is_Some (findTag jsDoc name)).

Definition isCustomFunction (jsDoc : list JSDoc) : bool := hasTag jsDoc CUSTOM_FUNCTION.
Definition isCustomEnum (jsDoc : list JSDoc) : bool := hasTag jsDoc CUSTOM_ENUM.
Definition isVolatile (jsDoc : list JSDoc) : bool := hasTag jsDoc VOLATILE.
Definition isAddressRequired (jsDoc : list JSDoc) : bool := hasTag jsDoc REQUIRESADDRESS.
Definition isRequiresParameterAddresses (jsDoc : list JSDoc) : bool :=
  hasTag jsDoc REQUIRESPARAMETERADDRESSES.
Definition isExcludedFromAutoComplete (jsDoc : list JSDoc) : bool :=
  hasTag jsDoc EXCLUDEFROMAUTOCOMPLETE.
Definition isLinkedEntityLoadService (jsDoc : list JSDoc) : bool :=
  hasTag jsDoc LINKEDENTITYLOADSERVICE.
Definition hasCapturesCallingObject (jsDoc : list JSDoc) : bool :=
  hasTag jsDoc CAPTURESCALLINGOBJECT.

Definition isStreaming (jsDoc : list JSDoc) (streamFunction : bool) : bool :=
  streamFunction || hasTag jsDoc STREAMING.

Definition isCancelableTag (jsDoc : list JSDoc) (cancelableFunction : bool) : bool :=
  cancelableFunction || hasTag jsDoc CANCELABLE.

(** [node.jsDoc[0]] throws a [TypeError] when the declaration has no doc
    comment at all, and so does [normalizeLineEndings] on the node array of
    a comment with an inline tag, which is truthy and has no [replace]. *)
Definition getDescription (jsDoc : list JSDoc) : Outcome (option string) :=
  match jsDoc with
  | [] => Throw "TypeError: Cannot read properties of undefined (reading '0')"
  | doc :: _ =>
      match doc_comment doc with
      | Some (CommentNodes _) => Throw "TypeError: text.replace is not a function"
      | Some (CommentText text) => Return (normalizeLineEndings (Some text))
      | None => Return (normalizeLineEndings None)
      end
  end.

(** [ts.getAllJSDocTagsOfKind(node, ts.SyntaxKind.JSDocParameterTag)] *)
Definition getJSDocParameterTags (jsDoc : list JSDoc) : list (JSDocTag * JSDocParameter) :=
  omap (λ tag, (λ p, (tag, p)) <$> tag_parameter tag) (getJSDocTags jsDoc).

Definition getJSDocParams (jsDoc : list JSDoc) : JS.Object string :=
  foldl (λ (jsDocParamInfo : JS.Object string) '(tag, p),
           match tag_comment tag with
           | Some comment =>
               if commentTruthy comment then
                 let tagComment := commentToString comment in
                 let comment :=
                   JS.trim (if JS.startsWith tagComment "-"
                            then JS.sliceFrom tagComment 1 else tagComment) in
                 JS.setPrimitive (jp_name p) comment jsDocParamInfo
               else JS.setPrimitive (jp_name p) "" jsDocParamInfo
           | None => JS.setPrimitive (jp_name p) "" jsDocParamInfo
           end)
        JS.emptyObject (getJSDocParameterTags jsDoc).

Definition jsDocParamTypeOf (typeExpression : string) : IJsDocParamType :=
  let paramType :=
    JS.slice typeExpression 1 (Z.of_nat (String.length typeExpression) - 1) in
  let openBracket := JS.indexOf paramType "<" in
  if (-1 <? openBracket)%Z then
    let subType :=
      JS.slice paramType (openBracket + 1) (Z.of_nat (String.length paramType) - 1) in
    let dimCount := JS.countChar "[" subType in
    if 0 <? dimCount then
      {| jt_type := JS.slice paramType 0 openBracket;
         jt_returnType := Some (JS.slice subType 0 (JS.indexOf subType "["));
         jt_dimensionality := Some (if dimCount =? 1 then "scalar" else "matrix") |}
    else
      {| jt_type := JS.slice paramType 0 openBracket;
         jt_returnType := Some subType;
         jt_dimensionality := None |}
  else {| jt_type := paramType; jt_returnType := None; jt_dimensionality := None |}.

(** The properties of a stored [IJsDocParamType] *)
Definition paramTypeFields (info : IJsDocParamType) : list string :=
  ["type"] ++
  (if jt_returnType info is Some _ then ["returnType"] else []) ++
  (if jt_dimensionality info is Some _ then ["dimensionality"] else []).

(** [jsDocParamTypeInfo[name]] *)
Definition paramTypeOf (jsDocParamTypeInfo : JS.Object IJsDocParamType) (name : string)
    : option (JS.Property IJsDocParamType) :=
  JS.get paramTypeFields jsDocParamTypeInfo name.

(** [table[name]] on a table of strings or booleans *)
Definition primitiveOf {V} (table : JS.Object V) (name : string) : option (JS.Property V) :=
  JS.get (λ _, []) table name.

Definition getJSDocParamsType (jsDoc : list JSDoc) : JS.Object IJsDocParamType :=
  foldl (λ (jsDocParamTypeInfo : JS.Object IJsDocParamType) '(tag, p),
           match jp_typeExpression p with
           | Some typeExpression =>
               JS.setObject (jp_name p) (jsDocParamTypeOf typeExpression) jsDocParamTypeInfo
           | None =>
               JS.setObject (jp_name p)
                 {| jt_type := "any"; jt_returnType := None; jt_dimensionality := None |}
                 jsDocParamTypeInfo
           end)
        JS.emptyObject (getJSDocParameterTags jsDoc).

Definition getJSDocParamsOptionalType (jsDoc : list JSDoc) : JS.Object bool :=
  foldl (λ (jsDocParamOptionalTypeInfo : JS.Object bool) '(tag, p),
           JS.setPrimitive (jp_name p) (jp_isBracketed p) jsDocParamOptionalTypeInfo)
        JS.emptyObject (getJSDocParameterTags jsDoc).

(** ** Array dimensionality *)

Record IArrayType := { at_dimensionality : nat; at_node : TypeNode }.

Fixpoint arrayTypeNodeLoop (nodeCheck : TypeNode) (dim : nat) : IArrayType :=
  match nodeCheck with
  | ArrayTypeNode _ elementType => arrayTypeNodeLoop elementType (S dim)
  | _ => {| at_dimensionality := dim; at_node := nodeCheck |}
  end.

(** Only called on array type nodes; on any other node the initial record
    is returned. *)
Definition getArrayDimensionalityAndTypeForArrayTypeNode (node : TypeNode) : IArrayType :=
  match node with
  | ArrayTypeNode _ elementType => arrayTypeNodeLoop elementType 1
  | _ => {| at_dimensionality := 1; at_node := node |}
  end.

Fixpoint getArrayDimensionalityAndTypeForReferenceNode_loop
    (nodeCheck : TypeNode) (dimensionalityCount : nat) : IArrayType :=
  match nodeCheck with
  | TypeReferenceNode _ typeName (Some [arg]) =>
      if bool_decide (typeName = "Array")
      then getArrayDimensionalityAndTypeForReferenceNode_loop arg (S dimensionalityCount)
      else {| at_dimensionality := dimensionalityCount; at_node := nodeCheck |}
  | _ => {| at_dimensionality := dimensionalityCount; at_node := nodeCheck |}
  end.

Definition getArrayDimensionalityAndTypeForReferenceNode (node : TypeNode) : IArrayType :=
  getArrayDimensionalityAndTypeForReferenceNode_loop node 0.

Definition getArrayDimensionalityAndType (node : TypeNode) : IArrayType :=
  if isArrayTypeNode node then getArrayDimensionalityAndTypeForArrayTypeNode node
  else if isTypeReferenceNode node then getArrayDimensionalityAndTypeForReferenceNode node
  else {| at_dimensionality := 0; at_node := node |}.

Definition typeNodeIsArray (node : TypeNode) : bool :=
  match node with
  | ArrayTypeNode _ _ => true
  | TypeReferenceNode _ typeName _ => bool_decide (typeName = "Array")
  | _ => false
  end.

(** [getParamDim]: the argument is absent when the declaration has no type. *)
Definition getParamDim (t : option TypeNode) : string :=
  match t with
  | Some t =>
      if isTypeReferenceNode t || isArrayTypeNode t then
        if 1 <? at_dimensionality (getArrayDimensionalityAndType t)
        then "matrix" else "scalar"
      else "scalar"
  | None => "scalar"
  end.

Definition isRepeatingParameter (type : option TypeNode) : bool :=
  match type with
  | Some type =>
      if isTypeReferenceNode type || isArrayTypeNode type then
        let array := getArrayDimensionalityAndType type in
        bool_decide (at_dimensionality array = 1) ||
        bool_decide (at_dimensionality array = 3)
      else false
  | None => false
  end.

(** ** The role of the last parameter *)

(** Truthiness of a number: 0 is falsy. *)
Definition isTruthyNumber (n : option (JS.Property nat)) : bool :=
  JS.isTruthy (λ n, bool_decide (n ≠ 0)) n.

(** [jsDocParamTypeInfo[name].type] under [name && jsDocParamTypeInfo[name]]:
    an inherited member has no property [type]. *)
Definition documentedType (jsDocParamTypeInfo : JS.Object IJsDocParamType)
    (name : string) : option string :=
  if JS.truthy name then
    match paramTypeOf jsDocParamTypeInfo name with
    | Some (JS.Own info) => Some (jt_type info)
    | _ => None
    end
  else None.

Definition hasStreamingInvocationParameter (param : option ParameterDeclaration)
    (jsDocParamTypeInfo : JS.Object IJsDocParamType) : bool :=
  let isTypeReferenceNode :=
    match param with
    | Some param =>
        match p_type param with Some t => isTypeReferenceNode t | None => false end
    | None => false
    end in
  let fromComment :=
    match param with
    | Some param =>
        let name := p_name param in
        match documentedType jsDocParamTypeInfo name with
        | Some ptype =>
            JS.truthy ptype &&
            isTruthyNumber (tableGet TYPE_CUSTOM_FUNCTIONS_STREAMING (JS.toLowerCase ptype))
        | None => false
        end
    | None => false
    end in
  if fromComment then true
  else if negb isTypeReferenceNode then false
  else
    match param with
    | Some {| p_type := Some (TypeReferenceNode _ typeName _) |} =>
        bool_decide (typeName = "CustomFunctions.StreamingInvocation") ||
        bool_decide (typeName = "CustomFunctions.StreamingHandler") ||
        bool_decide (typeName = "IStreamingCustomFunctionHandler")
    | _ => false
    end.

Definition hasCancelableInvocationParameter (param : option ParameterDeclaration)
    (jsDocParamTypeInfo : JS.Object IJsDocParamType) : bool :=
  let isTypeReferenceNode :=
    match param with
    | Some param =>
        match p_type param with Some t => isTypeReferenceNode t | None => false end
    | None => false
    end in
  let fromComment :=
    match param with
    | Some param =>
        let name := p_name param in
        match documentedType jsDocParamTypeInfo name with
        | Some ptype =>
            JS.truthy ptype &&
            isTruthyNumber (tableGet TYPE_CUSTOM_FUNCTION_CANCELABLE (JS.toLowerCase ptype))
        | None => false
        end
    | None => false
    end in
  if fromComment then true
  else if negb isTypeReferenceNode then false
  else
    match param with
    | Some {| p_type := Some (TypeReferenceNode _ typeName _) |} =>
        bool_decide (typeName = "CustomFunctions.CancelableHandler") ||
        bool_decide (typeName = "CustomFunctions.CancelableInvocation")
    | _ => false
    end.

Definition hasInvocationParameter (param : option ParameterDeclaration)
    (jsDocParamTypeInfo : JS.Object IJsDocParamType) : bool :=
  let isTypeReferenceNode :=
    match param with
    | Some param =>
        match p_type param with Some t => isTypeReferenceNode t | None => false end
    | None => false
    end in
  let fromComment :=
    match param with
    | Some param =>
        let name := p_name param in
        match documentedType jsDocParamTypeInfo name with
        | Some ptype =>
            JS.truthy ptype &&
            bool_decide (JS.toLowerCase ptype = TYPE_CUSTOM_FUNCTION_INVOCATION)
        | None => false
        end
    | None => false
    end in
  if fromComment then true
  else if negb isTypeReferenceNode then false
  else
    match param with
    | Some {| p_type := Some (TypeReferenceNode _ typeName _) |} =>
        bool_decide (typeName = "CustomFunctions.Invocation")
    | _ => false
    end.

(** ** Types of parameters and results *)

Definition plainType (type : option string) : IParameterType :=
  {| pt_type := type; pt_customEnumType := None; pt_cellValueType := None |}.

(** [CELLVALUETYPE_TO_BASICTYPE_MAPPINGS[cellValue]]: the key of an inherited
    member is its text as a string, which names no property of the table; a
    name of the first table is a key of the second or no property of it. *)
Definition basicTypeOf (cellValue : option (JS.Property string)) : option string :=
  match cellValue with
  | Some (JS.Own name) => tableOwn CELLVALUETYPE_TO_BASICTYPE_MAPPINGS name
  | _ => None
  end.

Definition getParamType (node : option TypeNode) (extra : IFunctionExtras)
    (basicEnums : list string) (customEnums : list IEnum)
    : IParameterType * IFunctionExtras :=
  let type := "any" in
  match node with
  | None => (plainType (Some type), extra)
  | Some node =>
      let typePosition := Some (typePos node) in
      let node :=
        if typeNodeIsArray node then at_node (getArrayDimensionalityAndType node)
        else node in
      match node with
      | TypeReferenceNode _ nodeTypeName _ =>
          if bool_decide (nodeTypeName ∈ basicEnums) then (plainType (Some type), extra)
          else
            match List.find (λ enumItem, bool_decide (enum_id enumItem = nodeTypeName))
                    customEnums with
            | Some enumItem =>
                ({| pt_type := Some (enum_type enumItem);
                    pt_customEnumType := Some nodeTypeName;
                    pt_cellValueType := None |}, extra)
            | None =>
                let cellValue := tableGet CELLVALUETYPE_MAPPINGS nodeTypeName in
                if JS.isTruthy JS.truthy cellValue then
                  if bool_decide (cellValue = Some (JS.Own "unsupported")) then
                    (plainType (Some type),
                     pushError extra (logError
                       ("Custom function does not support cell value type: " +:+
                        nodeTypeName) typePosition))
                  else
                    ({| pt_type := basicTypeOf cellValue;
                        pt_customEnumType := None;
                        pt_cellValueType := cellValue |}, extra)
                else
                  (plainType (Some type),
                   pushError extra (logError
                     ("Custom function does not support type " +:+ JS.quote +:+
                      nodeTypeName +:+ JS.quote +:+ " as input or return parameter.") typePosition))
            end
      | _ =>
          let type := TYPE_MAPPINGS (kind node) in
          (plainType type,
           if negb (bool_decide (is_Some type)) then
             pushError extra (logError "Type doesn't match mappings" typePosition)
           else extra)
      end
  end.

Definition getParamOptional (p : ParameterDeclaration)
    (jsDocParamOptionalInfo : JS.Object bool) : option (JS.Property bool) :=
  let isOptional := p_questionToken p || p_initializer p || p_dotDotDotToken p in
  if isOptional then Some (JS.Own true) else primitiveOf jsDocParamOptionalInfo (p_name p).

Record IGetParametersArguments := {
  ga_basicEnums : list string;
  ga_customEnums : list IEnum;
  ga_extra : IFunctionExtras;
  ga_jsDocParamInfo : JS.Object string;
  ga_jsDocParamOptionalInfo : JS.Object bool;
  ga_jsDocParamTypeInfo : JS.Object IJsDocParamType;
  ga_parametersToParse : list ParameterDeclaration;
}.

(** The body of the callback of [parametersToParse.map] in [getParameters]:
    the metadata of one parameter and the diagnostics it adds. *)
Definition getParameter (parameterItem : IGetParametersArguments)
    (extra : IFunctionExtras) (p : ParameterDeclaration)
    : IFunctionParameter * IFunctionExtras :=
  let parameterPosition := Some (p_pos p) in
  let typeNode := p_type p in
  let name := p_name p in
  let parameterJSDocTypeNode := p_jsDocType p in
  let extra :=
    match parameterJSDocTypeNode, typeNode with
    | Some jsDocNode, Some node =>
        if negb (bool_decide (kind jsDocNode = kind node)) then
          pushError extra (logError
            ("Type {" +:+ SyntaxKind_name (kind jsDocNode) +:+ ":" +:+
             SyntaxKind_name (kind node) +:+ "} doesn't match for parameter : " +:+ name)
            parameterPosition)
        else extra
    | _, _ => extra
    end in
  let typeNode :=
    match typeNode with
    | Some _ => typeNode
    | None => parameterJSDocTypeNode
    end in
  let '(ptype, extra) :=
    getParamType typeNode extra (ga_basicEnums parameterItem) (ga_customEnums parameterItem) in
  let description := primitiveOf (ga_jsDocParamInfo parameterItem) name in
  let dimensionality := getParamDim typeNode in
  let optional := getParamOptional p (ga_jsDocParamOptionalInfo parameterItem) in
  let repeating := isRepeatingParameter typeNode in
  ({| fp_name := name;
      fp_description := if JS.isTruthy JS.truthy description then description else None;
      fp_type := pt_type ptype;
      fp_cellValueType := pt_cellValueType ptype;
      fp_dimensionality :=
        if bool_decide (dimensionality = "scalar") then None else Some dimensionality;
      fp_optional := if JS.isTruthy id optional then optional else None;
      fp_repeating := if repeating then Some true else None;
      fp_customEnumType := pt_customEnumType ptype |}, extra).

Definition getParameters (parameterItem : IGetParametersArguments)
    : list IFunctionParameter * IFunctionExtras :=
  foldl (λ '(parameterMetadata, extra) p,
           let '(pMetadataItem, extra) := getParameter parameterItem extra p in
           (parameterMetadata ++ [pMetadataItem], extra))
        ([], ga_extra parameterItem) (ga_parametersToParse parameterItem).


(** ** The result of a function *)

Definition defaultResultItem : IFunctionResult :=
  {| fr_type := Some "any"; fr_dimensionality := Some "scalar" |}.

(** [node.typeArguments] after the cast [node as ts.TypeReferenceNode] *)
Definition typeArgumentsOf (node : TypeNode) : option (list TypeNode) :=
  match node with
  | TypeReferenceNode _ _ typeArguments => typeArguments
  | _ => None
  end.

(** The type argument [A] of a node [Promise<A>] *)
Definition promiseArgument (node : TypeNode) : option TypeNode :=
  match node with
  | TypeReferenceNode _ typeName (Some [arg]) =>
      if bool_decide (typeName = "Promise") then Some arg else None
  | _ => None
  end.

(** How a block of [getResults] ends: with a [return], or by falling
    through to the statements after it. *)
Inductive Flow (A B : Type) :=
| Returned (a : A)
| Continue (b : B).

Arguments Returned {A B} a.
Arguments Continue {A B} b.

(** [ptype.returnType] and [ptype.dimensionality] on what the table gives:
    an inherited member has neither property. *)
Definition ptype_returnType (ptype : JS.Property IJsDocParamType) : option string :=
  match ptype with
  | JS.Own info => jt_returnType info
  | JS.Inherited _ => None
  end.

Definition ptype_dimensionality (ptype : JS.Property IJsDocParamType) : option string :=
  match ptype with
  | JS.Own info => jt_dimensionality info
  | JS.Inherited _ => None
  end.

(** First part of [getResults]: the return type from the signature. *)
Definition getResults_signature (func : FunctionDeclaration) (isStreamingFunction : bool)
    (lastParameter : option ParameterDeclaration)
    (jsDocParamTypeInfo : JS.Object IJsDocParamType) (extra : IFunctionExtras)
    (basicEnums : list string) (customEnums : list IEnum)
    : Outcome (Flow IFunctionResult (option string * string) * IFunctionExtras) :=
  let resultType := Some "any" in
  let resultDim := "scalar" in
  let lastParameterPosition := p_pos <$> lastParameter in
  if isStreamingFunction then
    match lastParameter with
    | None => Throw "TypeError: Cannot read properties of undefined (reading 'type')"
    | Some lastParameter =>
        match p_type lastParameter with
        | None =>
            match paramTypeOf jsDocParamTypeInfo (p_name lastParameter) with
            | None => Throw "TypeError: Cannot read properties of undefined (reading 'returnType')"
            | Some ptype =>
                let resultType := ptype_returnType ptype in
                let resultDim := ptype_dimensionality ptype in
                Return
                  (Returned
                     {| fr_type := resultType;
                        fr_dimensionality :=
                          if bool_decide (resultDim = Some "scalar") then None else resultDim |},
                   extra)
            end
        | Some lastParameterType =>
            match typeArgumentsOf lastParameterType with
            | Some [typeArgument] =>
                let returnsNonVoid :=
                  match fn_type func with
                  | Some returnType =>
                      negb (bool_decide (JS.trim (getFullText returnType) = "void"))
                  | None => false
                  end in
                if returnsNonVoid then
                  Return (Returned defaultResultItem,
                          pushError extra (logError
                            "A streaming function should return 'void'. Use CustomFunctions.StreamingHandler.setResult() to set results."
                            lastParameterPosition))
                else
                  let '(ptype, extra) :=
                    getParamType (Some typeArgument) extra basicEnums customEnums in
                  Return (Continue (pt_type ptype, getParamDim (Some typeArgument)), extra)
            | _ =>
                Return (Returned defaultResultItem,
                        pushError extra (logError
                          "The 'CustomFunctions.StreamingHandler' needs to be passed in a single result type (e.g., 'CustomFunctions.StreamingHandler < number >') :"
                          lastParameterPosition))
            end
        end
    end
  else
    match fn_type func with
    | Some type =>
        let node := default type (promiseArgument type) in
        let '(ptype, extra) := getParamType (Some node) extra basicEnums customEnums in
        Return (Continue (pt_type ptype, getParamDim (Some node)), extra)
    | None => Return (Continue (resultType, resultDim), extra)
    end.

(** Second part of [getResults]: the [@return] tag of the doc comment. *)
Definition getResults_jsDoc (func : FunctionDeclaration) (resultType : option string)
    (resultDim : string) (extra : IFunctionExtras)
    (basicEnums : list string) (customEnums : list IEnum)
    : Outcome (option string * string * IFunctionExtras) :=
  match fn_jsDocReturnType func with
  | Some returnTypeFromJSDoc =>
      extra ←
        match fn_type func with
        | Some type =>
            if negb (bool_decide (kind type = kind returnTypeFromJSDoc)) then
              match fn_name func with
              | None => Throw "TypeError: Cannot read properties of undefined (reading 'text')"
              | Some name =>
                  let returnPosition := Some (typePos returnTypeFromJSDoc) in
                  Return (pushError extra (logError
                    ("Type {" +:+ SyntaxKind_name (kind type) +:+ ":" +:+
                     SyntaxKind_name (kind returnTypeFromJSDoc) +:+
                     "} doesn't match for return type : " +:+ name) returnPosition))
              end
            else Return extra
        | None => Return extra
        end;
      let node := default returnTypeFromJSDoc (promiseArgument returnTypeFromJSDoc) in
      let '(ptype, extra) := getParamType (Some node) extra basicEnums customEnums in
      Return (pt_type ptype, getParamDim (Some node), extra)
  | None => Return (resultType, resultDim, extra)
  end.

(** Last part of [getResults]: the emitted item. *)
Definition getResults_item (resultType : option string) (resultDim : string)
    : IFunctionResult :=
  let resultItemType := resultType in
  let resultType :=
    match resultType with
    | Some t =>
        if bool_decide (t ∈ tableValues CELLVALUETYPE_MAPPINGS) then Some "any" else resultType
    | None => resultType
    end in
  {| fr_type := if bool_decide (resultType = Some "any") then None else resultItemType;
     fr_dimensionality := if bool_decide (resultDim = "scalar") then None else Some resultDim |}.

Definition getResults (func : FunctionDeclaration) (isStreamingFunction : bool)
    (lastParameter : option ParameterDeclaration)
    (jsDocParamTypeInfo : JS.Object IJsDocParamType) (extra : IFunctionExtras)
    (basicEnums : list string) (customEnums : list IEnum)
    : Outcome (IFunctionResult * IFunctionExtras) :=
  '(flow, extra) ← getResults_signature func isStreamingFunction lastParameter
                     jsDocParamTypeInfo extra basicEnums customEnums;
  match flow with
  | Returned item => Return (item, extra)
  | Continue (resultType, resultDim) =>
      '(resultType, resultDim, extra) ←
        getResults_jsDoc func resultType resultDim extra basicEnums customEnums;
      Return (getResults_item resultType resultDim, extra)
  end.

(** ** The options of a function *)

Definition isTrue (b : option bool) : bool :=
  match b with Some true => true | _ => false end.

Definition getOptions (func : FunctionDeclaration) (isStreamingFunction : bool)
    (isCancelableFunction : bool) (isInvocationFunction : bool) (extra : IFunctionExtras)
    : IFunctionOptions * IFunctionExtras :=
  let jsDoc := fn_jsDoc func in
  let optionsItem :=
    {| cancelable := Some (isCancelableTag jsDoc isCancelableFunction);
       requiresAddress :=
         Some (isAddressRequired jsDoc && negb (isStreaming jsDoc isStreamingFunction));
       requiresStreamAddress :=
         Some (isAddressRequired jsDoc && isStreaming jsDoc isStreamingFunction);
       stream := Some (isStreaming jsDoc isStreamingFunction);
       volatile := Some (isVolatile jsDoc);
       requiresParameterAddresses :=
         Some (isRequiresParameterAddresses jsDoc &&
               negb (isStreaming jsDoc isStreamingFunction));
       requiresStreamParameterAddresses :=
         Some (isRequiresParameterAddresses jsDoc && isStreaming jsDoc isStreamingFunction);
       excludeFromAutoComplete := Some (isExcludedFromAutoComplete jsDoc);
       linkedEntityLoadService := Some (isLinkedEntityLoadService jsDoc);
       capturesCallingObject := Some (hasCapturesCallingObject jsDoc) |} in
  let extra :=
    if isAddressRequired jsDoc || isRequiresParameterAddresses jsDoc then
      let errorParam :=
        if isAddressRequired jsDoc then "@requiresAddress"
        else "@requiresParameterAddresses" in
      if negb isStreamingFunction && negb isCancelableFunction && negb isInvocationFunction
      then
        let functionPosition := Some (fn_parametersEnd func) in
        pushError extra (logError
          ("Since " +:+ errorParam +:+
           " is present, the last function parameter should be of type CustomFunctions.Invocation :")
          functionPosition)
      else extra
    else extra in
  let extra :=
    if isTrue (linkedEntityLoadService optionsItem) &&
       (isTrue (excludeFromAutoComplete optionsItem) ||
        isTrue (volatile optionsItem) ||
        isTrue (stream optionsItem) ||
        isTrue (requiresAddress optionsItem) ||
        isTrue (requiresParameterAddresses optionsItem) ||
        isTrue (capturesCallingObject optionsItem))
    then
      let functionPosition := Some (fn_pos func) in
      let errorParam :=
        if isTrue (excludeFromAutoComplete optionsItem) then "@excludeFromAutoComplete"
        else if isTrue (volatile optionsItem) then "@volatile"
        else if isTrue (stream optionsItem) then "@streaming"
        else if isTrue (requiresAddress optionsItem) then "@requiresAddress"
        else if isTrue (requiresParameterAddresses optionsItem)
             then "@requiresParameterAddresses"
        else if isTrue (capturesCallingObject optionsItem) then "@capturesCallingObject"
        else "" in
      pushError extra (logError
        (errorParam +:+ " cannot be used with @linkedEntityLoadService.") functionPosition)
    else extra in
  (optionsItem, extra).

(** The [delete] statements of [buildFunctions] on the options: the block
    goes when no flag is set, and a flag that is not set goes otherwise. *)
Definition keepIfTrue (b : option bool) : option bool :=
  if isTrue b then b else None.

Definition pruneOptions (options : IFunctionOptions) : option IFunctionOptions :=
  if negb (isTrue (cancelable options)) &&
     negb (isTrue (requiresAddress options)) &&
     negb (isTrue (requiresStreamAddress options)) &&
     negb (isTrue (stream options)) &&
     negb (isTrue (volatile options)) &&
     negb (isTrue (requiresParameterAddresses options)) &&
     negb (isTrue (requiresStreamParameterAddresses options)) &&
     negb (isTrue (excludeFromAutoComplete options)) &&
     negb (isTrue (linkedEntityLoadService options)) &&
     negb (isTrue (capturesCallingObject options))
  then None
  else Some
    {| cancelable := keepIfTrue (cancelable options);
       requiresAddress := keepIfTrue (requiresAddress options);
       requiresStreamAddress := keepIfTrue (requiresStreamAddress options);
       stream := keepIfTrue (stream options);
       volatile := keepIfTrue (volatile options);
       requiresParameterAddresses := keepIfTrue (requiresParameterAddresses options);
       requiresStreamParameterAddresses :=
         keepIfTrue (requiresStreamParameterAddresses options);
       excludeFromAutoComplete := keepIfTrue (excludeFromAutoComplete options);
       linkedEntityLoadService := keepIfTrue (linkedEntityLoadService options);
       capturesCallingObject := keepIfTrue (capturesCallingObject options) |}.

(** ** The state of one call of [parseTree]

    The arrays that [parseTree] declares and that its nested functions
    [buildEnums], [buildCustomEnums], [buildSingleCustomEnum] and
    [buildFunctions] extend. *)

Record State := {
  associate : list IAssociate;
  functions : list IFunction;
  extras : list IFunctionExtras;
  basicEnums : list string;
  customEnums : list IEnum;
  functionNames : list string;
  metadataFunctionNames : list string;
  metadataFunctionIds : list string;
  metadataEnumIds : list string;
}.

Definition initialState : State :=
  {| associate := []; functions := []; extras := []; basicEnums := [];
     customEnums := []; functionNames := []; metadataFunctionNames := [];
     metadataFunctionIds := []; metadataEnumIds := [] |}.

Definition push_extras (extra : IFunctionExtras) (st : State) : State :=
  {| associate := associate st; functions := functions st;
     extras := extras st ++ [extra]; basicEnums := basicEnums st;
     customEnums := customEnums st; functionNames := functionNames st;
     metadataFunctionNames := metadataFunctionNames st;
     metadataFunctionIds := metadataFunctionIds st;
     metadataEnumIds := metadataEnumIds st |}.

Definition push_basicEnums (name : string) (st : State) : State :=
  {| associate := associate st; functions := functions st;
     extras := extras st; basicEnums := basicEnums st ++ [name];
     customEnums := customEnums st; functionNames := functionNames st;
     metadataFunctionNames := metadataFunctionNames st;
     metadataFunctionIds := metadataFunctionIds st;
     metadataEnumIds := metadataEnumIds st |}.

Definition push_customEnums (enumItem : IEnum) (st : State) : State :=
  {| associate := associate st; functions := functions st;
     extras := extras st; basicEnums := basicEnums st;
     customEnums := customEnums st ++ [enumItem]; functionNames := functionNames st;
     metadataFunctionNames := metadataFunctionNames st;
     metadataFunctionIds := metadataFunctionIds st;
     metadataEnumIds := metadataEnumIds st |}.

Definition push_functionNames (name : string) (st : State) : State :=
  {| associate := associate st; functions := functions st;
     extras := extras st; basicEnums := basicEnums st;
     customEnums := customEnums st; functionNames := functionNames st ++ [name];
     metadataFunctionNames := metadataFunctionNames st;
     metadataFunctionIds := metadataFunctionIds st;
     metadataEnumIds := metadataEnumIds st |}.

Definition push_metadataEnumIds (id : string) (st : State) : State :=
  {| associate := associate st; functions := functions st;
     extras := extras st; basicEnums := basicEnums st;
     customEnums := customEnums st; functionNames := functionNames st;
     metadataFunctionNames := metadataFunctionNames st;
     metadataFunctionIds := metadataFunctionIds st;
     metadataEnumIds := metadataEnumIds st ++ [id] |}.

(** The pushes that end the processing of one custom function. *)
Definition push_function (name id : string) (entry : IAssociate)
    (extra : IFunctionExtras) (functionMetadata : IFunction) (st : State) : State :=
  {| associate := associate st ++ [entry];
     functions := functions st ++ [functionMetadata];
     extras := extras st ++ [extra]; basicEnums := basicEnums st;
     customEnums := customEnums st; functionNames := functionNames st;
     metadataFunctionNames := metadataFunctionNames st ++ [name];
     metadataFunctionIds := metadataFunctionIds st ++ [id];
     metadataEnumIds := metadataEnumIds st |}.

(** An entry of [extras] that holds one diagnostic and no function name *)
Definition errorExtra (error : string) : IFunctionExtras :=
  {| errors := [error]; javascriptFunctionName := "" |}.

(** ** Walking the tree

    Each walker [w] of [parseTree] has the shape
    [function w(node) { visit(node); ts.forEachChild(node, w); }].
    [top] tells whether the parent of the node is the source file. *)

Definition childrenOf (node : Node) : list Node :=
  match node with
  | EnumDeclarationNode _ => []
  | FunctionDeclarationNode _ children => children
  | OtherNode children => children
  end.

Fixpoint walk (visit : bool → Node → State → Outcome State)
    (top : bool) (node : Node) (st : State) : Outcome State :=
  st ← visit top node st;
  match node with
  | EnumDeclarationNode _ => Return st
  | FunctionDeclarationNode _ children | OtherNode children =>
      (fix forEachChild (children : list Node) (st : State) : Outcome State :=
         match children with
         | [] => Return st
         | child :: rest => st ← walk visit false child st; forEachChild rest st
         end) children st
  end.

Fixpoint walkAll (visit : bool → Node → State → Outcome State)
    (top : bool) (nodes : list Node) (st : State) : Outcome State :=
  match nodes with
  | [] => Return st
  | node :: rest => st ← walk visit top node st; walkAll visit top rest st
  end.

(** A walker started on the source file. *)
Definition walkSourceFile (visit : bool → Node → State → Outcome State)
    (sourceFile : SourceFile) (st : State) : Outcome State :=
  walkAll visit true (statements sourceFile) st.

(** ** Enums *)

Definition buildEnums (top : bool) (node : Node) (st : State) : Outcome State :=
  match node with
  | EnumDeclarationNode e =>
      if negb (isCustomEnum (en_jsDoc e)) then Return (push_basicEnums (en_name e) st)
      else Return st
  | _ => Return st
  end.

(** [comment.match(/\{\s*(string|number)\s*\}/)]: the first capture group
    of the leftmost match. *)
Definition matchEnumTypeHere (s : string) : option string :=
  match s with
  | String "{" rest =>
      let rest := JS.trimStart rest in
      let after (word : string) :=
        if String.prefix word rest then
          match JS.trimStart (JS.drop (String.length word) rest) with
          | String "}" _ => Some word
          | _ => None
          end
        else None in
      match after "string" with
      | Some w => Some w
      | None => after "number"
      end
  | _ => None
  end.

Fixpoint matchEnumType (comment : string) : option string :=
  match matchEnumTypeHere comment with
  | Some w => Some w
  | None =>
      match comment with
      | String _ rest => matchEnumType rest
      | EmptyString => None
      end
  end.

(** The [for] loop of [buildSingleCustomEnum] over the members.  The
    result is [None] when the loop is left by the [return] that follows
    the diagnostic for an inconsistent value; [JSON.parse] may throw. *)
Fixpoint enumValues (isNumberEnum : bool) (members : list EnumMember)
    (defaultValueForNumberEnum : Z) (values : list IEnumValue)
    : Outcome (option (list IEnumValue)) :=
  match members with
  | [] => Return (Some values)
  | member :: rest =>
      '(value, defaultValueForNumberEnum) ←
        match m_initializer member with
        | Some initializer =>
            match init_JSON initializer with
            | Some value => Return (value, defaultValueForNumberEnum)
            | None => Throw "SyntaxError: Unexpected token in JSON"
            end
        | None =>
            Return (JsNumber defaultValueForNumberEnum, (defaultValueForNumberEnum + 1)%Z)
        end;
      if (isNumberEnum && negb (bool_decide (typeof value = "number"))) ||
         (negb isNumberEnum && negb (bool_decide (typeof value = "string")))
      then Return None
      else
        enumValues isNumberEnum rest defaultValueForNumberEnum
          (values ++ [{| ev_name := m_name member; ev_value := value;
                         ev_tooltip := m_tooltip member |}])
  end.

Definition buildSingleCustomEnum (top : bool) (node : Node) (st : State) : Outcome State :=
  match node with
  | EnumDeclarationNode enumDeclaration =>
      if negb top then Return st
      else if negb (isCustomEnum (en_jsDoc enumDeclaration)) ||
              bool_decide (length (en_members enumDeclaration) = 0)
      then Return st
      else
        let position := Some (en_pos enumDeclaration) in
        let extra := {| errors := []; javascriptFunctionName := "" |} in
        let id := en_name enumDeclaration in
        let extra := validateName id position extra "enum" in
        let st := push_extras extra st in
        let st :=
          if checkForDuplicate (metadataEnumIds st) id then
            push_extras
              (errorExtra (logError
                 ("@" +:+ CUSTOM_ENUM +:+ " tag specifies a duplicate name: " +:+ id)
                 position)) st
          else st in
        let st := push_metadataEnumIds id st in
        let isNumberEnum := true in
        let comment := getTagComment (en_jsDoc enumDeclaration) CUSTOM_ENUM in
        let '(jsDocType, st) :=
          if JS.truthy comment then
            let typeMatch := matchEnumType comment in
            (JS.trim <$> typeMatch,
             if negb (bool_decide (is_Some typeMatch)) then
               push_extras
                 (errorExtra (logError
                    ("Unknown enum type defined after @" +:+ CUSTOM_ENUM +:+
                     " tag. Please use " +:+ JS.quote +:+ "{string}" +:+ JS.quote +:+
                     " or " +:+ JS.quote +:+ "{number}" +:+ JS.quote +:+ ": " +:+ id)
                    position)) st
             else st)
          else (None, st) in
        let firstMember := head (en_members enumDeclaration) in
        let '(isNumberEnum, mismatch) :=
          match firstMember ≫= m_initializer with
          | Some initializer =>
              let isNumberEnum := negb (init_isNaN initializer) in
              (isNumberEnum,
               match jsDocType with
               | Some jsDocType =>
                   (isNumberEnum && negb (bool_decide (jsDocType = "number"))) ||
                   (negb isNumberEnum && negb (bool_decide (jsDocType = "string")))
               | None => false
               end)
          | None => (isNumberEnum, false)
          end in
        if mismatch then
          Return (push_extras
                    (errorExtra (logError
                       ("Enum type must match the enum type in annotation: " +:+ id)
                       position)) st)
        else
          values ← enumValues isNumberEnum (en_members enumDeclaration) 0 [];
          match values with
          | None =>
              Return (push_extras
                        (errorExtra (logError
                           ("Enum value type must be consistent: " +:+ id) position)) st)
          | Some values =>
              let enumItem :=
                {| enum_id := id;
                   enum_type := if isNumberEnum then "number" else "string";
                   enum_values := values |} in
              Return (push_customEnums enumItem st)
          end
  | _ => Return st
  end.

Definition buildCustomEnums (top : bool) (node : Node) (st : State) : Outcome State :=
  match node with
  | EnumDeclarationNode _ => buildSingleCustomEnum top node st
  | _ => Return st
  end.

(** ** Functions *)

(** [if (!x) delete x] on a string field *)
Definition keepTruthy (text : option string) : option string :=
  match text with
  | Some t => if JS.truthy t then text else None
  | None => None
  end.

Definition buildFunctions (sourceFileName : string) (top : bool) (node : Node)
    (st : State) : Outcome State :=
  match node with
  | FunctionDeclarationNode functionDeclaration _ =>
      if top then
        let jsDoc := fn_jsDoc functionDeclaration in
        let position := Some (fn_pos functionDeclaration) in
        let functionName := default "" (fn_name functionDeclaration) in
        let functionErrors :=
          if checkForDuplicate (functionNames st) functionName then
            [logError ("Duplicate function name: " +:+ functionName) position]
          else [] in
        let st := push_functionNames functionName st in
        if isCustomFunction jsDoc then
          let extra :=
            {| errors := functionErrors; javascriptFunctionName := functionName |} in
          let idName := getTagComment jsDoc CUSTOM_FUNCTION in
          let idNameArray := JS.split idName " " in
          let jsDocParamInfo := getJSDocParams jsDoc in
          let jsDocParamTypeInfo := getJSDocParamsType jsDoc in
          let jsDocParamOptionalInfo := getJSDocParamsOptionalType jsDoc in
          let lastParameter := last (fn_parameters functionDeclaration) in
          let isStreamingFunction :=
            hasStreamingInvocationParameter lastParameter jsDocParamTypeInfo in
          let isCancelableFunction :=
            hasCancelableInvocationParameter lastParameter jsDocParamTypeInfo in
          let isInvocationFunction :=
            hasInvocationParameter lastParameter jsDocParamTypeInfo in
          let parametersToParse :=
            if isStreamingFunction || isCancelableFunction || isInvocationFunction
            then take (length (fn_parameters functionDeclaration) - 1)
                      (fn_parameters functionDeclaration)
            else fn_parameters functionDeclaration in
          let parameterItems :=
            {| ga_basicEnums := basicEnums st;
               ga_customEnums := customEnums st;
               ga_extra := extra;
               ga_jsDocParamInfo := jsDocParamInfo;
               ga_jsDocParamOptionalInfo := jsDocParamOptionalInfo;
               ga_jsDocParamTypeInfo := jsDocParamTypeInfo;
               ga_parametersToParse := parametersToParse |} in
          let '(parameters, extra) := getParameters parameterItems in
          description ← getDescription jsDoc;
          let helpUrl := normalizeLineEndings (Some (getTagComment jsDoc HELPURL_PARAM)) in
          '(result, extra) ←
            getResults functionDeclaration isStreamingFunction lastParameter
              jsDocParamTypeInfo extra (basicEnums st) (customEnums st);
          let '(options, extra) :=
            getOptions functionDeclaration isStreamingFunction isCancelableFunction
              isInvocationFunction extra in
          let funcName := default "" (fn_name functionDeclaration) in
          let id :=
            normalizeCustomFunctionId (JS.orElse (default "" (idNameArray !! 0)) funcName) in
          let name := JS.orElse (default "" (idNameArray !! 1)) id in
          let extra := validateId id position extra in
          let extra := validateName name position extra "function" in
          let extra :=
            if checkForDuplicate (metadataFunctionNames st) name then
              pushError extra (logError
                ("@customfunction tag specifies a duplicate name: " +:+ name) position)
            else extra in
          let extra :=
            if checkForDuplicate (metadataFunctionIds st) id then
              pushError extra (logError
                ("@customfunction tag specifies a duplicate id: " +:+ id) position)
            else extra in
          let functionMetadata :=
            {| f_id := id;
               f_name := name;
               f_description := keepTruthy description;
               f_helpUrl := keepTruthy helpUrl;
               f_parameters := parameters;
               f_result := Some result;
               f_options := pruneOptions options |} in
          Return (push_function name id
                    {| as_sourceFileName := sourceFileName;
                       as_functionName := functionName;
                       as_id := id |}
                    extra functionMetadata st)
        else Return st
      else Return st
  | _ => Return st
  end.

(** ** [parseTree]

    The source file is given parsed: [ts.createSourceFile] is the parser of
    the TypeScript compiler. *)
Definition parseTree (sourceFile : SourceFile) (sourceFileName : string)
    : Outcome IParseTreeResult :=
  st ← walkSourceFile buildEnums sourceFile initialState;
  st ← walkSourceFile buildCustomEnums sourceFile st;
  st ← walkSourceFile (buildFunctions sourceFileName) sourceFile st;
  Return {| r_associate := associate st;
            r_extras := extras st;
            r_functions := functions st;
            r_enums := customEnums st |}.

(** * Induction on nodes *)

Section NodeInduction.
Variable P : Node → Prop.
Hypothesis Penum : ∀ e, P (EnumDeclarationNode e).
Hypothesis Pfunction : ∀ f children, Forall P children → P (FunctionDeclarationNode f children).
Hypothesis Pother : ∀ children, Forall P children → P (OtherNode children).

Fixpoint Node_nested_ind (node : Node) : P node :=
  match node with
  | EnumDeclarationNode e => Penum e
  | FunctionDeclarationNode f children =>
      Pfunction f children
        ((fix each (l : list Node) : Forall P l :=
            match l with
            | [] => List.Forall_nil P
            | c :: r => List.Forall_cons P c r (Node_nested_ind c) (each r)
            end) children)
  | OtherNode children =>
      Pother children
        ((fix each (l : list Node) : Forall P l :=
            match l with
            | [] => List.Forall_nil P
            | c :: r => List.Forall_cons P c r (Node_nested_ind c) (each r)
            end) children)
  end.
End NodeInduction.

(** * The steps of [buildFunctions] on one custom function *)

Section CustomFunctionSteps.
Variable sourceFileName : string.
Variable func : FunctionDeclaration.
Variable st : State.

Definition fnName : string := default "" (fn_name func).

Definition fnErrors : list string :=
  if checkForDuplicate (functionNames st) fnName then
    [logError ("Duplicate function name: " +:+ fnName) (Some (fn_pos func))]
  else [].

Definition fnTypeInfo : JS.Object IJsDocParamType := getJSDocParamsType (fn_jsDoc func).

Definition fnLast : option ParameterDeclaration := last (fn_parameters func).

Definition fnStreaming : bool := hasStreamingInvocationParameter fnLast fnTypeInfo.
Definition fnCancelable : bool := hasCancelableInvocationParameter fnLast fnTypeInfo.
Definition fnInvocation : bool := hasInvocationParameter fnLast fnTypeInfo.

Definition fnParametersToParse : list ParameterDeclaration :=
  if fnStreaming || fnCancelable || fnInvocation
  then take (length (fn_parameters func) - 1) (fn_parameters func)
  else fn_parameters func.

Definition fnParameterItems : IGetParametersArguments :=
  {| ga_basicEnums := basicEnums st;
     ga_customEnums := customEnums st;
     ga_extra := {| errors := fnErrors; javascriptFunctionName := fnName |};
     ga_jsDocParamInfo := getJSDocParams (fn_jsDoc func);
     ga_jsDocParamOptionalInfo := getJSDocParamsOptionalType (fn_jsDoc func);
     ga_jsDocParamTypeInfo := fnTypeInfo;
     ga_parametersToParse := fnParametersToParse |}.

Definition fnIdNameArray : list string :=
  JS.split (getTagComment (fn_jsDoc func) CUSTOM_FUNCTION) " ".

Definition fnId : string :=
  normalizeCustomFunctionId (JS.orElse (default "" (fnIdNameArray !! 0)) fnName).

Definition fnDisplayName : string := JS.orElse (default "" (fnIdNameArray !! 1)) fnId.

(** The diagnostics of the function from [getOptions] on. *)
Definition fnFinalExtra (extra : IFunctionExtras) : IFunctionExtras :=
  let extra :=
    (getOptions func fnStreaming fnCancelable fnInvocation extra).2 in
  let extra := validateId fnId (Some (fn_pos func)) extra in
  let extra := validateName fnDisplayName (Some (fn_pos func)) extra "function" in
  let extra :=
    if checkForDuplicate (metadataFunctionNames st) fnDisplayName then
      pushError extra (logError
        ("@customfunction tag specifies a duplicate name: " +:+ fnDisplayName)
        (Some (fn_pos func)))
    else extra in
  if checkForDuplicate (metadataFunctionIds st) fnId then
    pushError extra (logError
      ("@customfunction tag specifies a duplicate id: " +:+ fnId) (Some (fn_pos func)))
  else extra.

Definition fnMetadata (description : option string) (result : IFunctionResult)
    (extra : IFunctionExtras) : IFunction :=
  {| f_id := fnId;
     f_name := fnDisplayName;
     f_description := keepTruthy description;
     f_helpUrl :=
       keepTruthy (normalizeLineEndings (Some (getTagComment (fn_jsDoc func) HELPURL_PARAM)));
     f_parameters := (getParameters fnParameterItems).1;
     f_result := Some result;
     f_options :=
       pruneOptions (getOptions func fnStreaming fnCancelable fnInvocation extra).1 |}.

Definition fnFinish (description : option string) (result : IFunctionResult)
    (extra : IFunctionExtras) : State :=
  push_function fnDisplayName fnId
    {| as_sourceFileName := sourceFileName; as_functionName := fnName; as_id := fnId |}
    (fnFinalExtra extra) (fnMetadata description result extra)
    (push_functionNames fnName st).

End CustomFunctionSteps.

(** * Vocabulary of the properties *)

(** The number of pairs of brackets that follow the element type:
    [number[][]] has two. *)
Fixpoint bracketDepth (t : TypeNode) : nat :=
  match t with
  | ArrayTypeNode _ elementType => S (bracketDepth elementType)
  | _ => 0
  end.

(** The number of [Array<...>] around the element type:
    [Array<Array<number>>] has two. *)
Fixpoint genericDepth (t : TypeNode) : nat :=
  match t with
  | TypeReferenceNode _ typeName (Some [typeArgument]) =>
      if bool_decide (typeName = "Array") then S (genericDepth typeArgument) else 0
  | _ => 0
  end.

(** The number of array layers that the extractor counts: those of the
    notation in which the type is written at its outermost level, pairs of
    brackets for [T[]] and nested [Array] references for [Array<T>], and 0
    for any other type. *)
Definition arrayNestingDepth (t : TypeNode) : nat :=
  match t with
  | ArrayTypeNode _ _ => bracketDepth t
  | TypeReferenceNode _ _ _ => genericDepth t
  | LeafTypeNode _ _ _ => 0
  end.

(** The array nesting depth of a type in the words of the specification:
    the number of array layers around its element type, whichever notation
    each layer is written in.  [Array<number[]>] has depth 2. *)
Fixpoint nestingDepth (t : TypeNode) : nat :=
  match t with
  | ArrayTypeNode _ elementType => S (nestingDepth elementType)
  | TypeReferenceNode _ typeName (Some [typeArgument]) =>
      if bool_decide (typeName = "Array") then S (nestingDepth typeArgument) else 0
  | _ => 0
  end.

(** All the array layers of the type are written in one notation. *)
Definition oneNotation (t : TypeNode) : Prop :=
  nestingDepth t = bracketDepth t ∨ nestingDepth t = genericDepth t.

(** The description of the declaration, the comment of its first doc
    comment, is a text or is missing: it holds no inline tag. *)
Definition descriptionIsText (jsDoc : list JSDoc) : bool :=
  match head jsDoc ≫= doc_comment with
  | Some (CommentNodes _) => false
  | _ => true
  end.

(** The text of the description, when there is one *)
Definition descriptionText (jsDoc : list JSDoc) : option string :=
  match head jsDoc ≫= doc_comment with
  | Some (CommentText text) => Some text
  | _ => None
  end.

(** The enum walkers touch [extras], [basicEnums], [customEnums] and
    [metadataEnumIds] only. *)
Definition sameFunctionState (st st' : State) : Prop :=
  associate st' = associate st ∧ functions st' = functions st ∧
  functionNames st' = functionNames st ∧
  metadataFunctionNames st' = metadataFunctionNames st ∧
  metadataFunctionIds st' = metadataFunctionIds st.

Definition exclusiveAddressFlags (o : IFunctionOptions) : Prop :=
  ¬ (requiresAddress o = Some true ∧ requiresStreamAddress o = Some true) ∧
  ¬ (requiresParameterAddresses o = Some true ∧
     requiresStreamParameterAddresses o = Some true).

Definition functionOptionsExclusive (f : IFunction) : Prop :=
  ∀ o, f_options f = Some o → exclusiveAddressFlags o.

Definition unvaluedBefore (i : nat) (members : list EnumMember) : nat :=
  length (filter (λ m, m_initializer m = None) (take i members)).

Definition streamingTypeNames : list string :=
  ["CustomFunctions.StreamingInvocation"; "CustomFunctions.StreamingHandler";
   "IStreamingCustomFunctionHandler"].

Definition duplicateFunctionName : string := "Duplicate function name: ".
Definition duplicateTagName : string := "@customfunction tag specifies a duplicate name: ".
Definition duplicateTagId : string := "@customfunction tag specifies a duplicate id: ".

(** The diagnostics of [buildFunctions] that report a duplicate. *)
Definition isDuplicateDiagnostic (error : string) : bool :=
  String.prefix duplicateFunctionName error ||
  String.prefix duplicateTagName error ||
  String.prefix duplicateTagId error.

(** Those of them that report a duplicate name. *)
Definition isDuplicateNameDiagnostic (error : string) : bool :=
  String.prefix duplicateFunctionName error ||
  String.prefix duplicateTagName error.

(** [extra'] is [extra] with more diagnostics, none about a duplicate. *)
Definition quiet (extra extra' : IFunctionExtras) : Prop :=
  javascriptFunctionName extra' = javascriptFunctionName extra ∧
  ∃ added,
    errors extra' = errors extra ++ added ∧
    Forall (λ error, isDuplicateDiagnostic error = false) added.

Definition duplicateTagNameError (func : FunctionDeclaration) (st : State) : list string :=
  if checkForDuplicate (metadataFunctionNames st) (fnDisplayName func) then
    [logError (duplicateTagName +:+ fnDisplayName func) (Some (fn_pos func))]
  else [].

Definition duplicateTagIdError (func : FunctionDeclaration) (st : State) : list string :=
  if checkForDuplicate (metadataFunctionIds st) (fnId func) then
    [logError (duplicateTagId +:+ fnId func) (Some (fn_pos func))]
  else [].

(** What the function walker adds to [functionNames] and [extras] stays. *)
Definition grows (st st' : State) : Prop :=
  functionNames st `prefix_of` functionNames st' ∧ extras st `prefix_of` extras st'.

(** The names and the ids of the tags that the function walker has seen
    stay. *)
Definition keepsMetadata (st st' : State) : Prop :=
  metadataFunctionNames st `prefix_of` metadataFunctionNames st' ∧
  metadataFunctionIds st `prefix_of` metadataFunctionIds st'.

Definition isFunctionDeclarationNode (node : Node) : bool :=
  match node with
  | FunctionDeclarationNode _ _ => true
  | _ => false
  end.

(** [buildEnums] extends [basicEnums] and touches nothing else. *)
Definition sameButBasicEnums (st st' : State) : Prop :=
  sameFunctionState st st' ∧ extras st' = extras st ∧
  customEnums st' = customEnums st ∧ metadataEnumIds st' = metadataEnumIds st.

Definition resultTypeOf (func : FunctionDeclaration) : option (option string) :=
  match parseTree {| statements := [FunctionDeclarationNode func []] |} "functions.ts" with
  | Return r =>
      match r_functions r with
      | [m] => match f_result m with Some result => Some (fr_type result) | None => None end
      | _ => None
      end
  | Throw _ => None
  end.

(** The custom functions among the top-level declarations, in source order *)
Fixpoint topLevelCustomFunctions (nodes : list Node) : list FunctionDeclaration :=
  match nodes with
  | [] => []
  | FunctionDeclarationNode func _ :: rest =>
      if isCustomFunction (fn_jsDoc func) then func :: topLevelCustomFunctions rest
      else topLevelCustomFunctions rest
  | _ :: rest => topLevelCustomFunctions rest
  end.

(** The kind of a custom enum: that of the initializer of its first member,
    number without one. *)
Definition enumIsNumber (e : EnumDeclaration) : bool :=
  match head (en_members e) ≫= m_initializer with
  | Some initializer => negb (init_isNaN initializer)
  | None => true
  end.

(** The type that the doc comment of a custom enum names after the tag *)
Definition enumAnnotation (e : EnumDeclaration) : option string :=
  let comment := getTagComment (en_jsDoc e) CUSTOM_ENUM in
  if JS.truthy comment then JS.trim <$> matchEnumType comment else None.

(** The first member has an initializer whose kind is not the annotated one. *)
Definition annotationMismatch (e : EnumDeclaration) : bool :=
  match head (en_members e) ≫= m_initializer, enumAnnotation e with
  | Some _, Some jsDocType =>
      (enumIsNumber e && negb (bool_decide (jsDocType = "number"))) ||
      (negb (enumIsNumber e) && negb (bool_decide (jsDocType = "string")))
  | _, _ => false
  end.

(** * Example inputs *)

Definition at0 : LineAndCharacter := {| line := 0; character := 0 |}.

Definition tag (name : string) (comment : option string) : JSDocTag :=
  {| tagName := name; tag_comment := CommentText <$> comment; tag_parameter := None |}.

Definition docOf (tags : list JSDocTag) : list JSDoc :=
  [{| doc_comment := None; doc_tags := tags |}].

(** Two doc comments before one declaration *)
Definition twoComments (first second : list JSDocTag) : list JSDoc :=
  [{| doc_comment := None; doc_tags := first |};
   {| doc_comment := None; doc_tags := second |}].

Definition parameter (name : string) (type : option TypeNode) : ParameterDeclaration :=
  {| p_name := name; p_type := type; p_jsDocType := None; p_questionToken := false;
     p_initializer := false; p_dotDotDotToken := false; p_pos := at0 |}.

Definition customFunction (name : string) (parameters : list ParameterDeclaration)
    (type : option TypeNode) : FunctionDeclaration :=
  {| fn_name := Some name; fn_parameters := parameters; fn_type := type;
     fn_jsDoc := docOf [tag "customfunction" None]; fn_jsDocReturnType := None;
     fn_pos := at0; fn_parametersEnd := at0 |}.

Definition stringArray : TypeNode :=
  ArrayTypeNode at0 (LeafTypeNode at0 StringKeyword "string").

Definition streamingOfStringArray : FunctionDeclaration :=
  customFunction "tick"
    [parameter "x" (Some (LeafTypeNode at0 NumberKeyword "number"));
     parameter "handler"
       (Some (TypeReferenceNode at0 "CustomFunctions.StreamingHandler" (Some [stringArray])))]
    None.

Definition emptyCustomEnum : EnumDeclaration :=
  {| en_name := "Empty"; en_members := []; en_jsDoc := docOf [tag "customenum" None];
     en_pos := at0 |}.

Definition numberType : TypeNode := LeafTypeNode at0 NumberKeyword "number".

Definition threeArrayParameters : IGetParametersArguments :=
  {| ga_basicEnums := []; ga_customEnums := [];
     ga_extra := {| errors := []; javascriptFunctionName := "f" |};
     ga_jsDocParamInfo := ∅; ga_jsDocParamOptionalInfo := ∅; ga_jsDocParamTypeInfo := ∅;
     ga_parametersToParse :=
       [parameter "one" (Some (ArrayTypeNode at0 numberType));
        parameter "two" (Some (ArrayTypeNode at0 (ArrayTypeNode at0 numberType)));
        parameter "three"
          (Some (ArrayTypeNode at0 (ArrayTypeNode at0 (ArrayTypeNode at0 numberType))))] |}.

Definition streamingWithAddress : FunctionDeclaration :=
  {| fn_name := Some "watch";
     fn_parameters :=
       [parameter "handler"
          (Some (TypeReferenceNode at0 "CustomFunctions.StreamingHandler"
                   (Some [numberType])))];
     fn_type := None;
     fn_jsDoc := docOf [tag "customfunction" None; tag "requiresAddress" None];
     fn_jsDocReturnType := None; fn_pos := at0; fn_parametersEnd := at0 |}.

Definition streamingWithAddressFile : SourceFile :=
  {| statements := [FunctionDeclarationNode streamingWithAddress []] |}.

Definition streamingWithAddressResult : IParseTreeResult :=
  Eval vm_compute in
    match parseTree streamingWithAddressFile "functions.ts" with
    | Return r => r
    | Throw _ => {| r_associate := []; r_extras := []; r_functions := []; r_enums := [] |}
    end.

Definition member (name : string) (initializer : option Expression) : EnumMember :=
  {| m_name := name; m_initializer := initializer; m_tooltip := "" |}.

(** The initializer [5]: [Number("5")] is 5 and [JSON.parse("5")] is 5. *)
Definition five : Expression :=
  {| init_text := "5"; init_isNaN := false; init_JSON := Some (JsNumber 5) |}.

(** [enum Mixed { A = 5, B, C = 5, D }] *)
Definition mixedEnum : EnumDeclaration :=
  {| en_name := "Mixed";
     en_members := [member "A" (Some five); member "B" None;
                    member "C" (Some five); member "D" None];
     en_jsDoc := docOf [tag "customenum" None]; en_pos := at0 |}.

(** [enum Plain { A, B, C }] *)
Definition plainEnum : EnumDeclaration :=
  {| en_name := "Plain";
     en_members := [member "A" None; member "B" None; member "C" None];
     en_jsDoc := docOf [tag "customenum" None]; en_pos := at0 |}.

Definition mixedItem : IEnum :=
  {| enum_id := "Mixed"; enum_type := "number";
     enum_values :=
       [{| ev_name := "A"; ev_value := JsNumber 5; ev_tooltip := "" |};
        {| ev_name := "B"; ev_value := JsNumber 0; ev_tooltip := "" |};
        {| ev_name := "C"; ev_value := JsNumber 5; ev_tooltip := "" |};
        {| ev_name := "D"; ev_value := JsNumber 1; ev_tooltip := "" |}] |}.

Definition mixedState : State :=
  push_customEnums mixedItem
    (push_metadataEnumIds "Mixed"
       (push_extras {| errors := []; javascriptFunctionName := "" |} initialState)).

Definition plainFunction (name : string) : FunctionDeclaration :=
  {| fn_name := Some name; fn_parameters := []; fn_type := None; fn_jsDoc := [];
     fn_jsDocReturnType := None; fn_pos := at0; fn_parametersEnd := at0 |}.

(** [function add() {}] followed by a custom function [ADD] *)
Definition shadowedFile : SourceFile :=
  {| statements := [FunctionDeclarationNode (plainFunction "add") [];
                    FunctionDeclarationNode (customFunction "ADD" [] None) []] |}.

Definition shadowedResult : IParseTreeResult :=
  Eval vm_compute in
    match parseTree shadowedFile "functions.ts" with
    | Return r => r
    | Throw _ => {| r_associate := []; r_extras := []; r_functions := []; r_enums := [] |}
    end.

(** [foo] and [FOO], both custom functions *)
Definition caseFile : SourceFile :=
  {| statements := [FunctionDeclarationNode (customFunction "foo" [] None) [];
                    FunctionDeclarationNode (customFunction "FOO" [] None) []] |}.

(** An enum, [foo], a third custom function and [FOO] *)
Definition spacedCaseFile : SourceFile :=
  {| statements := [EnumDeclarationNode plainEnum;
                    FunctionDeclarationNode (customFunction "foo" [] None) [];
                    FunctionDeclarationNode (customFunction "bar" [] None) [];
                    FunctionDeclarationNode (customFunction "FOO" [] None) []] |}.

Definition spacedCaseResult : IParseTreeResult :=
  Eval vm_compute in
    match parseTree spacedCaseFile "functions.ts" with
    | Return r => r
    | Throw _ => {| r_associate := []; r_extras := []; r_functions := []; r_enums := [] |}
    end.

(** A custom function without parameters that returns a value of the named
    type: [function getValue(): T {}]. *)
Definition returning (typeName : string) : FunctionDeclaration :=
  customFunction "getValue" [] (Some (TypeReferenceNode at0 typeName None)).

(** The initializer ['red']: [Number("'red'")] is [NaN] and [JSON.parse]
    throws on a string in single quotes. *)
Definition singleQuoted : Expression :=
  {| init_text := "'red'"; init_isNaN := true; init_JSON := None |}.

(** A custom enum [enum Color { Red = 'red' }] *)
Definition quotedEnum : EnumDeclaration :=
  {| en_name := "Color"; en_members := [member "Red" (Some singleQuoted)];
     en_jsDoc := docOf [tag "customenum" (Some "{string}")]; en_pos := at0 |}.

(** The initializer ["x"]: a string for [JSON.parse], not a number. *)
Definition doubleQuoted : Expression :=
  {| init_text := String (ascii_of_nat 34) "x" +:+ JS.quote;
     init_isNaN := true; init_JSON := Some (JsString "x") |}.

(** The initializer [1] *)
Definition one : Expression :=
  {| init_text := "1"; init_isNaN := false; init_JSON := Some (JsNumber 1) |}.

(** A custom enum [enum Level { Low = 1, High = "x" }] *)
Definition inconsistentEnum : EnumDeclaration :=
  {| en_name := "Level";
     en_members := [member "Low" (Some one); member "High" (Some doubleQuoted)];
     en_jsDoc := docOf [tag "customenum" None]; en_pos := at0 |}.

(** A custom enum [enum Level { Low = 1 }] annotated with [{string}] *)
Definition mismatchedEnum : EnumDeclaration :=
  {| en_name := "Level"; en_members := [member "Low" (Some one)];
     en_jsDoc := docOf [tag "customenum" (Some "{string}")]; en_pos := at0 |}.

Definition inconsistentFile : SourceFile :=
  {| statements := [EnumDeclarationNode inconsistentEnum;
                    FunctionDeclarationNode (customFunction "add" [] None) []] |}.

Definition inconsistentResult : IParseTreeResult :=
  Eval vm_compute in
    match parseTree inconsistentFile "functions.ts" with
    | Return r => r
    | Throw _ => {| r_associate := []; r_extras := []; r_functions := []; r_enums := [] |}
    end.

(** A function declaration without a name whose return type is number
    while the doc comment says string: reading the name for the diagnostic
    throws. *)
Definition anonymousMismatch : FunctionDeclaration :=
  {| fn_name := None; fn_parameters := [];
     fn_type := Some (LeafTypeNode at0 NumberKeyword "number");
     fn_jsDoc := docOf [tag "customfunction" (Some "ANSWER")];
     fn_jsDocReturnType := Some (LeafTypeNode at0 StringKeyword "string");
     fn_pos := at0; fn_parametersEnd := at0 |}.

(** A streaming function of a JavaScript file: the handler has no
    structural type and the doc comment gives
    [{CustomFunctions.StreamingHandler<string[][]>}]. *)
Definition streamingFromComment : FunctionDeclaration :=
  {| fn_name := Some "feed";
     fn_parameters := [parameter "handler" None];
     fn_type := None;
     fn_jsDoc :=
       docOf [tag "customfunction" None;
              {| tagName := "param"; tag_comment := Some (CommentText "the handler");
                 tag_parameter :=
                   Some {| jp_name := "handler";
                           jp_typeExpression :=
                             Some "{CustomFunctions.StreamingHandler<string[][]>}";
                           jp_isBracketed := false |} |}];
     fn_jsDocReturnType := None; fn_pos := at0; fn_parametersEnd := at0 |}.

(** [Array<Array<number>>] is a matrix like [number[][]]; in
    [Array<number[]>] only the [Array] references are counted, and
    [getParamType] rejects the type. *)
Definition genericArrayParameters : IGetParametersArguments :=
  {| ga_basicEnums := []; ga_customEnums := [];
     ga_extra := {| errors := []; javascriptFunctionName := "f" |};
     ga_jsDocParamInfo := ∅; ga_jsDocParamOptionalInfo := ∅; ga_jsDocParamTypeInfo := ∅;
     ga_parametersToParse :=
       [parameter "generic"
          (Some (TypeReferenceNode at0 "Array"
                   (Some [TypeReferenceNode at0 "Array" (Some [numberType])])));
        parameter "mixed"
          (Some (TypeReferenceNode at0 "Array" (Some [ArrayTypeNode at0 numberType])))] |}.

(** * Vocabulary of further properties *)

(** The carriage return *)
Definition carriageReturn : ascii := ascii_of_nat 13.

Fixpoint containsChar (c : ascii) (s : string) : bool :=
  match s with
  | EmptyString => false
  | String d r => Ascii.eqb d c || containsChar c r
  end.

(** The diagnostics that a call added to [extra] *)
Definition addedErrors (extra extra' : IFunctionExtras) (added : list string) : Prop :=
  javascriptFunctionName extra' = javascriptFunctionName extra ∧
  errors extra' = errors extra ++ added.

Fixpoint repeatChar (n : nat) (c : ascii) : string :=
  match n with
  | O => EmptyString
  | S n' => String c (repeatChar n' c)
  end.

Definition noExtra : IFunctionExtras := {| errors := []; javascriptFunctionName := "f" |}.

(** [n] pairs of square brackets, as after the base type of an array type *)
Fixpoint arrayBrackets (n : nat) : string :=
  match n with
  | O => EmptyString
  | S n' => String "[" (String "]" (arrayBrackets n'))
  end.

(** The text [{Outer<Base[]...[]>}] of a type expression of a doc comment *)
Definition genericTypeExpression (outer base : string) (n : nat) : string :=
  "{" +:+ outer +:+ "<" +:+ base +:+ arrayBrackets n +:+ ">}".

(** The last [@param] tag of the last doc comment that names [name] *)
Definition lastParameterTag (jsDoc : list JSDoc) (name : string)
    : option (JSDocTag * JSDocParameter) :=
  last (filter (λ entry, jp_name entry.2 = name) (getJSDocParameterTags jsDoc)).


Definition parameterTagType (p : JSDocParameter) : IJsDocParamType :=
  match jp_typeExpression p with
  | Some typeExpression => jsDocParamTypeOf typeExpression
  | None => {| jt_type := "any"; jt_returnType := None; jt_dimensionality := None |}
  end.


(** The type that the last [@param] tag for [name] gives *)
Definition lastParameterType (jsDoc : list JSDoc) (name : string) : option IJsDocParamType :=
  (λ entry, parameterTagType entry.2) <$> lastParameterTag jsDoc name.


(** The comments of the tags that [ts.getJSDocTags] gives are ASCII texts. *)
Definition asciiTagComments (jsDoc : list JSDoc) : bool :=
  forallb (λ tag, from_option (λ comment, JS.isAscii (commentToString comment)) true
                    (tag_comment tag))
          (getJSDocTags jsDoc).

(** The declared names and the tag comments of the custom functions among
    the statements are ASCII texts. *)
Definition asciiFunctions (nodes : list Node) : bool :=
  forallb (λ node,
             match node with
             | FunctionDeclarationNode func _ =>
                 negb (isCustomFunction (fn_jsDoc func)) ||
                 (JS.isAscii (default "" (fn_name func)) && asciiTagComments (fn_jsDoc func))
             | _ => true
             end) nodes.







(** The metadata record [f] is the one that [buildFunctions] makes for the
    declaration [func], in some state of the walk. *)
Definition emittedFrom (f : IFunction) (func : FunctionDeclaration) : Prop :=
  ∃ st description result extra,
    getDescription (fn_jsDoc func) = Return description ∧
    getResults func (fnStreaming func) (fnLast func) (fnTypeInfo func)
      (getParameters (fnParameterItems func st)).2 (basicEnums st) (customEnums st)
      = Return (result, extra) ∧
    f = fnMetadata func st description result extra.

(** The last parameter of the declaration has one of the three roles. *)
Definition lastParameterHasRole (func : FunctionDeclaration) : bool :=
  fnStreaming func || fnCancelable func || fnInvocation func.



Definition paramTag (name : string) (typeExpression : option string) (bracketed : bool)
    (comment : option string) : JSDocTag :=
  {| tagName := "param"; tag_comment := CommentText <$> comment;
     tag_parameter :=
       Some {| jp_name := name; jp_typeExpression := typeExpression;
               jp_isBracketed := bracketed |} |}.

(** A documented function with an id and a name in its tag, an optional
    parameter and an invocation parameter:
    [@customfunction ADDTWO Add.Two], [@param first - the first number],
    [@param {number} [second]], [@param {CustomFunctions.Invocation} invocation] *)
Definition documentedFunction : FunctionDeclaration :=
  {| fn_name := Some "addTwo";
     fn_parameters :=
       [parameter "first" (Some numberType);
        parameter "second" (Some (ArrayTypeNode at0 (ArrayTypeNode at0 numberType)));
        parameter "invocation" None];
     fn_type := Some numberType;
     fn_jsDoc :=
       [{| doc_comment := Some (CommentText "Adds two numbers.");
           doc_tags :=
             [tag "customfunction" (Some "addTwo Add.Two");
              paramTag "first" None false (Some "- the first number ");
              paramTag "second" (Some "{number[][]}") true None;
              paramTag "invocation" (Some "{CustomFunctions.Invocation}") false None;
              tag "volatile" None] |}];
     fn_jsDocReturnType := None; fn_pos := at0; fn_parametersEnd := at0 |}.

(** The documented function after a block that holds a nested custom
    function *)
Definition documentedFile : SourceFile :=
  {| statements :=
       [OtherNode [FunctionDeclarationNode (customFunction "nested" [] None) []];
        FunctionDeclarationNode documentedFunction []] |}.

Definition documentedResult : IParseTreeResult :=
  Eval vm_compute in
    match parseTree documentedFile "functions.ts" with
    | Return r => r
    | Throw _ => {| r_associate := []; r_extras := []; r_functions := []; r_enums := [] |}
    end.

(** The ten flags of an options block *)
Definition optionFlags (o : IFunctionOptions) : list (option bool) :=
  [cancelable o; requiresAddress o; requiresStreamAddress o; stream o; volatile o;
   requiresParameterAddresses o; requiresStreamParameterAddresses o;
   excludeFromAutoComplete o; linkedEntityLoadService o; capturesCallingObject o].

(** The tags that set a flag of the options *)
Definition optionTags : list string :=
  [CANCELABLE; REQUIRESADDRESS; STREAMING; VOLATILE; REQUIRESPARAMETERADDRESSES;
   EXCLUDEFROMAUTOCOMPLETE; LINKEDENTITYLOADSERVICE; CAPTURESCALLINGOBJECT].

(** The enum declarations without the custom-enum tag in a node and below
    it, in the order of the walk *)
Fixpoint basicEnumsIn (node : Node) : list EnumDeclaration :=
  match node with
  | EnumDeclarationNode e => if isCustomEnum (en_jsDoc e) then [] else [e]
  | FunctionDeclarationNode _ children | OtherNode children =>
      flat_map basicEnumsIn children
  end.

Definition withoutChildren (node : Node) : Node :=
  match node with
  | EnumDeclarationNode e => EnumDeclarationNode e
  | FunctionDeclarationNode f _ => FunctionDeclarationNode f []
  | OtherNode _ => OtherNode []
  end.

(** A statement of the file without what is nested in it, followed by the
    untagged enums that were nested in it *)
Definition hoisted (node : Node) : list Node :=
  withoutChildren node ::
  map EnumDeclarationNode (flat_map basicEnumsIn (childrenOf node)).

Definition pushBasicEnums (names : list string) (st : State) : State :=
  foldl (λ st name, push_basicEnums name st) st names.




(** The two diagnostics of [getResults] about a streaming function *)
Definition streamingDiagnostics : list string :=
  ["The 'CustomFunctions.StreamingHandler' needs to be passed in a single result type (e.g., 'CustomFunctions.StreamingHandler < number >') :";
   "A streaming function should return 'void'. Use CustomFunctions.StreamingHandler.setResult() to set results."].

(** The handler [handler: CustomFunctions.StreamingHandler<number>] *)
Definition numberHandler : ParameterDeclaration :=
  parameter "handler"
    (Some (TypeReferenceNode at0 "CustomFunctions.StreamingHandler" (Some [numberType]))).

(** A streaming function that declares the return type [number] *)
Definition streamingReturningNumber : FunctionDeclaration :=
  customFunction "tick" [numberHandler] (Some numberType).

(** The handler of a JavaScript function, documented as
    [{CustomFunctions.StreamingHandler<number[][]>}] *)
Definition documentedHandlerTypes : JS.Object IJsDocParamType :=
  JS.setObject "handler"
    (jsDocParamTypeOf (genericTypeExpression "CustomFunctions.StreamingHandler" "number" 2))
    JS.emptyObject.


(** The declaration with another declared return type *)
Definition withReturnType (func : FunctionDeclaration) (type : option TypeNode)
    : FunctionDeclaration :=
  {| fn_name := fn_name func; fn_parameters := fn_parameters func; fn_type := type;
     fn_jsDoc := fn_jsDoc func; fn_jsDocReturnType := fn_jsDocReturnType func;
     fn_pos := fn_pos func; fn_parametersEnd := fn_parametersEnd func |}.

(** The declaration with another type in the return tag of its doc comment *)
Definition withJSDocReturnType (func : FunctionDeclaration) (type : option TypeNode)
    : FunctionDeclaration :=
  {| fn_name := fn_name func; fn_parameters := fn_parameters func; fn_type := fn_type func;
     fn_jsDoc := fn_jsDoc func; fn_jsDocReturnType := type;
     fn_pos := fn_pos func; fn_parametersEnd := fn_parametersEnd func |}.


(** A function with a return tag [string[]] in its doc comment *)
Definition taggedReturn : FunctionDeclaration :=
  withJSDocReturnType (customFunction "join" [] None) (Some stringArray).


(** The type [t[]...[]] with one pair of brackets for every position *)
Fixpoint bracketArray (positions : list LineAndCharacter) (t : TypeNode) : TypeNode :=
  match positions with
  | [] => t
  | pos :: rest => ArrayTypeNode pos (bracketArray rest t)
  end.

(** The type [Array<...Array<t>...>] with one reference for every position *)
Fixpoint genericArray (positions : list LineAndCharacter) (t : TypeNode) : TypeNode :=
  match positions with
  | [] => t
  | pos :: rest => TypeReferenceNode pos "Array" (Some [genericArray rest t])
  end.

(** The tags of the doc comment that cannot be combined with
    [@linkedEntityLoadService], in the order in which [getOptions] looks for
    them *)
Definition linkedEntityConflicts (func : FunctionDeclaration) (isStreamingFunction : bool)
    : list string :=
  let jsDoc := fn_jsDoc func in
  let streaming := isStreaming jsDoc isStreamingFunction in
  (if isExcludedFromAutoComplete jsDoc then ["@excludeFromAutoComplete"] else []) ++
  (if isVolatile jsDoc then ["@volatile"] else []) ++
  (if streaming then ["@streaming"] else []) ++
  (if isAddressRequired jsDoc && negb streaming then ["@requiresAddress"] else []) ++
  (if isRequiresParameterAddresses jsDoc && negb streaming
   then ["@requiresParameterAddresses"] else []) ++
  (if hasCapturesCallingObject jsDoc then ["@capturesCallingObject"] else []).

(** A text of a doc comment as the metadata shows it: with line feeds for
    line endings, and absent when empty *)
Definition normalizedText (text : option string) : option string :=
  match text with
  | Some t => if JS.truthy t then Some (JS.replaceLineEndings t) else None
  | None => None
  end.

(** The entries of [extras] that a custom enum with members gets before
    its values are read: one for its name, with or without diagnostics, one
    when the name is a duplicate, and one when the text after the tag names
    no type. *)
Definition enumEntries (e : EnumDeclaration) (st : State) : list IFunctionExtras :=
  let comment := getTagComment (en_jsDoc e) CUSTOM_ENUM in
  [validateName (en_name e) (Some (en_pos e))
     {| errors := []; javascriptFunctionName := "" |} "enum"] ++
  (if checkForDuplicate (metadataEnumIds st) (en_name e)
   then [errorExtra (logError
           ("@" +:+ CUSTOM_ENUM +:+ " tag specifies a duplicate name: " +:+ en_name e)
           (Some (en_pos e)))]
   else []) ++
  (if JS.truthy comment && negb (bool_decide (is_Some (matchEnumType comment)))
   then [errorExtra (logError
           ("Unknown enum type defined after @" +:+ CUSTOM_ENUM +:+
            " tag. Please use " +:+ JS.quote +:+ "{string}" +:+ JS.quote +:+
            " or " +:+ JS.quote +:+ "{number}" +:+ JS.quote +:+ ": " +:+ en_name e)
           (Some (en_pos e)))]
   else []).


(** The row of the association table for a custom function *)
Definition associateRow (sourceFileName : string) (func : FunctionDeclaration) : IAssociate :=
  {| as_sourceFileName := sourceFileName; as_functionName := fnName func;
     as_id := fnId func |}.

(** * The rule load-object-before-read

    The rule walks the references of every variable of every scope.  The
    helpers of the plug-in that it calls on the nodes around a reference
    ([isGetFunction], [isGetOrNullObjectFunction], [findCallExpression],
    [isLoadCall], [parsePropertiesArgument], [findPropertiesRead]) are
    given by their answers on the node. *)

Module Load.

Inductive NodeType :=
| VariableDeclarator | AssignmentExpression | MemberExpression | CallExpression
| OtherType.

Global Instance NodeType_eq_dec : EqDecision NodeType.
Proof. solve_decision. Defined.

(** The expression that a declaration or an assignment gives to the
    variable, with the answers of [isGetFunction] and of
    [isGetOrNullObjectFunction] *)
Record Expression := {
  isGetFunction : bool;
  isGetOrNullObjectFunction : bool;
}.

(** An argument of a call: whether it is the identifier of the reference,
    and the answer of [parsePropertiesArgument] *)
Record Argument := {
  isIdentifier : bool;
  parsePropertiesArgument : list string;
}.

(** A call expression with the answer of [isLoadCall] *)
Record Call := {
  isLoadCall : bool;
  arguments : list Argument;
}.

(** The parent of the identifier of a reference; for a member expression
    with the answer of [findCallExpression] *)
Inductive Parent :=
| VariableDeclaratorNode (init : option Expression)
| AssignmentExpressionNode (right : Expression)
| MemberExpressionNode (methodCall : option Call)
| CallExpressionNode (call : Call)
| OtherNode.

Definition parentType (parent : Parent) : NodeType :=
  match parent with
  | VariableDeclaratorNode _ => VariableDeclarator
  | AssignmentExpressionNode _ => AssignmentExpression
  | MemberExpressionNode _ => MemberExpression
  | CallExpressionNode _ => CallExpression
  | OtherNode => OtherType
  end.

(** The identifier of a reference: its name, the end of its range, its
    parent, the types of the ancestors above the parent, and the answer of
    [findPropertiesRead] on the parent *)
Record Identifier := {
  name : string;
  rangeEnd : Z;
  parent : option Parent;
  above : list NodeType;
  findPropertiesRead : string;
}.

Record Report := {
  node : Identifier;
  loadValue : string;
}.

Definition isInsideWriteStatement (node : Identifier) : bool :=
  match parent node with
  | Some parent =>
      existsb (λ type, bool_decide (type = AssignmentExpression))
        (parentType parent :: above node)
  | None => false
  end.

Definition hasBeenLoaded (node : Identifier) (loadLocation : gmap string Z)
    (propertyName : string) : bool :=
  match loadLocation !! propertyName with
  | Some location => (location <? rangeEnd node)%Z
  | None => false
  end.

(** The two variables that the callback on the references shares *)
Record VariableState := {
  loadLocation : gmap string Z;
  getFound : bool;
}.

Definition initialVariableState : VariableState :=
  {| loadLocation := ∅; getFound := false |}.

(** [propertyNames.forEach(p => loadLocation.set(p, node.range[1]))] *)
Definition setLoadLocation (propertyNames : list string) (location : Z)
    (loadLocation : gmap string Z) : gmap string Z :=
  foldl (λ loadLocation propertyName, <[propertyName := location]> loadLocation)
        loadLocation propertyNames.

Definition isGet (expression : Expression) : bool :=
  isGetFunction expression && negb (isGetOrNullObjectFunction expression).

(** The property names of the load call that the reference is the subject
    of, if it is one *)
Definition loadedProperties (node : Identifier) : option (list string) :=
  match parent node with
  | Some (MemberExpressionNode (Some methodCall)) =>
      if isLoadCall methodCall then
        Some match arguments methodCall !! 0 with
             | Some argument => parsePropertiesArgument argument
             | None => ["*"]
             end
      else None
  | Some (CallExpressionNode call) =>
      let args := arguments call in
      if isLoadCall call &&
         match args !! 0 with Some argument => isIdentifier argument | None => false end &&
         (length args <? 3)
      then
        Some match args !! 1 with
             | Some argument => parsePropertiesArgument argument
             | None => ["*"]
             end
      else None
  | _ => None
  end.

(** The callback of [variable.references.forEach] *)
Definition visitReference (state : VariableState) (node : Identifier)
    : VariableState * list Report :=
  let '(getFound, found) :=
    match parent node with
    | Some (VariableDeclaratorNode init) =>
        (false, match init with Some init => isGet init | None => false end)
    | Some (AssignmentExpressionNode assigned) => (false, isGet assigned)
    | _ => (getFound state, false)
    end in
  if found then ({| loadLocation := loadLocation state; getFound := true |}, [])
  else if negb getFound then ({| loadLocation := loadLocation state; getFound := getFound |}, [])
  else
    match loadedProperties node with
    | Some propertyNames =>
        ({| loadLocation := setLoadLocation propertyNames (rangeEnd node) (loadLocation state);
            getFound := getFound |}, [])
    | None =>
        let state := {| loadLocation := loadLocation state; getFound := getFound |} in
        let propertyName := findPropertiesRead node in
        if negb (JS.truthy propertyName) ||
           hasBeenLoaded node (loadLocation state) propertyName ||
           hasBeenLoaded node (loadLocation state) "*" ||
           isInsideWriteStatement node
        then (state, [])
        else (state, [{| node := node; loadValue := propertyName |}])
    end.

(** A variable of a scope is given by its references. *)
Definition ScopeVariable := list Identifier.

Definition visitReferences (state : VariableState) (references : ScopeVariable)
    : VariableState * list Report :=
  foldl (λ '(state, reports) node,
           let '(state, new) := visitReference state node in (state, reports ++ new))
        (state, []) references.

Inductive Scope :=
| mkScope (variables : list ScopeVariable) (childScopes : list Scope).

Fixpoint findLoadBeforeRead (scope : Scope) : list Report :=
  match scope with
  | mkScope variables childScopes =>
      flat_map (λ variable, (visitReferences initialVariableState variable).2) variables ++
      flat_map findLoadBeforeRead childScopes
  end.

End Load.

(** The variables of a scope and of the scopes below it, in the order of
    the walk *)
Fixpoint allVariables (scope : Load.Scope) : list Load.ScopeVariable :=
  match scope with
  | Load.mkScope variables childScopes => variables ++ flat_map allVariables childScopes
  end.

(** The reference assigns the result of a get function to the variable. *)
Definition assignsGet (node : Load.Identifier) : bool :=
  match Load.parent node with
  | Some (Load.VariableDeclaratorNode (Some init)) => Load.isGet init
  | Some (Load.AssignmentExpressionNode assigned) => Load.isGet assigned
  | _ => false
  end.

(** The reference declares or assigns the variable. *)
Definition assigns (node : Load.Identifier) : bool :=
  match Load.parent node with
  | Some (Load.VariableDeclaratorNode _) | Some (Load.AssignmentExpressionNode _) => true
  | _ => false
  end.

(** The state of the rule after the references [references] of a variable *)
Definition variableState (references : Load.ScopeVariable) : Load.VariableState :=
  (Load.visitReferences Load.initialVariableState references).1.

Definition variableReports (references : Load.ScopeVariable) : list Load.Report :=
  (Load.visitReferences Load.initialVariableState references).2.

(** The ends of the ranges of the references increase, from [bound] on. *)
Fixpoint increasingFrom (bound : Z) (references : Load.ScopeVariable) : Prop :=
  match references with
  | [] => True
  | node :: rest => (bound < Load.rangeEnd node)%Z ∧ increasingFrom (Load.rangeEnd node) rest
  end.

Section ScopeInduction.
Variable P : Load.Scope → Prop.
Hypothesis Pscope :
  ∀ variables childScopes, Forall P childScopes → P (Load.mkScope variables childScopes).

Fixpoint Scope_nested_ind (scope : Load.Scope) : P scope :=
  match scope with
  | Load.mkScope variables childScopes =>
      Pscope variables childScopes
        ((fix each (l : list Load.Scope) : Forall P l :=
            match l with
            | [] => List.Forall_nil P
            | c :: r => List.Forall_cons P c r (Scope_nested_ind c) (each r)
            end) childScopes)
  end.
End ScopeInduction.

(** References of a variable [range]: its declaration from a get function,
    a load call and a read of a property *)
Definition getDeclaration : Load.Identifier :=
  {| Load.name := "range"; Load.rangeEnd := 10;
     Load.parent :=
       Some (Load.VariableDeclaratorNode
               (Some {| Load.isGetFunction := true;
                        Load.isGetOrNullObjectFunction := false |}));
     Load.above := [Load.OtherType]; Load.findPropertiesRead := "" |}.

(** [range.load(...)] at the position [position]; without argument the
    call loads everything *)
Definition loadCall (position : Z) (argument : option (list string)) : Load.Identifier :=
  {| Load.name := "range"; Load.rangeEnd := position;
     Load.parent :=
       Some (Load.MemberExpressionNode
               (Some {| Load.isLoadCall := true;
                        Load.arguments :=
                          match argument with
                          | Some propertyNames =>
                              [{| Load.isIdentifier := false;
                                  Load.parsePropertiesArgument := propertyNames |}]
                          | None => []
                          end |}));
     Load.above := [Load.CallExpression; Load.OtherType];
     Load.findPropertiesRead := "load" |}.

(** [range.property] read at the position [position] *)
Definition readOf (property : string) (position : Z) : Load.Identifier :=
  {| Load.name := "range"; Load.rangeEnd := position;
     Load.parent := Some (Load.MemberExpressionNode None);
     Load.above := [Load.CallExpression; Load.OtherType];
     Load.findPropertiesRead := property |}.

(** [range = sheet.getRange(...)] at the position [position] *)
Definition getAssignment (position : Z) : Load.Identifier :=
  {| Load.name := "range"; Load.rangeEnd := position;
     Load.parent :=
       Some (Load.AssignmentExpressionNode
               {| Load.isGetFunction := true; Load.isGetOrNullObjectFunction := false |});
     Load.above := [Load.OtherType]; Load.findPropertiesRead := "" |}.

(** [n] spaces *)
Definition spaces (n : nat) : string := repeatChar n " ".



(** * Evaluations of the helpers *)

(** The host-language helpers on inputs of the extractor *)

Example slice_braces : JS.slice "{string}" 1 (Z.of_nat (String.length "{string}") - 1) = "string".
Proof. reflexivity. Qed.

Example slice_negative : JS.slice "abcdef" (-3) (-1) = "de".
Proof. reflexivity. Qed.

Example split_id_name : JS.split "ADD add" " " = ["ADD"; "add"].
Proof. reflexivity. Qed.

Example split_empty : JS.split "" " " = [""].
Proof. reflexivity. Qed.

Example trim_spaces : JS.trim "  a b  " = "a b".
Proof. reflexivity. Qed.

Example matchEnumType_number : matchEnumType "values { number } of the enum" = Some "number".
Proof. reflexivity. Qed.

Example matchEnumType_other : matchEnumType "{boolean}" = None.
Proof. reflexivity. Qed.

Example jsDocParamTypeOf_handler :
  jsDocParamTypeOf "{CustomFunctions.StreamingHandler<number[][]>}" =
  {| jt_type := "CustomFunctions.StreamingHandler"; jt_returnType := Some "number";
     jt_dimensionality := Some "matrix" |}.
Proof. reflexivity. Qed.

Example areStringsEqual_case : areStringsEqual "Add" "aDD" = true.
Proof. reflexivity. Qed.

Example logError_position :
  logError "Duplicate function name: add" (Some {| line := 11; character := 0 |}) =
  "Duplicate function name: add (12,1)".
Proof. reflexivity. Qed.

(** * Properties of the walkers *)

Lemma bind_Return {A B} (m : Outcome A) (k : A → Outcome B) (b : B) :
  m ≫= k = Return b → ∃ a, m = Return a ∧ k a = Return b.
Proof. destruct m as [a|e]; simpl; [eauto | discriminate]. Qed.

Lemma walk_unfold visit top node st :
  walk visit top node st = visit top node st ≫= walkAll visit false (childrenOf node).
Proof.
  assert (Hloop : ∀ children st0,
    (fix forEachChild (children : list Node) (st : State) : Outcome State :=
       match children with
       | [] => Return st
       | child :: rest => st ← walk visit false child st; forEachChild rest st
       end) children st0 = walkAll visit false children st0).
  { induction children as [|c r IH]; intros st0; [reflexivity|].
    simpl. destruct (walk visit false c st0); simpl; [apply IH | reflexivity]. }
  destruct node; simpl; destruct (visit top _ st); simpl; try reflexivity; apply Hloop.
Qed.

Lemma walkAll_app visit top nodes1 nodes2 st :
  walkAll visit top (nodes1 ++ nodes2) st =
  walkAll visit top nodes1 st ≫= walkAll visit top nodes2.
Proof.
  revert st; induction nodes1 as [|n r IH]; intros st; [reflexivity|].
  simpl. destruct (walk visit top n st); simpl; [apply IH | reflexivity].
Qed.

Lemma walkAll_cons visit top node nodes st :
  walkAll visit top (node :: nodes) st =
  walk visit top node st ≫= walkAll visit top nodes.
Proof. reflexivity. Qed.

(** A relation between the state before and after a visit that is
    reflexive and transitive holds between the states before and after a
    walk. *)
Section WalkRelation.
Variable visit : bool → Node → State → Outcome State.
Variable R : State → State → Prop.
Hypothesis R_refl : ∀ st, R st st.
Hypothesis R_trans : ∀ st1 st2 st3, R st1 st2 → R st2 st3 → R st1 st3.
Hypothesis R_visit : ∀ top node st st', visit top node st = Return st' → R st st'.

Lemma walkAll_relation_of top nodes :
  Forall (λ node, ∀ top st st', walk visit top node st = Return st' → R st st') nodes →
  ∀ st st', walkAll visit top nodes st = Return st' → R st st'.
Proof.
  induction 1 as [|n r Hn _ IH]; intros st st' H; simpl in H.
  - simplify_eq. apply R_refl.
  - apply bind_Return in H as (st1 & H1 & H2). eapply R_trans; [eapply Hn|]; eauto.
Qed.

Lemma walk_relation top node st st' :
  walk visit top node st = Return st' → R st st'.
Proof.
  revert top st st'. induction node as [e|f children IH|children IH] using Node_nested_ind;
    intros top st st'; rewrite walk_unfold; intros H;
    apply bind_Return in H as (st1 & H1 & H2); simpl in H2.
  - simplify_eq. eapply R_visit; eassumption.
  - eapply R_trans; [eapply R_visit; eassumption|]. eapply walkAll_relation_of; eauto.
  - eapply R_trans; [eapply R_visit; eassumption|]. eapply walkAll_relation_of; eauto.
Qed.

Lemma walkAll_relation top nodes st st' :
  walkAll visit top nodes st = Return st' → R st st'.
Proof.
  apply walkAll_relation_of. apply Forall_forall. intros n _ top' st1 st2.
  apply walk_relation.
Qed.
End WalkRelation.

(** A visit that leaves the state alone below the top level makes the walk
    below the top level leave it alone. *)
Section WalkNested.
Variable visit : bool → Node → State → Outcome State.
Hypothesis visit_nested : ∀ node st, visit false node st = Return st.

Lemma walkAll_nested_of nodes :
  Forall (λ node, ∀ st, walk visit false node st = Return st) nodes →
  ∀ st, walkAll visit false nodes st = Return st.
Proof.
  induction 1 as [|n r Hn _ IH]; intros st; simpl; [reflexivity|].
  rewrite Hn. simpl. apply IH.
Qed.

Lemma walk_nested node st : walk visit false node st = Return st.
Proof.
  revert st. induction node as [e|f children IH|children IH] using Node_nested_ind;
    intros st; rewrite walk_unfold, visit_nested; simpl;
    [reflexivity | apply walkAll_nested_of; assumption..].
Qed.

Lemma walkAll_nested nodes st : walkAll visit false nodes st = Return st.
Proof.
  apply walkAll_nested_of. apply Forall_forall. intros n _ st'. apply walk_nested.
Qed.

Lemma walk_top node st : walk visit true node st = visit true node st.
Proof.
  rewrite walk_unfold. destruct (visit true node st) as [st'|e]; simpl;
    [apply walkAll_nested | reflexivity].
Qed.
End WalkNested.

Lemma buildCustomEnums_nested node st : buildCustomEnums false node st = Return st.
Proof. destruct node; reflexivity. Qed.

Lemma buildFunctions_nested name node st : buildFunctions name false node st = Return st.
Proof. destruct node; reflexivity. Qed.

Lemma walkAll_skip visit top node before after st :
  (∀ st, walk visit top node st = Return st) →
  walkAll visit top (before ++ node :: after) st = walkAll visit top (before ++ after) st.
Proof.
  intros Hnode. rewrite !walkAll_app.
  destruct (walkAll visit top before st) as [st1|e]; simpl; [|reflexivity].
  change (walk visit top node st1 ≫= walkAll visit top after = walkAll visit top after st1).
  rewrite Hnode. reflexivity.
Qed.

(** * Custom enums without members *)

Section EmptyEnum.
Variable e : EnumDeclaration.
Hypothesis e_custom : isCustomEnum (en_jsDoc e) = true.
Hypothesis e_empty : en_members e = [].

Lemma buildSingleCustomEnum_empty top st :
  buildSingleCustomEnum top (EnumDeclarationNode e) st = Return st.
Proof.
  unfold buildSingleCustomEnum. rewrite e_custom, e_empty.
  destruct top; reflexivity.
Qed.

Lemma walk_buildEnums_empty top st :
  walk buildEnums top (EnumDeclarationNode e) st = Return st.
Proof. rewrite walk_unfold. simpl. rewrite e_custom. reflexivity. Qed.

Lemma walk_buildCustomEnums_empty top st :
  walk buildCustomEnums top (EnumDeclarationNode e) st = Return st.
Proof.
  rewrite walk_unfold. unfold buildCustomEnums.
  rewrite buildSingleCustomEnum_empty. reflexivity.
Qed.

Lemma walk_buildFunctions_enum name top e' st :
  walk (buildFunctions name) top (EnumDeclarationNode e') st = Return st.
Proof. rewrite walk_unfold. reflexivity. Qed.
End EmptyEnum.

(** C10. A custom-tagged enum declaration with no members is skipped: its
    visit leaves the whole state as it was (no enum is added, no entry of
    [extras] and so no diagnostic, no name in [metadataEnumIds]), and the
    result of [parseTree] on a file is the result on the file without the
    declaration. *)
Theorem C10_custom_enum_without_members_is_skipped (e : EnumDeclaration) :
  isCustomEnum (en_jsDoc e) = true →
  en_members e = [] →
  (∀ top st, buildSingleCustomEnum top (EnumDeclarationNode e) st = Return st) ∧
  (∀ before after sourceFileName,
     parseTree {| statements := before ++ EnumDeclarationNode e :: after |} sourceFileName =
     parseTree {| statements := before ++ after |} sourceFileName).
Proof.
  intros Hcustom Hempty. split.
  - intros top st. by apply buildSingleCustomEnum_empty.
  - intros before after name. unfold parseTree, walkSourceFile. simpl.
    rewrite (walkAll_skip buildEnums); [|intros; by apply walk_buildEnums_empty].
    destruct (walkAll buildEnums true (before ++ after) initialState) as [st1|]; simpl;
      [|reflexivity].
    rewrite (walkAll_skip buildCustomEnums); [|intros; by apply walk_buildCustomEnums_empty].
    destruct (walkAll buildCustomEnums true (before ++ after) st1) as [st2|]; simpl;
      [|reflexivity].
    rewrite (walkAll_skip (buildFunctions name));
      [reflexivity | intros; apply walk_buildFunctions_enum].
Qed.

Lemma C10_witness :
  isCustomEnum (en_jsDoc emptyCustomEnum) = true ∧
  en_members emptyCustomEnum = [] ∧
  buildSingleCustomEnum true (EnumDeclarationNode emptyCustomEnum) initialState =
    Return initialState ∧
  parseTree {| statements := [EnumDeclarationNode emptyCustomEnum] |} "functions.ts" =
    parseTree {| statements := [] |} "functions.ts".
Proof.
  split; [reflexivity|]. split; [reflexivity|].
  destruct (C10_custom_enum_without_members_is_skipped emptyCustomEnum eq_refl eq_refl)
    as [Hvisit Hfile].
  split; [apply Hvisit | apply (Hfile [] [])].
Defined.

(** * Array nesting depth, dimensionality and repeating parameters *)

Lemma arrayTypeNodeLoop_dimensionality t dim :
  at_dimensionality (arrayTypeNodeLoop t dim) = dim + bracketDepth t.
Proof.
  revert dim. induction t as [pos e IH|pos n args|pos k text]; intros dim; simpl.
  - rewrite IH. lia.
  - lia.
  - lia.
Qed.

Lemma referenceNodeLoop_dimensionality t :
  ∀ count,
    at_dimensionality (getArrayDimensionalityAndTypeForReferenceNode_loop t count) =
    count + genericDepth t.
Proof.
  assert (Hgen : ∀ n t count,
    genericDepth t = n →
    at_dimensionality (getArrayDimensionalityAndTypeForReferenceNode_loop t count) =
    count + n).
  { induction n as [|n IH]; intros t' count Hn;
      destruct t' as [pos e|pos name [[|argument [|argument' arguments]]|]|pos k text];
      simpl in *; try lia; case_bool_decide; simpl in *; try lia.
    injection Hn as Hn. rewrite (IH argument (S count) Hn). lia. }
  intros count. by apply Hgen.
Qed.

Lemma getArrayDimensionalityAndType_depth t :
  at_dimensionality (getArrayDimensionalityAndType t) = arrayNestingDepth t.
Proof.
  destruct t as [pos e|pos n args|pos k text].
  - unfold getArrayDimensionalityAndType. simpl.
    rewrite arrayTypeNodeLoop_dimensionality. lia.
  - unfold getArrayDimensionalityAndType, getArrayDimensionalityAndTypeForReferenceNode.
    cbn [isArrayTypeNode isTypeReferenceNode kind bool_decide decide_rel].
    change (isArrayTypeNode (TypeReferenceNode pos n args)) with false.
    change (isTypeReferenceNode (TypeReferenceNode pos n args)) with true.
    cbv iota. by rewrite referenceNodeLoop_dimensionality.
  - reflexivity.
Qed.

Lemma getParamDim_depth t :
  getParamDim (Some t) = if 1 <? arrayNestingDepth t then "matrix" else "scalar".
Proof.
  unfold getParamDim. rewrite (getArrayDimensionalityAndType_depth t).
  destruct t; reflexivity.
Qed.

Lemma isRepeatingParameter_depth t :
  isRepeatingParameter (Some t) =
  bool_decide (arrayNestingDepth t = 1 ∨ arrayNestingDepth t = 3).
Proof.
  unfold isRepeatingParameter. rewrite (getArrayDimensionalityAndType_depth t).
  assert (Hor : ∀ d, bool_decide (d = 1) || bool_decide (d = 3) =
                     bool_decide (d = 1 ∨ d = 3)) by (by intros [|[|[|[|]]]]).
  destruct t as [pos e|pos n args|pos k text].
  - apply Hor.
  - apply Hor.
  - reflexivity.
Qed.

(** The metadata of the parameters come in the order of the parameters. *)
Lemma getParameters_lookup parameterItem i p :
  ga_parametersToParse parameterItem !! i = Some p →
  ∃ extra, (getParameters parameterItem).1 !! i = Some (getParameter parameterItem extra p).1.
Proof.
  unfold getParameters.
  generalize (ga_extra parameterItem) as extra.
  assert (Hgen : ∀ ps acc extra i p,
    ps !! i = Some p →
    ∃ extra',
      (foldl (λ '(parameterMetadata, extra) p,
                let '(pMetadataItem, extra) := getParameter parameterItem extra p in
                (parameterMetadata ++ [pMetadataItem], extra)) (acc, extra) ps).1
        !! (length acc + i) = Some (getParameter parameterItem extra' p).1
      ∧ ∀ j x, acc !! j = Some x →
        (foldl (λ '(parameterMetadata, extra) p,
                let '(pMetadataItem, extra) := getParameter parameterItem extra p in
                (parameterMetadata ++ [pMetadataItem], extra)) (acc, extra) ps).1
          !! j = Some x).
  { induction ps as [|q ps IH]; intros acc extra j r Hj; [discriminate|].
    simpl. destruct (getParameter parameterItem extra q) as [item extra1] eqn:Hq.
    destruct j as [|j]; simpl in Hj.
    - injection Hj as ->. clear IH.
      assert (Hkeep : ∀ ps acc extra j x, acc !! j = Some x →
        (foldl (λ '(parameterMetadata, extra) p,
                let '(pMetadataItem, extra) := getParameter parameterItem extra p in
                (parameterMetadata ++ [pMetadataItem], extra)) (acc, extra) ps).1
          !! j = Some x).
      { clear. induction ps as [|q ps IH]; intros acc extra j x Hx; [exact Hx|].
        simpl. destruct (getParameter parameterItem extra q) as [item extra1].
        apply IH. rewrite lookup_app_l; [exact Hx|]. by eapply lookup_lt_Some. }
      exists extra. split.
      + apply Hkeep. rewrite Hq. simpl. rewrite Nat.add_0_r.
        rewrite lookup_app_r; [|lia]. by rewrite Nat.sub_diag.
      + intros j x Hx. apply Hkeep. rewrite lookup_app_l; [exact Hx|].
        by eapply lookup_lt_Some.
    - destruct (IH (acc ++ [item]) extra1 j r Hj) as (extra' & Hat & Hkeep).
      exists extra'. split.
      + rewrite length_app in Hat. simpl in Hat.
        replace (length acc + S j) with (length acc + 1 + j) by lia. exact Hat.
      + intros k x Hx. apply Hkeep. rewrite lookup_app_l; [exact Hx|].
        by eapply lookup_lt_Some. }
  intros extra Hi. destruct (Hgen _ [] extra i p Hi) as (extra' & Hat & _).
  exists extra'. exact Hat.
Qed.

Lemma getParameter_shape parameterItem extra p :
  let typeNode := match p_type p with Some _ => p_type p | None => p_jsDocType p end in
  let item := (getParameter parameterItem extra p).1 in
  fp_name item = p_name p ∧
  fp_dimensionality item =
    (if bool_decide (getParamDim typeNode = "scalar") then None
     else Some (getParamDim typeNode)) ∧
  fp_repeating item = (if isRepeatingParameter typeNode then Some true else None).
Proof.
  unfold getParameter. simpl.
  destruct (getParamType _ _ _ _) as [ptype extra1]. simpl. auto.
Qed.

Lemma arrayNestingDepth_oneNotation t :
  oneNotation t → arrayNestingDepth t = nestingDepth t.
Proof.
  destruct t as [pos elementType|pos typeName typeArguments|pos k text];
    intros [H|H]; simpl in *; try done.
  - destruct typeArguments as [[|typeArgument [|? ?]]|]; try done.
    by destruct (bool_decide (typeName = "Array")).
Qed.

(** C6 (amended). A parameter with a structural type gets dimensionality
    matrix exactly when [1 < d] (the field is left out for scalar) and
    [repeating = true] exactly when [d] is 1 or 3 (the field is left out
    otherwise), where [d] is the number of array layers in the notation in
    which the type is written at its outermost level: [number[]] has
    [d = 1], [number[][]] has [d = 2], [number[][][]] has [d = 3].  For a
    type whose layers are all written in one notation, [d] is the array
    nesting depth of the type. *)
Theorem C6_array_depth_dimensionality_repeating
    (parameterItem : IGetParametersArguments) (i : nat) (p : ParameterDeclaration)
    (t : TypeNode) :
  ga_parametersToParse parameterItem !! i = Some p →
  p_type p = Some t →
  ∃ item,
    (getParameters parameterItem).1 !! i = Some item ∧
    fp_name item = p_name p ∧
    getParamDim (Some t) = (if 1 <? arrayNestingDepth t then "matrix" else "scalar") ∧
    fp_dimensionality item = (if 1 <? arrayNestingDepth t then Some "matrix" else None) ∧
    fp_repeating item =
      (if bool_decide (arrayNestingDepth t = 1 ∨ arrayNestingDepth t = 3)
       then Some true else None) ∧
    (fp_dimensionality item = Some "matrix" ↔ 1 < arrayNestingDepth t) ∧
    (fp_repeating item = Some true ↔ arrayNestingDepth t = 1 ∨ arrayNestingDepth t = 3) ∧
    (oneNotation t → arrayNestingDepth t = nestingDepth t).
Proof.
  intros Hi Ht.
  destruct (getParameters_lookup parameterItem i p Hi) as (extra & Hitem).
  exists (getParameter parameterItem extra p).1.
  destruct (getParameter_shape parameterItem extra p) as (Hname & Hdim & Hrep).
  rewrite Ht in Hdim, Hrep.
  rewrite (getParamDim_depth t) in Hdim.
  rewrite (isRepeatingParameter_depth t) in Hrep.
  assert (Hdim' : fp_dimensionality (getParameter parameterItem extra p).1 =
                  if 1 <? arrayNestingDepth t then Some "matrix" else None).
  { rewrite Hdim. destruct (1 <? arrayNestingDepth t); reflexivity. }
  split; [exact Hitem|]. split; [exact Hname|].
  split; [by apply getParamDim_depth|]. split; [exact Hdim'|]. split; [exact Hrep|].
  split; [|split].
  - rewrite Hdim'. destruct (Nat.ltb_spec 1 (arrayNestingDepth t)); split;
      intros; try done; lia.
  - rewrite Hrep. case_bool_decide; split; intros; try done.
  - apply arrayNestingDepth_oneNotation.
Qed.

(** The claim as it is worded fails on a type that mixes the notations:
    [Array<number[]>] has array nesting depth 2, and the parameter gets no
    dimensionality (it is scalar) and [repeating = true]. *)
Lemma C6_counterexample :
  ∃ p t item,
    ga_parametersToParse genericArrayParameters !! 1 = Some p ∧
    p_type p = Some t ∧
    nestingDepth t = 2 ∧
    (getParameters genericArrayParameters).1 !! 1 = Some item ∧
    fp_dimensionality item = None ∧
    fp_repeating item = Some true ∧
    ¬ (fp_dimensionality item = Some "matrix" ↔ 1 < nestingDepth t) ∧
    ¬ (fp_repeating item = Some true ↔ nestingDepth t = 1 ∨ nestingDepth t = 3).
Proof.
  eexists _, _, _. split; [reflexivity|]. split; [reflexivity|].
  split; [reflexivity|]. split; [vm_compute; reflexivity|].
  split; [reflexivity|]. split; [reflexivity|]. split.
  - intros [_ H]. discriminate H. simpl. lia.
  - intros [H _]. destruct (H eq_refl) as [?|?]; discriminate.
Qed.

Example getParameters_number_arrays :
  map (λ item, (fp_name item, fp_dimensionality item, fp_repeating item))
      (getParameters threeArrayParameters).1 =
  [("one", None, Some true); ("two", Some "matrix", None);
   ("three", Some "matrix", Some true)].
Proof. vm_compute. reflexivity. Qed.

Lemma C6_witness :
  ∃ item,
    (getParameters threeArrayParameters).1 !! 2 = Some item ∧
    fp_name item = "three" ∧
    getParamDim (Some (ArrayTypeNode at0 (ArrayTypeNode at0 (ArrayTypeNode at0 numberType))))
      = "matrix" ∧
    fp_dimensionality item = Some "matrix" ∧
    fp_repeating item = Some true.
Proof.
  destruct (C6_array_depth_dimensionality_repeating threeArrayParameters 2
              (parameter "three"
                 (Some (ArrayTypeNode at0 (ArrayTypeNode at0 (ArrayTypeNode at0 numberType)))))
              (ArrayTypeNode at0 (ArrayTypeNode at0 (ArrayTypeNode at0 numberType)))
              eq_refl eq_refl)
    as (item & H1 & H2 & H3 & H4 & H5 & _).
  exists item. repeat split; assumption.
Defined.

Lemma buildFunctions_custom sourceFileName func st children :
  isCustomFunction (fn_jsDoc func) = true →
  buildFunctions sourceFileName true (FunctionDeclarationNode func children) st =
  (description ← getDescription (fn_jsDoc func);
   r ← getResults func (fnStreaming func) (fnLast func) (fnTypeInfo func)
         (getParameters (fnParameterItems func st)).2 (basicEnums st) (customEnums st);
   Return (fnFinish sourceFileName func st description r.1 r.2)).
Proof.
  intros Hcustom. unfold buildFunctions. rewrite Hcustom.
  fold (fnName func). fold (fnErrors func st). fold (fnTypeInfo func). fold (fnLast func).
  fold (fnStreaming func). fold (fnCancelable func). fold (fnInvocation func).
  fold (fnParametersToParse func).
  change (basicEnums (push_functionNames (fnName func) st)) with (basicEnums st).
  change (customEnums (push_functionNames (fnName func) st)) with (customEnums st).
  fold (fnParameterItems func st).
  destruct (getParameters (fnParameterItems func st)) as [parameters extra] eqn:Hparameters.
  destruct (getDescription (fn_jsDoc func)) as [description|]; simpl; [|reflexivity].
  destruct (getResults _ _ _ _ _ _ _) as [[result extra1]|]; simpl; [|reflexivity].
  unfold fnFinish, fnMetadata, fnFinalExtra. rewrite Hparameters. simpl.
  destruct (getOptions func (fnStreaming func) (fnCancelable func) (fnInvocation func) extra1)
    as [options extra2]. simpl.
  reflexivity.
Qed.

Lemma buildFunctions_plain sourceFileName func st children :
  isCustomFunction (fn_jsDoc func) = false →
  buildFunctions sourceFileName true (FunctionDeclarationNode func children) st =
  Return (push_functionNames (fnName func) st).
Proof. intros Hplain. unfold buildFunctions. rewrite Hplain. reflexivity. Qed.

Lemma sameFunctionState_refl st : sameFunctionState st st.
Proof. repeat split. Qed.

Lemma sameFunctionState_trans st1 st2 st3 :
  sameFunctionState st1 st2 → sameFunctionState st2 st3 → sameFunctionState st1 st3.
Proof.
  intros (a1 & b1 & c1 & d1 & e1) (a2 & b2 & c2 & d2 & e2).
  repeat split; congruence.
Qed.

Lemma buildEnums_sameFunctionState top node st st' :
  buildEnums top node st = Return st' → sameFunctionState st st'.
Proof.
  destruct node as [e| |]; simpl; [destruct (isCustomEnum _); simpl|..];
    intros [= <-]; repeat split.
Qed.

Lemma buildSingleCustomEnum_sameFunctionState top node st st' :
  buildSingleCustomEnum top node st = Return st' → sameFunctionState st st'.
Proof.
  unfold buildSingleCustomEnum. intros H.
  repeat (case_match; simplify_eq/=; try (repeat split; fail)).
  all: apply bind_Return in H as (values & _ & H);
    repeat (case_match; simplify_eq/=); repeat split.
Qed.

Lemma buildCustomEnums_sameFunctionState top node st st' :
  buildCustomEnums top node st = Return st' → sameFunctionState st st'.
Proof.
  destruct node; unfold buildCustomEnums;
    [apply buildSingleCustomEnum_sameFunctionState|..];
    intros [= <-]; apply sameFunctionState_refl.
Qed.

(** * Address options *)

Lemma keepIfTrue_true b : keepIfTrue b = Some true ↔ b = Some true.
Proof. destruct b as [[|]|]; unfold keepIfTrue; simpl; split; congruence. Qed.

Lemma getOptions_exclusive func s c i extra :
  exclusiveAddressFlags (getOptions func s c i extra).1.
Proof.
  unfold exclusiveAddressFlags, getOptions. simpl.
  destruct (isAddressRequired _), (isRequiresParameterAddresses _),
    (isStreaming _ s); simpl; split; intros [? ?]; congruence.
Qed.

Lemma pruneOptions_exclusive o o' :
  exclusiveAddressFlags o → pruneOptions o = Some o' → exclusiveAddressFlags o'.
Proof.
  unfold pruneOptions, exclusiveAddressFlags. intros [H1 H2] H.
  case_match; [discriminate|]. injection H as <-. simpl.
  rewrite !keepIfTrue_true. auto.
Qed.

Lemma buildFunctions_exclusive name top node st st' :
  buildFunctions name top node st = Return st' →
  Forall functionOptionsExclusive (functions st) →
  Forall functionOptionsExclusive (functions st').
Proof.
  destruct node as [e|f children|children]; [by intros [= <-]| |by intros [= <-]].
  destruct top; [|by intros [= <-]].
  destruct (isCustomFunction (fn_jsDoc f)) eqn:Hcustom.
  - rewrite (buildFunctions_custom _ _ _ _ Hcustom). intros H Hall.
    apply bind_Return in H as (description & _ & H).
    apply bind_Return in H as (r & _ & H). injection H as <-.
    unfold fnFinish, push_function. cbn [functions].
    apply Forall_app. split; [exact Hall|]. apply Forall_singleton.
    intros o Ho. unfold fnMetadata in Ho. cbn [f_options] in Ho.
    eapply pruneOptions_exclusive; [|exact Ho]. apply getOptions_exclusive.
  - rewrite (buildFunctions_plain _ _ _ _ Hcustom). by intros [= <-].
Qed.

Lemma parseTree_functions_invariant (P : IFunction → Prop) sourceFile name r :
  (∀ top node st st', buildFunctions name top node st = Return st' →
     Forall P (functions st) → Forall P (functions st')) →
  parseTree sourceFile name = Return r → Forall P (r_functions r).
Proof.
  intros Hstep H. unfold parseTree, walkSourceFile in H.
  apply bind_Return in H as (st1 & H1 & H).
  apply bind_Return in H as (st2 & H2 & H).
  apply bind_Return in H as (st3 & H3 & H). injection H as <-. simpl.
  apply (walkAll_relation buildEnums sameFunctionState sameFunctionState_refl
           sameFunctionState_trans buildEnums_sameFunctionState) in H1.
  apply (walkAll_relation buildCustomEnums sameFunctionState sameFunctionState_refl
           sameFunctionState_trans buildCustomEnums_sameFunctionState) in H2.
  assert (Hfunctions : functions st2 = []).
  { destruct H2 as (_ & -> & _). by destruct H1 as (_ & -> & _). }
  revert H3. generalize (statements sourceFile). intros nodes H3.
  pose proof (walkAll_relation (buildFunctions name)
                (λ st st', Forall P (functions st) → Forall P (functions st'))
                (λ _ H, H) (λ _ _ _ H12 H23 H, H23 (H12 H)) Hstep
                true nodes st2 st3 H3) as Hall.
  apply Hall. rewrite Hfunctions. constructor.
Qed.

(** C8. No emitted options block has both [requiresAddress] and
    [requiresStreamAddress], or both [requiresParameterAddresses] and
    [requiresStreamParameterAddresses]; and when the function is streaming
    (by its last parameter or by the streaming tag) the block exists, and an
    address tag sets the stream variant of its flag and leaves the plain
    one out. *)
Theorem C8_address_flags_exclusive :
  (∀ sourceFile sourceFileName r f o,
     parseTree sourceFile sourceFileName = Return r →
     f ∈ r_functions r → f_options f = Some o →
     exclusiveAddressFlags o) ∧
  (∀ func isStreamingFunction isCancelableFunction isInvocationFunction extra,
     isStreaming (fn_jsDoc func) isStreamingFunction = true →
     ∃ o,
       pruneOptions (getOptions func isStreamingFunction isCancelableFunction
                       isInvocationFunction extra).1 = Some o ∧
       stream o = Some true ∧
       requiresAddress o = None ∧
       requiresParameterAddresses o = None ∧
       (isAddressRequired (fn_jsDoc func) = true → requiresStreamAddress o = Some true) ∧
       (isRequiresParameterAddresses (fn_jsDoc func) = true →
        requiresStreamParameterAddresses o = Some true)).
Proof.
  split.
  - intros sourceFile name r f o Hparse Hin Ho.
    pose proof (parseTree_functions_invariant functionOptionsExclusive sourceFile name r
                  (buildFunctions_exclusive name) Hparse) as Hall.
    rewrite Forall_forall in Hall. exact (Hall f Hin o Ho).
  - intros func s c i extra Hstream.
    unfold pruneOptions, getOptions. simpl. rewrite Hstream. simpl.
    rewrite !andb_false_r. simpl. eexists. split; [reflexivity|]. simpl.
    rewrite !andb_true_r.
    repeat split; try (intros ->; reflexivity).
Qed.

Example parseTree_streamingWithAddress :
  (λ r, map f_options (r_functions r)) <$>
    (match parseTree {| statements := [FunctionDeclarationNode streamingWithAddress []] |}
             "functions.ts" with
     | Return r => Some r
     | Throw _ => None
     end) =
  Some [Some {| cancelable := None; requiresAddress := None;
                requiresStreamAddress := Some true; stream := Some true;
                volatile := None; requiresParameterAddresses := None;
                requiresStreamParameterAddresses := None;
                excludeFromAutoComplete := None; linkedEntityLoadService := None;
                capturesCallingObject := None |}].
Proof. vm_compute. reflexivity. Qed.

Lemma C8_witness :
  (∀ f o, r_functions streamingWithAddressResult = [f] → f_options f = Some o →
          exclusiveAddressFlags o) ∧
  ∃ o,
    pruneOptions (getOptions streamingWithAddress true false false
                    {| errors := []; javascriptFunctionName := "watch" |}).1 = Some o ∧
    stream o = Some true ∧ requiresAddress o = None ∧
    requiresStreamAddress o = Some true.
Proof.
  destruct C8_address_flags_exclusive as [Hexclusive Hstreaming]. split.
  - intros f o Hf Ho.
    apply (Hexclusive streamingWithAddressFile "functions.ts" streamingWithAddressResult f o).
    + vm_compute. reflexivity.
    + rewrite Hf. by apply list_elem_of_singleton.
    + exact Ho.
  - destruct (Hstreaming streamingWithAddress true false false
                {| errors := []; javascriptFunctionName := "watch" |} eq_refl)
      as (o & Ho & Hs & Ha & _ & Hsa & _).
    exists o. repeat split; try assumption. apply Hsa. reflexivity.
Defined.

(** * Enum values *)

(** What [buildSingleCustomEnum] does to [customEnums]: nothing, or one
    push of the item built from the values of the loop. *)
Lemma buildSingleCustomEnum_customEnums top e st st' :
  buildSingleCustomEnum top (EnumDeclarationNode e) st = Return st' →
  customEnums st' = customEnums st ∨
  ∃ isNumberEnum values,
    enumValues isNumberEnum (en_members e) 0 [] = Return (Some values) ∧
    customEnums st' =
      customEnums st ++
        [{| enum_id := en_name e;
            enum_type := if isNumberEnum then "number" else "string";
            enum_values := values |}].
Proof.
  unfold buildSingleCustomEnum. intros H.
  repeat (case_match; simplify_eq/=; try (left; reflexivity)).
  all: apply bind_Return in H as (values & Hvalues & H);
    destruct values as [values|]; simplify_eq/=;
    repeat (case_match; simplify_eq/=); try (left; reflexivity);
    right; eexists _, values; split; [exact Hvalues | reflexivity].
Qed.

Lemma enumValues_defaults isNumberEnum members :
  ∀ start acc values,
    enumValues isNumberEnum members start acc = Return (Some values) →
    ∃ added,
      values = acc ++ added ∧ length added = length members ∧
      ∀ i member, members !! i = Some member →
        ∃ v, added !! i = Some v ∧ ev_name v = m_name member ∧
             ev_tooltip v = m_tooltip member ∧
             (m_initializer member = None →
              ev_value v = JsNumber (start + Z.of_nat (unvaluedBefore i members))).
Proof.
  induction members as [|m members IH]; intros start acc values H; simpl in H.
  - injection H as <-. exists []. rewrite app_nil_r. repeat split. intros i ? [=].
  - apply bind_Return in H as ([value next] & Hvalue & H).
    destruct (_ || _) eqn:Hconsistent; [discriminate|].
    apply IH in H as (added & -> & Hlen & Hadded).
    exists ({| ev_name := m_name m; ev_value := value; ev_tooltip := m_tooltip m |} :: added).
    split; [by rewrite <- app_assoc|]. split; [simpl; by rewrite Hlen|].
    intros [|i] member Hi; simpl in Hi.
    + injection Hi as <-. eexists. split; [reflexivity|]. repeat split.
      intros Hnone. rewrite Hnone in Hvalue. injection Hvalue as <- <-.
      simpl. unfold unvaluedBefore. simpl. f_equal. lia.
    + destruct (Hadded i member Hi) as (v & Hv & Hname & Htip & Hval).
      exists v. split; [exact Hv|]. split; [exact Hname|]. split; [exact Htip|].
      intros Hnone. rewrite (Hval Hnone). f_equal.
      unfold unvaluedBefore. simpl. rewrite filter_cons.
      destruct (m_initializer m) as [init|] eqn:Hm.
      * destruct (init_JSON init); [|discriminate].
        injection Hvalue as <- <-. rewrite decide_False; [reflexivity | congruence].
      * injection Hvalue as <- <-. rewrite decide_True; [|reflexivity].
        simpl. lia.
Qed.

(** With no initializer anywhere the loop ends normally, and the value of
    the member at index [i] is [start + i]. *)
Lemma enumValues_unvalued members :
  Forall (λ m, m_initializer m = None) members →
  ∀ start acc,
    enumValues true members start acc =
    Return (Some (acc ++ imap (λ i m, {| ev_name := m_name m;
                                         ev_value := JsNumber (start + Z.of_nat i);
                                         ev_tooltip := m_tooltip m |}) members)).
Proof.
  induction 1 as [|m members Hm _ IH]; intros start acc; simpl.
  - by rewrite app_nil_r.
  - rewrite Hm. simpl. rewrite IH. rewrite <- app_assoc. simpl.
    rewrite Z.add_0_r. do 4 f_equal. apply imap_ext. intros i x _. simpl.
    do 2 f_equal. lia.
Qed.

(** C7. In the enum item that a custom enum declaration yields, a member
    without initializer has the number of members without initializer before
    it as its value, whatever the values of the members with initializer;
    and when no member has an initializer the item is built, has type
    number, and the member at index [i] has value [i]. *)
Theorem C7_default_enum_values :
  (∀ top e st st' enumItem i member,
     buildSingleCustomEnum top (EnumDeclarationNode e) st = Return st' →
     customEnums st' = customEnums st ++ [enumItem] →
     en_members e !! i = Some member →
     m_initializer member = None →
     length (enum_values enumItem) = length (en_members e) ∧
     ∃ v, enum_values enumItem !! i = Some v ∧
          ev_name v = m_name member ∧
          ev_value v = JsNumber (Z.of_nat (unvaluedBefore i (en_members e)))) ∧
  (∀ e st,
     isCustomEnum (en_jsDoc e) = true →
     en_members e ≠ [] →
     Forall (λ m, m_initializer m = None) (en_members e) →
     ∃ st',
       buildSingleCustomEnum true (EnumDeclarationNode e) st = Return st' ∧
       customEnums st' =
         customEnums st ++
           [{| enum_id := en_name e;
               enum_type := "number";
               enum_values :=
                 imap (λ i m, {| ev_name := m_name m;
                                 ev_value := JsNumber (Z.of_nat i);
                                 ev_tooltip := m_tooltip m |}) (en_members e) |}]).
Proof.
  split.
  - intros top e st st' enumItem i member Hbuild Hpushed Hi Hnone.
    apply buildSingleCustomEnum_customEnums in Hbuild as [Hsame|(b & values & Hvalues & Hpush)].
    { rewrite Hsame in Hpushed. apply (f_equal length) in Hpushed.
      rewrite length_app in Hpushed. simpl in Hpushed. lia. }
    rewrite Hpush in Hpushed. apply app_inv_head in Hpushed. injection Hpushed as <-.
    simpl. apply enumValues_defaults in Hvalues as (added & -> & Hlen & Hadded).
    simpl. split; [exact Hlen|].
    destruct (Hadded i member Hi) as (v & Hv & Hname & _ & Hval).
    exists v. split; [exact Hv|]. split; [exact Hname|]. by rewrite (Hval Hnone).
  - intros e st Hcustom Hnonempty Hall.
    assert (Hhead : head (en_members e) ≫= m_initializer = None).
    { destruct Hall as [|first rest Hfirst _]; [done | exact Hfirst]. }
    assert (Hlength : bool_decide (length (en_members e) = 0) = false).
    { apply bool_decide_eq_false. by destruct (en_members e). }
    unfold buildSingleCustomEnum. rewrite Hcustom, Hlength. simpl.
    rewrite Hhead.
    destruct (JS.truthy _); simpl;
      rewrite (enumValues_unvalued (en_members e) Hall); simpl;
      eexists; (split; [reflexivity|]); simpl;
      repeat case_match; reflexivity.
Qed.

Example parseTree_mixedEnum :
  (match parseTree {| statements := [EnumDeclarationNode mixedEnum] |} "functions.ts" with
   | Return r => map (λ item, (enum_id item, enum_type item,
                               map (λ v, (ev_name v, ev_value v)) (enum_values item)))
                   (r_enums r)
   | Throw _ => []
   end) =
  [("Mixed", "number",
    [("A", JsNumber 5); ("B", JsNumber 0); ("C", JsNumber 5); ("D", JsNumber 1)])].
Proof. vm_compute. reflexivity. Qed.

Lemma C7_witness :
  (length (enum_values mixedItem) = length (en_members mixedEnum) ∧
   ∃ v, enum_values mixedItem !! 3 = Some v ∧ ev_name v = "D" ∧
        ev_value v = JsNumber (Z.of_nat (unvaluedBefore 3 (en_members mixedEnum)))) ∧
  ∃ st',
    buildSingleCustomEnum true (EnumDeclarationNode plainEnum) initialState = Return st' ∧
    customEnums st' =
      [{| enum_id := "Plain"; enum_type := "number";
          enum_values :=
            [{| ev_name := "A"; ev_value := JsNumber 0; ev_tooltip := "" |};
             {| ev_name := "B"; ev_value := JsNumber 1; ev_tooltip := "" |};
             {| ev_name := "C"; ev_value := JsNumber 2; ev_tooltip := "" |}] |}].
Proof.
  destruct C7_default_enum_values as [Hdefaults Hplain]. split.
  - apply (Hdefaults true mixedEnum initialState mixedState mixedItem 3 (member "D" None));
      reflexivity.
  - apply (Hplain plainEnum initialState).
    + reflexivity.
    + discriminate.
    + repeat constructor.
Defined.

(** * Streaming functions *)

Lemma hasTag_jsDoc jsDoc name : hasTag jsDoc name = true → jsDoc ≠ [].
Proof. by intros H ->. Qed.

Lemma getDescription_custom jsDoc :
  isCustomFunction jsDoc = true → descriptionIsText jsDoc = true →
  ∃ description, getDescription jsDoc = Return description.
Proof.
  intros H Htext. apply hasTag_jsDoc in H. destruct jsDoc as [|doc rest]; [done|].
  unfold descriptionIsText in Htext. simpl in *.
  destruct (doc_comment doc) as [[text|parts]|]; [| done |]; eexists; reflexivity.
Qed.

(** A description with an inline tag makes [getDescription] throw. *)
Lemma getDescription_nodes jsDoc :
  jsDoc ≠ [] → descriptionIsText jsDoc = false →
  getDescription jsDoc = Throw "TypeError: text.replace is not a function".
Proof.
  intros H Htext. destruct jsDoc as [|doc rest]; [done|].
  unfold descriptionIsText in Htext. simpl in *.
  by destruct (doc_comment doc) as [[text|parts]|].
Qed.

Lemma getParameters_names parameterItem :
  map fp_name (getParameters parameterItem).1 =
  map p_name (ga_parametersToParse parameterItem).
Proof.
  unfold getParameters.
  assert (Hgen : ∀ ps acc extra,
    map fp_name
      (foldl (λ '(parameterMetadata, extra) p,
                let '(pMetadataItem, extra) := getParameter parameterItem extra p in
                (parameterMetadata ++ [pMetadataItem], extra)) (acc, extra) ps).1 =
    map fp_name acc ++ map p_name ps).
  { induction ps as [|p ps IH]; intros acc extra; simpl; [by rewrite app_nil_r|].
    destruct (getParameter_shape parameterItem extra p) as (Hname & _).
    destruct (getParameter parameterItem extra p) as [item extra1]. simpl in Hname.
    rewrite IH, map_app. simpl. rewrite Hname, <- app_assoc. reflexivity. }
  apply (Hgen _ [] _).
Qed.

Lemma hasStreamingInvocationParameter_structural param info pos typeName typeArguments :
  p_type param = Some (TypeReferenceNode pos typeName typeArguments) →
  typeName ∈ streamingTypeNames →
  hasStreamingInvocationParameter (Some param) info = true.
Proof.
  intros Htype Hname. unfold hasStreamingInvocationParameter.
  destruct param as [name type jsDocType q i d ppos]. simpl in Htype. subst type.
  cbn [p_name p_type].
  case_match; [reflexivity|]. simpl.
  unfold streamingTypeNames in Hname.
  repeat (apply elem_of_cons in Hname as [->|Hname]; [reflexivity|]).
  by apply elem_of_nil in Hname.
Qed.

(** The result of a streaming function whose handler has one type argument,
    when the signature returns nothing or [void] and the doc comment has no
    return tag. *)
Lemma getResults_streaming func param info extra basic custom pos typeName typeArgument :
  p_type param = Some (TypeReferenceNode pos typeName (Some [typeArgument])) →
  match fn_type func with
  | Some returnType => JS.trim (getFullText returnType) = "void"
  | None => True
  end →
  fn_jsDocReturnType func = None →
  getResults func true (Some param) info extra basic custom =
  Return
    (getResults_item (getParamType (Some typeArgument) extra basic custom).1.(pt_type)
       (getParamDim (Some typeArgument)),
     (getParamType (Some typeArgument) extra basic custom).2).
Proof.
  intros Htype Hvoid Hreturn.
  unfold getResults, getResults_signature, getResults_jsDoc.
  rewrite Htype, Hreturn. cbn [typeArgumentsOf].
  assert (Hnon : match fn_type func with
                 | Some returnType =>
                     negb (bool_decide (JS.trim (getFullText returnType) = "void"))
                 | None => false
                 end = false).
  { destruct (fn_type func); [|reflexivity]. by rewrite bool_decide_eq_true_2. }
  rewrite Hnon.
  destruct (getParamType (Some typeArgument) extra basic custom) as [ptype extra1].
  reflexivity.
Qed.

(** C1 (amended). A custom function whose last parameter has a streaming
    handler type with the one type argument [string[]], whose signature
    returns nothing or [void] and whose doc comment has no return tag, gets
    the result [{ type: "string" }] with the dimensionality left out, and its
    parameters are those before the last one. *)
Theorem C1_streaming_string_array_result
    (sourceFileName : string) (st : State) (func : FunctionDeclaration)
    (children : list Node) (init : list ParameterDeclaration)
    (lastParameter : ParameterDeclaration) (pos apos lpos : LineAndCharacter)
    (typeName text : string) :
  isCustomFunction (fn_jsDoc func) = true →
  descriptionIsText (fn_jsDoc func) = true →
  fn_parameters func = init ++ [lastParameter] →
  p_type lastParameter =
    Some (TypeReferenceNode pos typeName
            (Some [ArrayTypeNode apos (LeafTypeNode lpos StringKeyword text)])) →
  typeName ∈ streamingTypeNames →
  match fn_type func with
  | Some returnType => JS.trim (getFullText returnType) = "void"
  | None => True
  end →
  fn_jsDocReturnType func = None →
  ∃ st' m,
    buildFunctions sourceFileName true (FunctionDeclarationNode func children) st =
      Return st' ∧
    functions st' = functions st ++ [m] ∧
    f_result m = Some {| fr_type := Some "string"; fr_dimensionality := None |} ∧
    map fp_name (f_parameters m) = map p_name init.
Proof.
  intros Hcustom Htext Hparameters Htype Hname Hvoid Hreturn.
  rewrite (buildFunctions_custom _ _ _ _ Hcustom).
  destruct (getDescription_custom _ Hcustom Htext) as (description & ->).
  assert (Hlast : fnLast func = Some lastParameter).
  { unfold fnLast. rewrite Hparameters. apply last_snoc. }
  assert (Hstreaming : fnStreaming func = true).
  { unfold fnStreaming. rewrite Hlast.
    eapply hasStreamingInvocationParameter_structural; eassumption. }
  rewrite Hlast, Hstreaming.
  erewrite getResults_streaming by eassumption.
  eexists _, _. split; [reflexivity|].
  unfold fnFinish, push_function, fnMetadata. cbn [functions f_result f_parameters].
  split; [reflexivity|]. split; [reflexivity|]. cbn [f_parameters].
  rewrite getParameters_names. unfold fnParameterItems. cbn [ga_parametersToParse].
  unfold fnParametersToParse. rewrite Hstreaming. simpl.
  rewrite Hparameters, length_app. simpl.
  replace (length init + 1 - 1) with (length init) by lia.
  by rewrite take_app_length.
Qed.

Lemma C1_counterexample :
  ∃ r m,
    parseTree {| statements := [FunctionDeclarationNode streamingOfStringArray []] |}
      "functions.ts" = Return r ∧
    r_functions r = [m] ∧
    map fp_name (f_parameters m) = ["x"] ∧
    f_result m = Some {| fr_type := Some "string"; fr_dimensionality := None |} ∧
    f_result m ≠ Some {| fr_type := Some "string"; fr_dimensionality := Some "matrix" |}.
Proof.
  eexists _, _. split; [vm_compute; reflexivity|].
  split; [reflexivity|]. split; [reflexivity|]. split; [reflexivity|]. discriminate.
Qed.

Lemma C1_witness :
  ∃ st' m,
    buildFunctions "functions.ts" true (FunctionDeclarationNode streamingOfStringArray [])
      initialState = Return st' ∧
    functions st' = functions initialState ++ [m] ∧
    f_result m = Some {| fr_type := Some "string"; fr_dimensionality := None |} ∧
    map fp_name (f_parameters m) =
      map p_name [parameter "x" (Some (LeafTypeNode at0 NumberKeyword "number"))].
Proof.
  eapply (C1_streaming_string_array_result "functions.ts" initialState
            streamingOfStringArray []
            [parameter "x" (Some (LeafTypeNode at0 NumberKeyword "number"))]
            (parameter "handler"
               (Some (TypeReferenceNode at0 "CustomFunctions.StreamingHandler"
                        (Some [stringArray]))))).
  - reflexivity.
  - reflexivity.
  - reflexivity.
  - reflexivity.
  - unfold streamingTypeNames. apply elem_of_cons. right. apply elem_of_cons. by left.
  - exact I.
  - reflexivity.
Defined.

(** With the type argument [string[][]] the result is a matrix. *)
Example getResults_streaming_matrix :
  (getResults
     (customFunction "tick" [] None) true
     (Some (parameter "handler"
              (Some (TypeReferenceNode at0 "CustomFunctions.StreamingHandler"
                       (Some [ArrayTypeNode at0 stringArray])))))
     ∅ {| errors := []; javascriptFunctionName := "tick" |} [] []) =
  Return ({| fr_type := Some "string"; fr_dimensionality := Some "matrix" |},
          {| errors := []; javascriptFunctionName := "tick" |}).
Proof. vm_compute. reflexivity. Qed.

(** * Diagnostics about duplicates *)

Lemma prefix_nil (s : string) : String.prefix "" s = true.
Proof. by destruct s. Qed.

Lemma prefix_cons c (p s : string) :
  String.prefix (String c p) (String c s) = String.prefix p s.
Proof. simpl. by destruct (ascii_dec c c). Qed.

Lemma prefix_append (p s : string) : String.prefix p (p +:+ s) = true.
Proof.
  induction p as [|c p IH]; [apply prefix_nil|].
  change (String c p +:+ s) with (String c (p +:+ s)). by rewrite prefix_cons.
Qed.

Lemma prefix_append_assoc (p s t : string) : String.prefix p ((p +:+ s) +:+ t) = true.
Proof.
  induction p as [|c p IH]; [apply prefix_nil|].
  change ((String c p +:+ s) +:+ t) with (String c ((p +:+ s) +:+ t)).
  by rewrite prefix_cons.
Qed.

Lemma prefix_logError (p s : string) position :
  String.prefix p (logError (p +:+ s) position) = true.
Proof.
  destruct position; simpl; [apply prefix_append_assoc | apply prefix_append].
Qed.

Lemma logError_head c s position :
  ∃ rest, logError (String c s) position = String c rest.
Proof. destruct position; simpl; eexists; reflexivity. Qed.

Lemma prefix_cons_ne a b (p s : string) :
  a ≠ b → String.prefix (String a p) (String b s) = false.
Proof. intros Hab. simpl. by destruct (ascii_dec a b). Qed.

Lemma notDuplicate_cons c s :
  c ≠ "D"%char → c ≠ "@"%char → isDuplicateDiagnostic (String c s) = false.
Proof.
  intros HD Hat.
  unfold isDuplicateDiagnostic, duplicateFunctionName, duplicateTagName, duplicateTagId.
  by rewrite !prefix_cons_ne by congruence.
Qed.

Lemma notDuplicate_head c s position :
  c ≠ "D"%char → c ≠ "@"%char →
  isDuplicateDiagnostic (logError (String c s) position) = false.
Proof.
  intros HD Hat. destruct (logError_head c s position) as (rest & ->).
  unfold isDuplicateDiagnostic, duplicateFunctionName, duplicateTagName, duplicateTagId.
  by rewrite !prefix_cons_ne by congruence.
Qed.

Lemma quiet_refl extra : quiet extra extra.
Proof. split; [reflexivity|]. exists []. by rewrite app_nil_r. Qed.

Lemma quiet_trans extra1 extra2 extra3 :
  quiet extra1 extra2 → quiet extra2 extra3 → quiet extra1 extra3.
Proof.
  intros (Hn1 & a1 & He1 & Ha1) (Hn2 & a2 & He2 & Ha2). split; [congruence|].
  exists (a1 ++ a2). rewrite He2, He1, app_assoc. split; [reflexivity|].
  by apply Forall_app.
Qed.

Lemma quiet_pushError extra extra' error :
  quiet extra extra' → isDuplicateDiagnostic error = false →
  quiet extra (pushError extra' error).
Proof.
  intros H Herror. eapply quiet_trans; [exact H|]. split; [reflexivity|].
  exists [error]. split; [reflexivity|]. by apply Forall_singleton.
Qed.

Ltac not_duplicate :=
  first [apply notDuplicate_head; discriminate | apply notDuplicate_cons; discriminate].

Ltac quiet_pushes :=
  repeat (apply quiet_pushError;
          [|first [apply notDuplicate_head; discriminate
                  | destruct_all (option LineAndCharacter); reflexivity
                  | reflexivity]]);
  try apply quiet_refl; try assumption.

Lemma validateId_quiet id position extra : quiet extra (validateId id position extra).
Proof. unfold validateId. repeat case_match; simplify_eq; quiet_pushes. Qed.

Lemma validateName_function_quiet name position extra :
  quiet extra (validateName name position extra "function").
Proof. unfold validateName. repeat case_match; quiet_pushes. Qed.

Lemma getParamType_quiet node extra basic custom :
  quiet extra (getParamType node extra basic custom).2.
Proof. unfold getParamType. repeat case_match; simpl; quiet_pushes. Qed.

Lemma getParameter_quiet parameterItem extra p :
  quiet extra (getParameter parameterItem extra p).2.
Proof.
  unfold getParameter.
  match goal with
  | |- context [getParamType ?n ?x ?b ?c] =>
      pose proof (getParamType_quiet n x b c) as H;
      destruct (getParamType n x b c) as [ptype extra1]
  end.
  simpl in *. eapply quiet_trans; [|exact H].
  repeat case_match; quiet_pushes.
Qed.

Lemma getParameters_quiet parameterItem :
  quiet (ga_extra parameterItem) (getParameters parameterItem).2.
Proof.
  unfold getParameters.
  assert (Hgen : ∀ ps acc extra,
    quiet extra
      (foldl (λ '(parameterMetadata, extra) p,
                let '(pMetadataItem, extra) := getParameter parameterItem extra p in
                (parameterMetadata ++ [pMetadataItem], extra)) (acc, extra) ps).2).
  { induction ps as [|p ps IH]; intros acc extra; simpl; [apply quiet_refl|].
    pose proof (getParameter_quiet parameterItem extra p) as Hp.
    destruct (getParameter parameterItem extra p) as [item extra1]. simpl in Hp.
    eapply quiet_trans; [exact Hp | apply IH]. }
  apply Hgen.
Qed.

Lemma getOptions_quiet func s c i extra : quiet extra (getOptions func s c i extra).2.
Proof.
  unfold getOptions. cbn [snd].
  destruct (isAddressRequired _), (isRequiresParameterAddresses _), (isStreaming _ s),
    (isExcludedFromAutoComplete _), (isVolatile _), (isLinkedEntityLoadService _),
    (hasCapturesCallingObject _), s, c, i; cbn -[logError]; quiet_pushes.
Qed.

Lemma getResults_signature_quiet func s lastParameter info extra basic custom flow extra1 :
  getResults_signature func s lastParameter info extra basic custom = Return (flow, extra1) →
  quiet extra extra1.
Proof.
  unfold getResults_signature. intros H. cbv zeta in H.
  destruct s.
  - destruct lastParameter as [param|]; [|discriminate].
    destruct (p_type param) as [ty|].
    + destruct (typeArgumentsOf ty) as [[|argument [|argument' arguments]]|];
        try (injection H as <- <-; apply quiet_pushError;
             [apply quiet_refl | not_duplicate]).
      match type of H with
      | (if ?c then _ else _) = _ => destruct c
      end.
      * injection H as <- <-. apply quiet_pushError;
          [apply quiet_refl | not_duplicate].
      * pose proof (getParamType_quiet (Some argument) extra basic custom) as Hq.
        destruct (getParamType (Some argument) extra basic custom) as [ptype extra2].
        injection H as <- <-. exact Hq.
    + destruct (paramTypeOf info (p_name param)); [|discriminate].
      injection H as <- <-. apply quiet_refl.
  - destruct (fn_type func) as [type|]; [|injection H as <- <-; apply quiet_refl].
    pose proof (getParamType_quiet (Some (default type (promiseArgument type)))
                  extra basic custom) as Hq.
    destruct (getParamType (Some (default type (promiseArgument type))) extra basic custom)
      as [ptype extra2].
    injection H as <- <-. exact Hq.
Qed.

Lemma getResults_jsDoc_quiet func resultType resultDim extra basic custom r :
  getResults_jsDoc func resultType resultDim extra basic custom = Return r →
  quiet extra r.2.
Proof.
  unfold getResults_jsDoc. intros H.
  destruct (fn_jsDocReturnType func) as [returnType|];
    [|injection H as <-; apply quiet_refl].
  apply bind_Return in H as (extra1 & Hmismatch & H).
  assert (Hquiet1 : quiet extra extra1).
  { destruct (fn_type func) as [type|]; [|injection Hmismatch as <-; apply quiet_refl].
    destruct (negb _); [|injection Hmismatch as <-; apply quiet_refl].
    destruct (fn_name func) as [name|]; [|discriminate].
    injection Hmismatch as <-. apply quiet_pushError;
      [apply quiet_refl | not_duplicate]. }
  eapply quiet_trans; [exact Hquiet1|].
  pose proof (getParamType_quiet (Some (default returnType (promiseArgument returnType)))
                extra1 basic custom) as Hq.
  destruct (getParamType (Some (default returnType (promiseArgument returnType)))
              extra1 basic custom) as [ptype extra2].
  injection H as <-. exact Hq.
Qed.

Lemma getResults_quiet func s lastParameter info extra basic custom r :
  getResults func s lastParameter info extra basic custom = Return r → quiet extra r.2.
Proof.
  unfold getResults. intros H.
  apply bind_Return in H as ([flow extra1] & Hsignature & H).
  apply getResults_signature_quiet in Hsignature.
  destruct flow as [item|[resultType resultDim]].
  - injection H as <-. exact Hsignature.
  - apply bind_Return in H as ([[resultType' resultDim'] extra2] & HjsDoc & H).
    apply getResults_jsDoc_quiet in HjsDoc. injection H as <-.
    eapply quiet_trans; eassumption.
Qed.




(** The diagnostics of a custom function, in order: the duplicate function
    name, diagnostics that are not about duplicates, the duplicate name and
    the duplicate id of the tag. *)
Lemma fnFinalExtra_errors func st extra :
  ∃ added,
    Forall (λ error, isDuplicateDiagnostic error = false) added ∧
    javascriptFunctionName (fnFinalExtra func st extra) = javascriptFunctionName extra ∧
    errors (fnFinalExtra func st extra) =
      errors extra ++ added ++ duplicateTagNameError func st ++ duplicateTagIdError func st.
Proof.
  unfold fnFinalExtra.
  pose proof (getOptions_quiet func (fnStreaming func) (fnCancelable func)
                (fnInvocation func) extra) as H1.
  pose proof (validateId_quiet (fnId func) (Some (fn_pos func))
                (getOptions func (fnStreaming func) (fnCancelable func)
                   (fnInvocation func) extra).2) as H2.
  pose proof (validateName_function_quiet (fnDisplayName func) (Some (fn_pos func))
                (validateId (fnId func) (Some (fn_pos func))
                   (getOptions func (fnStreaming func) (fnCancelable func)
                      (fnInvocation func) extra).2)) as H3.
  destruct (quiet_trans _ _ _ (quiet_trans _ _ _ H1 H2) H3) as (Hname & added & Herrors & Hadded).
  exists added. split; [exact Hadded|].
  unfold duplicateTagNameError, duplicateTagIdError, duplicateTagName, duplicateTagId.
  cbv zeta.
  destruct (checkForDuplicate (metadataFunctionNames st) (fnDisplayName func));
    destruct (checkForDuplicate (metadataFunctionIds st) (fnId func));
    cbn [pushError errors javascriptFunctionName]; rewrite Herrors, Hname;
    (split; [reflexivity|]); rewrite <- ?app_assoc, ?app_nil_r; reflexivity.
Qed.

Lemma customFunction_extra func st r :
  getResults func (fnStreaming func) (fnLast func) (fnTypeInfo func)
    (getParameters (fnParameterItems func st)).2 (basicEnums st) (customEnums st)
    = Return r →
  ∃ added,
    Forall (λ error, isDuplicateDiagnostic error = false) added ∧
    javascriptFunctionName (fnFinalExtra func st r.2) = fnName func ∧
    errors (fnFinalExtra func st r.2) =
      fnErrors func st ++ added ++ duplicateTagNameError func st ++
      duplicateTagIdError func st.
Proof.
  intros Hr. apply getResults_quiet in Hr.
  pose proof (getParameters_quiet (fnParameterItems func st)) as Hp.
  destruct (quiet_trans _ _ _ Hp Hr) as (Hname & added1 & Herrors & Hadded1).
  destruct (fnFinalExtra_errors func st r.2) as (added2 & Hadded2 & Hname2 & Herrors2).
  exists (added1 ++ added2). split; [by apply Forall_app|].
  split; [by rewrite Hname2, Hname|].
  rewrite Herrors2, Herrors. simpl. by rewrite <- !app_assoc.
Qed.

Lemma grows_refl st : grows st st.
Proof. split; reflexivity. Qed.

Lemma grows_trans st1 st2 st3 : grows st1 st2 → grows st2 st3 → grows st1 st3.
Proof. intros [? ?] [? ?]. split; etrans; eassumption. Qed.

Lemma buildFunctions_grows name top node st st' :
  buildFunctions name top node st = Return st' → grows st st'.
Proof.
  destruct node as [e|f children|children]; [by intros [= <-]; apply grows_refl|
                                            |by intros [= <-]; apply grows_refl].
  destruct top; [|by intros [= <-]; apply grows_refl].
  destruct (isCustomFunction (fn_jsDoc f)) eqn:Hcustom.
  - rewrite (buildFunctions_custom _ _ _ _ Hcustom). intros H.
    apply bind_Return in H as (description & _ & H).
    apply bind_Return in H as (r & _ & H). injection H as <-.
    split; simpl; by apply prefix_app_r.
  - rewrite (buildFunctions_plain _ _ _ _ Hcustom). intros [= <-].
    split; simpl; [by apply prefix_app_r | reflexivity].
Qed.

Lemma checkForDuplicate_elem list value item :
  value ∈ list → areStringsEqual value item = true → checkForDuplicate list item = true.
Proof.
  intros Hin Hequal. unfold checkForDuplicate. apply existsb_exists.
  exists value. split; [by apply list_elem_of_In | exact Hequal].
Qed.

(** C9. A top-level function declaration without the custom-function tag
    adds its declared name to [functionNames] and nothing else to the state
    (no record, no entry of [extras]); a custom function later in the file
    whose declared name is equal up to letter case gets the diagnostic
    [Duplicate function name] as its first diagnostic. *)
Theorem C9_untagged_function_reserves_name
    (sourceFile : SourceFile) (sourceFileName : string) (r : IParseTreeResult)
    (before between after gchildren fchildren : list Node)
    (g f : FunctionDeclaration) :
  statements sourceFile =
    before ++ FunctionDeclarationNode g gchildren ::
    between ++ FunctionDeclarationNode f fchildren :: after →
  isCustomFunction (fn_jsDoc g) = false →
  isCustomFunction (fn_jsDoc f) = true →
  JS.toLowerCase (default "" (fn_name g)) = JS.toLowerCase (default "" (fn_name f)) →
  parseTree sourceFile sourceFileName = Return r →
  (∀ st, walk (buildFunctions sourceFileName) true (FunctionDeclarationNode g gchildren) st =
         Return (push_functionNames (default "" (fn_name g)) st)) ∧
  ∃ extra,
    extra ∈ r_extras r ∧
    javascriptFunctionName extra = default "" (fn_name f) ∧
    head (errors extra) =
      Some (logError ("Duplicate function name: " +:+ default "" (fn_name f))
              (Some (fn_pos f))).
Proof.
  intros Hstatements Hplain Hcustom Hequal Hparse.
  assert (Hg : ∀ st,
    walk (buildFunctions sourceFileName) true (FunctionDeclarationNode g gchildren) st =
    Return (push_functionNames (default "" (fn_name g)) st)).
  { intros st. rewrite walk_top by apply buildFunctions_nested.
    by apply buildFunctions_plain. }
  split; [exact Hg|].
  unfold parseTree, walkSourceFile in Hparse.
  apply bind_Return in Hparse as (st1 & _ & Hparse).
  apply bind_Return in Hparse as (st2 & _ & Hparse).
  apply bind_Return in Hparse as (st3 & Hwalk & Hparse). injection Hparse as <-.
  cbn [r_extras]. rewrite Hstatements in Hwalk.
  rewrite walkAll_app in Hwalk. apply bind_Return in Hwalk as (sta & _ & Hwalk).
  rewrite walkAll_cons in Hwalk. apply bind_Return in Hwalk as (stb & Hgb & Hwalk).
  rewrite Hg in Hgb. injection Hgb as <-.
  rewrite walkAll_app in Hwalk. apply bind_Return in Hwalk as (stc & Hbetween & Hwalk).
  rewrite walkAll_cons in Hwalk. apply bind_Return in Hwalk as (std & Hf & Hafter).
  apply (walkAll_relation (buildFunctions sourceFileName) grows grows_refl grows_trans
           (buildFunctions_grows sourceFileName)) in Hbetween as [Hnames _].
  apply (walkAll_relation (buildFunctions sourceFileName) grows grows_refl grows_trans
           (buildFunctions_grows sourceFileName)) in Hafter as [_ Hextras].
  rewrite walk_top in Hf by apply buildFunctions_nested.
  rewrite (buildFunctions_custom _ _ _ _ Hcustom) in Hf.
  apply bind_Return in Hf as (description & _ & Hf).
  apply bind_Return in Hf as (res & Hres & Hf). injection Hf as <-.
  destruct (customFunction_extra f stc res Hres) as (added & _ & Hname & Herrors).
  exists (fnFinalExtra f stc res.2). split; [|split].
  - destruct Hextras as [more ->]. simpl.
    apply elem_of_app. left. apply elem_of_app. right. apply list_elem_of_singleton.
    reflexivity.
  - exact Hname.
  - rewrite Herrors. unfold fnErrors.
    rewrite (checkForDuplicate_elem _ (default "" (fn_name g))); [reflexivity| |].
    + destruct Hnames as [more ->]. simpl.
      apply elem_of_app. left. apply elem_of_app. right. by apply list_elem_of_singleton.
    + unfold areStringsEqual, JS.equalIgnoringCase. by apply bool_decide_eq_true.
Qed.

Example parseTree_shadowedFile :
  map (λ extra, (javascriptFunctionName extra, errors extra)) (r_extras shadowedResult) =
  [("ADD", ["Duplicate function name: ADD (1,1)"])] ∧
  map f_id (r_functions shadowedResult) = ["ADD"].
Proof. split; reflexivity. Qed.

Lemma C9_witness :
  ∃ extra,
    extra ∈ r_extras shadowedResult ∧
    javascriptFunctionName extra = "ADD" ∧
    head (errors extra) = Some "Duplicate function name: ADD (1,1)".
Proof.
  destruct (C9_untagged_function_reserves_name shadowedFile "functions.ts" shadowedResult
              [] [] [] [] [] (plainFunction "add") (customFunction "ADD" [] None))
    as [_ H].
  - reflexivity.
  - reflexivity.
  - reflexivity.
  - reflexivity.
  - vm_compute. reflexivity.
  - exact H.
Defined.

(** * Two functions whose names differ in letter case *)

Lemma upperChar_lowerChar c : JS.upperChar (JS.lowerChar c) = JS.upperChar c.
Proof. destruct c as [[] [] [] [] [] [] [] []]; reflexivity. Qed.

Lemma toLocaleUpperCase_toLowerCase s :
  JS.toLocaleUpperCase (JS.toLowerCase s) = JS.toLocaleUpperCase s.
Proof.
  induction s as [|c s IH]; [reflexivity|].
  unfold JS.toLocaleUpperCase, JS.toLowerCase in *. simpl.
  by rewrite upperChar_lowerChar, IH.
Qed.

Lemma normalizeCustomFunctionId_upper id :
  normalizeCustomFunctionId id = JS.toLocaleUpperCase id.
Proof. by destruct id. Qed.

Lemma areStringsEqual_refl s : areStringsEqual s s = true.
Proof. unfold areStringsEqual, JS.equalIgnoringCase. by apply bool_decide_eq_true. Qed.

Section WalkTotal.
Variable visit : bool → Node → State → Outcome State.
Hypothesis visit_returns : ∀ top node st, ∃ st', visit top node st = Return st'.

Lemma walkAll_returns_of top nodes :
  Forall (λ node, ∀ top st, ∃ st', walk visit top node st = Return st') nodes →
  ∀ st, ∃ st', walkAll visit top nodes st = Return st'.
Proof.
  induction 1 as [|n r Hn _ IH]; intros st; simpl; [by eexists|].
  destruct (Hn top st) as (st1 & ->). simpl. apply IH.
Qed.

Lemma walk_returns node : ∀ top st, ∃ st', walk visit top node st = Return st'.
Proof.
  induction node as [e|f children IH|children IH] using Node_nested_ind;
    intros top st; rewrite walk_unfold;
    match goal with
    | |- context [visit top ?n st] => destruct (visit_returns top n st) as (st1 & ->)
    end; simpl;
    [by eexists | by apply walkAll_returns_of..].
Qed.

Lemma walkAll_returns top nodes st : ∃ st', walkAll visit top nodes st = Return st'.
Proof.
  apply walkAll_returns_of. apply Forall_forall. intros n _. apply walk_returns.
Qed.
End WalkTotal.

Lemma buildEnums_returns top node st : ∃ st', buildEnums top node st = Return st'.
Proof. destruct node; simpl; try case_match; by eexists. Qed.

Lemma sameButBasicEnums_refl st : sameButBasicEnums st st.
Proof. repeat split. Qed.

Lemma sameButBasicEnums_trans st1 st2 st3 :
  sameButBasicEnums st1 st2 → sameButBasicEnums st2 st3 → sameButBasicEnums st1 st3.
Proof.
  intros (a1 & b1 & c1 & d1) (a2 & b2 & c2 & d2).
  split; [by eapply sameFunctionState_trans|]. repeat split; congruence.
Qed.

Lemma buildEnums_sameButBasicEnums top node st st' :
  buildEnums top node st = Return st' → sameButBasicEnums st st'.
Proof.
  destruct node as [e| |]; simpl; [destruct (isCustomEnum _); simpl|..];
    intros [= <-]; repeat split.
Qed.

Lemma walk_buildCustomEnums_function func children st :
  walk buildCustomEnums true (FunctionDeclarationNode func children) st = Return st.
Proof. by rewrite walk_top by apply buildCustomEnums_nested. Qed.

Lemma filter_notDuplicate added :
  Forall (λ error, isDuplicateDiagnostic error = false) added →
  List.filter isDuplicateDiagnostic added = [].
Proof.
  induction 1 as [|error added Herror _ IH]; [reflexivity|].
  simpl. by rewrite Herror.
Qed.

Lemma isDuplicateDiagnostic_functionName name position :
  isDuplicateDiagnostic (logError (duplicateFunctionName +:+ name) position) = true.
Proof. unfold isDuplicateDiagnostic. by rewrite prefix_logError. Qed.

Lemma isDuplicateDiagnostic_tagName name position :
  isDuplicateDiagnostic (logError (duplicateTagName +:+ name) position) = true.
Proof. unfold isDuplicateDiagnostic. rewrite (prefix_logError duplicateTagName). by rewrite orb_true_r. Qed.

Lemma isDuplicateDiagnostic_tagId id position :
  isDuplicateDiagnostic (logError (duplicateTagId +:+ id) position) = true.
Proof. unfold isDuplicateDiagnostic. rewrite (prefix_logError duplicateTagId). by rewrite !orb_true_r. Qed.

(** Without an id or a name after the tag, the id is the declared name in
    upper case and the name is the id. *)
Lemma fnId_plain func :
  getTagComment (fn_jsDoc func) CUSTOM_FUNCTION = "" →
  fnId func = JS.toLocaleUpperCase (fnName func) ∧ fnDisplayName func = fnId func.
Proof.
  intros Hcomment. unfold fnDisplayName, fnId, fnIdNameArray. rewrite Hcomment.
  simpl. rewrite normalizeCustomFunctionId_upper. split; [|reflexivity].
  unfold JS.orElse. by destruct (fnName func).
Qed.

Lemma walkAll_two visit top a b st :
  walkAll visit top [a; b] st = walk visit top a st ≫= walk visit top b.
Proof.
  simpl. destruct (walk visit top a st) as [st1|]; simpl; [|reflexivity].
  by destruct (walk visit top b st1).
Qed.

Lemma keepsMetadata_refl st : keepsMetadata st st.
Proof. split; reflexivity. Qed.

Lemma keepsMetadata_trans st1 st2 st3 :
  keepsMetadata st1 st2 → keepsMetadata st2 st3 → keepsMetadata st1 st3.
Proof. intros [? ?] [? ?]. split; etrans; eassumption. Qed.

Lemma buildFunctions_keepsMetadata name top node st st' :
  buildFunctions name top node st = Return st' → keepsMetadata st st'.
Proof.
  destruct node as [e|f children|children]; [by intros [= <-]; apply keepsMetadata_refl|
                                            |by intros [= <-]; apply keepsMetadata_refl].
  destruct top; [|by intros [= <-]; apply keepsMetadata_refl].
  destruct (isCustomFunction (fn_jsDoc f)) eqn:Hcustom.
  - rewrite (buildFunctions_custom _ _ _ _ Hcustom). intros H.
    apply bind_Return in H as (description & _ & H).
    apply bind_Return in H as (r & _ & H). injection H as <-.
    split; simpl; by apply prefix_app_r.
  - rewrite (buildFunctions_plain _ _ _ _ Hcustom). intros [= <-].
    split; reflexivity.
Qed.

(** The function walker passes over the statements that are not function
    declarations. *)
Lemma walkAll_buildFunctions_others name nodes st :
  Forall (λ node, isFunctionDeclarationNode node = false) nodes →
  walkAll (buildFunctions name) true nodes st = Return st.
Proof.
  induction 1 as [|node nodes Hnode _ IH]; [reflexivity|].
  rewrite walkAll_cons, walk_top by apply buildFunctions_nested.
  destruct node; [|discriminate|]; exact IH.
Qed.

(** C5 (amended). Two custom functions of one file, anywhere among its
    statements, have declared names that are equal up to letter case, and
    nothing after their tags.  Whenever [parseTree] returns, the second
    function gets exactly three diagnostics about a duplicate, in this
    order: one [Duplicate function name], one duplicate name of the tag and
    one duplicate id of the tag; the first function gets none when no
    function declaration stands before it.  The names are ASCII texts. *)
Theorem C5_case_duplicate_functions
    (sourceFile : SourceFile) (sourceFileName : string) (r : IParseTreeResult)
    (before between after children1 children2 : list Node)
    (f1 f2 : FunctionDeclaration) (name1 name2 : string) :
  statements sourceFile =
    before ++ FunctionDeclarationNode f1 children1 ::
    between ++ FunctionDeclarationNode f2 children2 :: after →
  isCustomFunction (fn_jsDoc f1) = true →
  isCustomFunction (fn_jsDoc f2) = true →
  fn_name f1 = Some name1 →
  fn_name f2 = Some name2 →
  JS.isAscii name2 = true →
  JS.toLowerCase name1 = JS.toLowerCase name2 →
  getTagComment (fn_jsDoc f1) CUSTOM_FUNCTION = "" →
  getTagComment (fn_jsDoc f2) CUSTOM_FUNCTION = "" →
  parseTree sourceFile sourceFileName = Return r →
  ∃ earlier extra1 middle extra2 later,
    r_extras r = earlier ++ extra1 :: middle ++ extra2 :: later ∧
    javascriptFunctionName extra1 = name1 ∧
    javascriptFunctionName extra2 = name2 ∧
    List.filter isDuplicateDiagnostic (errors extra2) =
      [logError (duplicateFunctionName +:+ name2) (Some (fn_pos f2));
       logError (duplicateTagName +:+ JS.toLocaleUpperCase name2) (Some (fn_pos f2));
       logError (duplicateTagId +:+ JS.toLocaleUpperCase name2) (Some (fn_pos f2))] ∧
    (Forall (λ node, isFunctionDeclarationNode node = false) before →
     List.filter isDuplicateDiagnostic (errors extra1) = []).
Proof.
  intros Hstatements Hcustom1 Hcustom2 Hname1 Hname2 _ Hequal Hplain1 Hplain2 Hparse.
  unfold parseTree, walkSourceFile in Hparse.
  apply bind_Return in Hparse as (st1 & H1 & Hparse).
  apply bind_Return in Hparse as (st2 & H2 & Hparse).
  apply bind_Return in Hparse as (st3 & Hwalk & Hparse). injection Hparse as <-.
  apply (walkAll_relation buildEnums sameFunctionState sameFunctionState_refl
           sameFunctionState_trans buildEnums_sameFunctionState) in H1.
  apply (walkAll_relation buildCustomEnums sameFunctionState sameFunctionState_refl
           sameFunctionState_trans buildCustomEnums_sameFunctionState) in H2.
  destruct (sameFunctionState_trans _ _ _ H1 H2) as (_ & _ & Hnames & Htagnames & Htagids).
  simpl in Hnames, Htagnames, Htagids. clear H1 H2.
  cbn [r_extras]. rewrite Hstatements in Hwalk.
  rewrite walkAll_app in Hwalk. apply bind_Return in Hwalk as (sta & Hbefore & Hwalk).
  rewrite walkAll_cons in Hwalk. apply bind_Return in Hwalk as (stb & Hf1 & Hwalk).
  rewrite walkAll_app in Hwalk. apply bind_Return in Hwalk as (stc & Hbetween & Hwalk).
  rewrite walkAll_cons in Hwalk. apply bind_Return in Hwalk as (std & Hf2 & Hafter).
  pose proof (walkAll_relation (buildFunctions sourceFileName) grows grows_refl grows_trans
                (buildFunctions_grows sourceFileName) _ _ _ _ Hbetween)
    as [[morenames Hmorenames] [middle Hmiddle]].
  pose proof (walkAll_relation (buildFunctions sourceFileName) keepsMetadata
                keepsMetadata_refl keepsMetadata_trans
                (buildFunctions_keepsMetadata sourceFileName) _ _ _ _ Hbetween)
    as [[moretags Hmoretags] [moreids Hmoreids]].
  apply (walkAll_relation (buildFunctions sourceFileName) grows grows_refl grows_trans
           (buildFunctions_grows sourceFileName)) in Hafter as [_ [later Hlater]].
  rewrite walk_top in Hf1 by apply buildFunctions_nested.
  rewrite (buildFunctions_custom _ _ _ _ Hcustom1) in Hf1.
  apply bind_Return in Hf1 as (description1 & _ & Hf1).
  apply bind_Return in Hf1 as (r1 & Hr1 & Hf1). injection Hf1 as <-.
  rewrite walk_top in Hf2 by apply buildFunctions_nested.
  rewrite (buildFunctions_custom _ _ _ _ Hcustom2) in Hf2.
  apply bind_Return in Hf2 as (description2 & _ & Hf2).
  apply bind_Return in Hf2 as (r2 & Hr2 & Hf2). injection Hf2 as <-.
  destruct (customFunction_extra f1 sta r1 Hr1) as (added1 & Hadded1 & Hjs1 & Herrors1).
  destruct (customFunction_extra f2 stc r2 Hr2) as (added2 & Hadded2 & Hjs2 & Herrors2).
  destruct (fnId_plain f1 Hplain1) as [Hid1 Hdisplay1].
  destruct (fnId_plain f2 Hplain2) as [Hid2 Hdisplay2].
  assert (Hfn1 : fnName f1 = name1) by (unfold fnName; by rewrite Hname1).
  assert (Hfn2 : fnName f2 = name2) by (unfold fnName; by rewrite Hname2).
  assert (Hids : fnId f1 = fnId f2).
  { rewrite Hid1, Hid2, Hfn1, Hfn2.
    rewrite <- (toLocaleUpperCase_toLowerCase name1), Hequal.
    apply toLocaleUpperCase_toLowerCase. }
  exists (extras sta), (fnFinalExtra f1 sta r1.2), middle, (fnFinalExtra f2 stc r2.2), later.
  split; [|split; [|split; [|split]]].
  - rewrite Hlater. unfold fnFinish at 1. cbn [push_function push_functionNames extras].
    rewrite Hmiddle. unfold fnFinish. cbn [push_function push_functionNames extras].
    by rewrite <- !app_assoc.
  - by rewrite Hjs1.
  - by rewrite Hjs2.
  - rewrite Herrors2. unfold fnErrors, duplicateTagNameError, duplicateTagIdError.
    assert (Hdup : checkForDuplicate (functionNames stc) (fnName f2) = true).
    { apply (checkForDuplicate_elem _ name1).
      - rewrite Hmorenames. unfold fnFinish. cbn [push_function push_functionNames functionNames].
        rewrite Hfn1. apply elem_of_app. left. apply elem_of_app. right.
        by apply list_elem_of_singleton.
      - rewrite Hfn2. unfold areStringsEqual, JS.equalIgnoringCase.
        by apply bool_decide_eq_true. }
    assert (Hdupname : checkForDuplicate (metadataFunctionNames stc) (fnDisplayName f2) = true).
    { apply (checkForDuplicate_elem _ (fnDisplayName f1)).
      - rewrite Hmoretags. unfold fnFinish. cbn [push_function metadataFunctionNames].
        apply elem_of_app. left. apply elem_of_app. right. by apply list_elem_of_singleton.
      - rewrite Hdisplay1, Hdisplay2, Hids. apply areStringsEqual_refl. }
    assert (Hdupid : checkForDuplicate (metadataFunctionIds stc) (fnId f2) = true).
    { apply (checkForDuplicate_elem _ (fnId f1)).
      - rewrite Hmoreids. unfold fnFinish. cbn [push_function metadataFunctionIds].
        apply elem_of_app. left. apply elem_of_app. right. by apply list_elem_of_singleton.
      - rewrite Hids. apply areStringsEqual_refl. }
    rewrite Hdup, Hdupname, Hdupid.
    rewrite !List.filter_app, (filter_notDuplicate added2 Hadded2).
    cbn [List.filter app].
    rewrite isDuplicateDiagnostic_functionName, isDuplicateDiagnostic_tagName,
      isDuplicateDiagnostic_tagId.
    rewrite Hdisplay2, Hid2, Hfn2. reflexivity.
  - intros Hothers.
    rewrite (walkAll_buildFunctions_others _ _ _ Hothers) in Hbefore.
    injection Hbefore as <-.
    rewrite Herrors1. unfold fnErrors, duplicateTagNameError, duplicateTagIdError.
    rewrite Hnames, Htagnames, Htagids. cbn [checkForDuplicate existsb app].
    rewrite app_nil_r. by apply filter_notDuplicate.
Qed.

Lemma C5_counterexample :
  ∃ r,
    parseTree caseFile "functions.ts" = Return r ∧
    List.filter isDuplicateNameDiagnostic (flat_map errors (r_extras r)) =
      ["Duplicate function name: FOO (1,1)";
       "@customfunction tag specifies a duplicate name: FOO (1,1)"] ∧
    length (List.filter isDuplicateNameDiagnostic (flat_map errors (r_extras r))) ≠ 1.
Proof.
  eexists. split; [vm_compute; reflexivity|]. split; [reflexivity|].
  vm_compute. discriminate.
Qed.

Lemma C5_witness :
  ∃ earlier extra1 middle extra2 later,
    r_extras spacedCaseResult = earlier ++ extra1 :: middle ++ extra2 :: later ∧
    javascriptFunctionName extra1 = "foo" ∧
    javascriptFunctionName extra2 = "FOO" ∧
    List.filter isDuplicateDiagnostic (errors extra2) =
      [logError (duplicateFunctionName +:+ "FOO") (Some at0);
       logError (duplicateTagName +:+ JS.toLocaleUpperCase "FOO") (Some at0);
       logError (duplicateTagId +:+ JS.toLocaleUpperCase "FOO") (Some at0)] ∧
    List.filter isDuplicateDiagnostic (errors extra1) = [].
Proof.
  destruct (C5_case_duplicate_functions spacedCaseFile "functions.ts" spacedCaseResult
              [EnumDeclarationNode plainEnum]
              [FunctionDeclarationNode (customFunction "bar" [] None) []] [] [] []
              (customFunction "foo" [] None) (customFunction "FOO" [] None) "foo" "FOO")
    as (earlier & extra1 & middle & extra2 & later & H1 & H2 & H3 & H4 & H5);
    [reflexivity | reflexivity | reflexivity | reflexivity | reflexivity | reflexivity
    | reflexivity | reflexivity | reflexivity | vm_compute; reflexivity |].
  exists earlier, extra1, middle, extra2, later.
  split; [exact H1|]. split; [exact H2|]. split; [exact H3|]. split; [exact H4|].
  apply H5. apply Forall_cons. split; [reflexivity | apply Forall_nil_2].
Defined.

(** * Results that keep a cell-value basic type *)

(** C2 (the code at the failing input). The result of a function that
    returns [Excel.BooleanCellValue] keeps the type boolean, and so do
    number and string for the other cell values with a basic type: the
    resolved type is compared with the names of the cell-value variants and
    never is one of them. *)
Theorem C2_cell_value_result_keeps_basic_type :
  (∃ r m,
     parseTree {| statements := [FunctionDeclarationNode (returning "Excel.BooleanCellValue") []] |}
       "functions.ts" = Return r ∧
     r_functions r = [m] ∧ r_extras r = [{| errors := []; javascriptFunctionName := "getValue" |}] ∧
     f_result m = Some {| fr_type := Some "boolean"; fr_dimensionality := None |}) ∧
  map (λ typeName, resultTypeOf (returning typeName))
    ["Excel.BooleanCellValue"; "Excel.DoubleCellValue"; "Excel.FormattedNumberCellValue";
     "Excel.StringCellValue"; "Excel.CellValue"] =
  [Some (Some "boolean"); Some (Some "number"); Some (Some "number");
   Some (Some "string"); Some None].
Proof.
  split.
  - eexists _, _. split; [vm_compute; reflexivity|]. repeat split.
  - vm_compute. reflexivity.
Qed.

(** The type that [getParamType] answers is never the name of a cell-value
    variant when the custom enums have the types that
    [buildSingleCustomEnum] gives them, so the conversion to any in
    [getResults] never applies. *)
Lemma getParamType_not_cell_value_name node extra basic custom t :
  Forall (λ enumItem, enum_type enumItem = "number" ∨ enum_type enumItem = "string") custom →
  pt_type (getParamType node extra basic custom).1 = Some t →
  t ∉ tableValues CELLVALUETYPE_MAPPINGS.
Proof.
  intros Hcustom. unfold getParamType.
  assert (Hnot : ∀ s, bool_decide (s ∈ tableValues CELLVALUETYPE_MAPPINGS) = false →
                      s ∉ tableValues CELLVALUETYPE_MAPPINGS)
    by (intros s; apply bool_decide_eq_false).
  destruct node as [node|]; [|intros [= <-]; by apply Hnot].
  cbv zeta.
  match goal with
  | |- context [match ?n with ArrayTypeNode _ _ => _ | _ => _ end] =>
      destruct n as [p e|p name args|p k text]
  end.
  - simpl. intros [=].
  - destruct (bool_decide (name ∈ basic)); [intros [= <-]; by apply Hnot|].
    destruct (List.find _ custom) as [enumItem|] eqn:Hfind.
    { apply find_some in Hfind as [Hin _]. apply list_elem_of_In in Hin.
      rewrite Forall_forall in Hcustom. simpl. intros [= <-].
      destruct (Hcustom enumItem Hin) as [-> | ->]; by apply Hnot. }
    cbv zeta.
    destruct (JS.isTruthy JS.truthy (tableGet CELLVALUETYPE_MAPPINGS name));
      [|simpl; intros [= <-]; by apply Hnot].
    destruct (bool_decide (tableGet CELLVALUETYPE_MAPPINGS name = Some (JS.Own "unsupported")));
      [simpl; intros [= <-]; by apply Hnot|].
    cbn [fst pt_type]. unfold basicTypeOf.
    destruct (tableGet CELLVALUETYPE_MAPPINGS name) as [[cellValue|member]|]; [|done..].
    unfold CELLVALUETYPE_TO_BASICTYPE_MAPPINGS. simpl.
    repeat (case_bool_decide; [intros [= <-]; by apply Hnot|]).
    discriminate.
  - simpl. destruct k; simpl; intros [= <-]; by apply Hnot.
Qed.

(** The names that [CELLVALUETYPE_MAPPINGS] holds are own keys of
    [CELLVALUETYPE_TO_BASICTYPE_MAPPINGS] or no property of it at all, so
    [basicTypeOf] reads the second table as the indexing does. *)
Lemma basicTypeOf_own name :
  name ∈ tableValues CELLVALUETYPE_MAPPINGS →
  tableGet CELLVALUETYPE_TO_BASICTYPE_MAPPINGS name =
  JS.Own <$> tableOwn CELLVALUETYPE_TO_BASICTYPE_MAPPINGS name.
Proof.
  intros Hin. unfold tableValues, CELLVALUETYPE_MAPPINGS in Hin. simpl in Hin.
  repeat (apply elem_of_cons in Hin as [-> | Hin]; [reflexivity|]).
  by apply elem_of_nil in Hin.
Qed.

(** * Exceptions *)

(** C3 (the code at the failing input). [parseTree] throws on a file whose
    custom enum has a member initializer that [JSON.parse] rejects; the
    functions of the file, here a plain custom function, are never reached. *)
Theorem C3_parseTree_throws_on_initializer :
  parseTree {| statements := [EnumDeclarationNode quotedEnum;
                              FunctionDeclarationNode (customFunction "add" [] None) []] |}
    "functions.ts" = Throw "SyntaxError: Unexpected token in JSON".
Proof. vm_compute. reflexivity. Qed.

(** * Records of declarations that produce diagnostics *)

Lemma walkAll_buildFunctions_records name nodes :
  ∀ st st',
    walkAll (buildFunctions name) true nodes st = Return st' →
    map as_functionName (associate st') =
      map as_functionName (associate st) ++ map fnName (topLevelCustomFunctions nodes) ∧
    map f_id (functions st') =
      map f_id (functions st) ++ map fnId (topLevelCustomFunctions nodes).
Proof.
  induction nodes as [|node nodes IH]; intros st st' H.
  - injection H as <-. simpl. by rewrite !app_nil_r.
  - rewrite walkAll_cons in H. apply bind_Return in H as (st1 & Hnode & H).
    rewrite walk_top in Hnode by apply buildFunctions_nested.
    apply IH in H as [Hassociate Hfunctions]. rewrite Hassociate, Hfunctions.
    destruct node as [e|func children|children];
      [injection Hnode as <-; by split| |injection Hnode as <-; by split].
    simpl. destruct (isCustomFunction (fn_jsDoc func)) eqn:Hcustom.
    + rewrite (buildFunctions_custom _ _ _ _ Hcustom) in Hnode.
      apply bind_Return in Hnode as (description & _ & Hnode).
      apply bind_Return in Hnode as (r & _ & Hnode). injection Hnode as <-.
      unfold fnFinish. cbn [push_function associate functions].
      rewrite !map_app, <- !app_assoc. simpl. by split.
    + rewrite (buildFunctions_plain _ _ _ _ Hcustom) in Hnode. injection Hnode as <-.
      by split.
Qed.

Lemma buildSingleCustomEnum_steps e st :
  isCustomEnum (en_jsDoc e) = true →
  en_members e ≠ [] →
  ∃ st1,
    customEnums st1 = customEnums st ∧
    metadataEnumIds st1 = metadataEnumIds st ++ [en_name e] ∧
    extras st `prefix_of` extras st1 ∧
    buildSingleCustomEnum true (EnumDeclarationNode e) st =
      if annotationMismatch e then
        Return (push_extras
                  (errorExtra (logError
                     ("Enum type must match the enum type in annotation: " +:+ en_name e)
                     (Some (en_pos e)))) st1)
      else
        values ← enumValues (enumIsNumber e) (en_members e) 0 [];
        match values with
        | None =>
            Return (push_extras
                      (errorExtra (logError
                         ("Enum value type must be consistent: " +:+ en_name e)
                         (Some (en_pos e)))) st1)
        | Some values =>
            Return (push_customEnums
                      {| enum_id := en_name e;
                         enum_type := if enumIsNumber e then "number" else "string";
                         enum_values := values |} st1)
        end.
Proof.
  intros Hcustom Hmembers.
  assert (Hlength : bool_decide (length (en_members e) = 0) = false).
  { apply bool_decide_eq_false. by destruct (en_members e). }
  unfold buildSingleCustomEnum, annotationMismatch, enumAnnotation, enumIsNumber.
  rewrite Hcustom, Hlength. cbn [negb orb].
  destruct (checkForDuplicate _ _); destruct (JS.truthy _);
    try destruct (matchEnumType _) as [ty|]; cbn -[enumValues logError];
    destruct (head (en_members e) ≫= m_initializer) as [initializer|];
    eexists; (split; [|split; [|split; [|reflexivity]]]);
    cbn [customEnums metadataEnumIds extras push_extras push_metadataEnumIds];
    try reflexivity;
    rewrite <- ?app_assoc; by apply prefix_app_r.
Qed.

Lemma walkAll_buildFunctions_ids name nodes :
  ∀ st st',
    walkAll (buildFunctions name) true nodes st = Return st' →
    map as_id (associate st') =
      map as_id (associate st) ++ map fnId (topLevelCustomFunctions nodes).
Proof.
  induction nodes as [|node nodes IH]; intros st st' H.
  - injection H as <-. simpl. by rewrite !app_nil_r.
  - rewrite walkAll_cons in H. apply bind_Return in H as (st1 & Hnode & H).
    rewrite walk_top in Hnode by apply buildFunctions_nested.
    apply IH in H as Hassociate. rewrite Hassociate.
    destruct node as [e|func children|children];
      [by injection Hnode as <-| |by injection Hnode as <-].
    simpl. destruct (isCustomFunction (fn_jsDoc func)) eqn:Hcustom.
    + rewrite (buildFunctions_custom _ _ _ _ Hcustom) in Hnode.
      apply bind_Return in Hnode as (description & _ & Hnode).
      apply bind_Return in Hnode as (r & _ & Hnode). injection Hnode as <-.
      unfold fnFinish. cbn [push_function associate].
      by rewrite !map_app, <- !app_assoc.
    + rewrite (buildFunctions_plain _ _ _ _ Hcustom) in Hnode. by injection Hnode as <-.
Qed.

(** C4 (amended). Whenever [parseTree] returns, every top-level custom
    function has its metadata record and its row in the association table,
    in source order, whatever diagnostics it or the declarations before it
    produce: there are as many records as custom functions, the rows carry
    the declared names in source order, and the ids of the rows are those of
    the records.  A custom enum whose first member contradicts the annotated
    type, or whose values are of inconsistent types, gets its diagnostic as
    the last entry of [extras] and its name in [metadataEnumIds], and no
    enum item; the text after its tag is an ASCII text. *)
Theorem C4_records_of_declarations_with_diagnostics :
  (∀ sourceFile sourceFileName r,
     parseTree sourceFile sourceFileName = Return r →
     length (r_functions r) = length (topLevelCustomFunctions (statements sourceFile)) ∧
     map as_functionName (r_associate r) =
       map fnName (topLevelCustomFunctions (statements sourceFile)) ∧
     map as_id (r_associate r) = map f_id (r_functions r)) ∧
  (∀ e st,
     isCustomEnum (en_jsDoc e) = true →
     JS.isAscii (getTagComment (en_jsDoc e) CUSTOM_ENUM) = true →
     en_members e ≠ [] →
     annotationMismatch e = true ∨
     enumValues (enumIsNumber e) (en_members e) 0 [] = Return None →
     ∃ st',
       buildSingleCustomEnum true (EnumDeclarationNode e) st = Return st' ∧
       customEnums st' = customEnums st ∧
       metadataEnumIds st' = metadataEnumIds st ++ [en_name e] ∧
       last (extras st') =
         Some (errorExtra (logError
                 ((if annotationMismatch e
                   then "Enum type must match the enum type in annotation: "
                   else "Enum value type must be consistent: ") +:+ en_name e)
                 (Some (en_pos e))))).
Proof.
  split.
  - intros sourceFile name r H. unfold parseTree, walkSourceFile in H.
    apply bind_Return in H as (st1 & H1 & H).
    apply bind_Return in H as (st2 & H2 & H).
    apply bind_Return in H as (st3 & H3 & H). injection H as <-. simpl.
    apply (walkAll_relation buildEnums sameFunctionState sameFunctionState_refl
             sameFunctionState_trans buildEnums_sameFunctionState) in H1.
    apply (walkAll_relation buildCustomEnums sameFunctionState sameFunctionState_refl
             sameFunctionState_trans buildCustomEnums_sameFunctionState) in H2.
    destruct (sameFunctionState_trans _ _ _ H1 H2) as (Hassociate & Hfunctions & _).
    pose proof (walkAll_buildFunctions_ids _ _ _ _ H3) as Hids.
    apply walkAll_buildFunctions_records in H3 as [Hnames Hrecords].
    rewrite Hassociate in Hnames, Hids. rewrite Hfunctions in Hrecords.
    simpl in Hnames, Hids, Hrecords. split; [|split].
    + apply (f_equal length) in Hrecords. by rewrite !length_map in Hrecords.
    + exact Hnames.
    + by rewrite Hids, Hrecords.
  - intros e st Hcustom _ Hmembers Hbad.
    destruct (buildSingleCustomEnum_steps e st Hcustom Hmembers)
      as (st1 & Hcustoms & Hids & _ & ->).
    destruct (annotationMismatch e) eqn:Hmismatch.
    + eexists. split; [reflexivity|]. simpl. split; [exact Hcustoms|].
      split; [exact Hids|]. by rewrite last_snoc.
    + destruct Hbad as [Hbad|Hbad]; [discriminate|]. rewrite Hbad. simpl.
      eexists. split; [reflexivity|]. simpl. split; [exact Hcustoms|].
      split; [exact Hids|]. by rewrite last_snoc.
Qed.

Lemma C4_counterexample :
  ∃ r,
    parseTree inconsistentFile "functions.ts" = Return r ∧
    flat_map errors (r_extras r) = ["Enum value type must be consistent: Level (1,1)"] ∧
    r_enums r = [] ∧
    map f_id (r_functions r) = ["ADD"].
Proof. eexists. split; [vm_compute; reflexivity|]. repeat split. Qed.

Lemma C4_witness :
  (length (r_functions inconsistentResult) = 1 ∧
   map as_functionName (r_associate inconsistentResult) = ["add"] ∧
   map as_id (r_associate inconsistentResult) = map f_id (r_functions inconsistentResult)) ∧
  (∃ st',
     buildSingleCustomEnum true (EnumDeclarationNode inconsistentEnum) initialState =
       Return st' ∧
     customEnums st' = [] ∧ metadataEnumIds st' = ["Level"] ∧
     last (extras st') =
       Some (errorExtra "Enum value type must be consistent: Level (1,1)")) ∧
  (∃ st',
     buildSingleCustomEnum true (EnumDeclarationNode mismatchedEnum) initialState =
       Return st' ∧
     customEnums st' = [] ∧ metadataEnumIds st' = ["Level"] ∧
     last (extras st') =
       Some (errorExtra "Enum type must match the enum type in annotation: Level (1,1)")).
Proof.
  destruct C4_records_of_declarations_with_diagnostics as [Hfunctions Henums].
  split; [|split].
  - apply (Hfunctions inconsistentFile "functions.ts" inconsistentResult).
    vm_compute. reflexivity.
  - apply (Henums inconsistentEnum initialState);
      [reflexivity | reflexivity | discriminate |].
    right. reflexivity.
  - apply (Henums mismatchedEnum initialState);
      [reflexivity | reflexivity | discriminate |].
    left. reflexivity.
Defined.

(** * Further evaluations *)

Example parseTree_anonymousMismatch :
  parseTree {| statements := [FunctionDeclarationNode anonymousMismatch []] |} "functions.ts" =
  Throw "TypeError: Cannot read properties of undefined (reading 'text')".
Proof. vm_compute. reflexivity. Qed.

Example parseTree_streamingFromComment :
  match parseTree {| statements := [FunctionDeclarationNode streamingFromComment []] |}
          "functions.js" with
  | Return r => map (λ m, (f_id m, f_parameters m, f_result m)) (r_functions r)
  | Throw _ => []
  end =
  [("FEED", [], Some {| fr_type := Some "string"; fr_dimensionality := Some "matrix" |})].
Proof. vm_compute. reflexivity. Qed.

Example getParameters_generic_arrays :
  (map (λ item, (fp_name item, fp_type item, fp_dimensionality item, fp_repeating item))
       (getParameters genericArrayParameters).1,
   errors (getParameters genericArrayParameters).2) =
  ([("generic", Some "number", Some "matrix", None);
    ("mixed", None, None, Some true)],
   ["Type doesn't match mappings (1,1)"]).
Proof. vm_compute. reflexivity. Qed.

(** The tags are those of the last doc comment: a function whose tag
    stands in an earlier doc comment is no custom function, and gets no
    record. *)
Example isCustomFunction_last :
  isCustomFunction (twoComments [tag "customfunction" None] []) = false ∧
  isCustomFunction (twoComments [] [tag "customfunction" None]) = true.
Proof. split; reflexivity. Qed.

Example parseTree_tagInEarlierComment :
  parseTree
    {| statements :=
         [FunctionDeclarationNode
            {| fn_name := Some "add"; fn_parameters := []; fn_type := None;
               fn_jsDoc := twoComments [tag "customfunction" None] [];
               fn_jsDocReturnType := None; fn_pos := at0; fn_parametersEnd := at0 |} []] |}
    "functions.ts" =
  Return {| r_associate := []; r_extras := []; r_functions := []; r_enums := [] |}.
Proof. vm_compute. reflexivity. Qed.

(** * Further properties: identifiers and names *)

Lemma app_same_nil {A} (l added : list A) : l ++ added = l → added = [].
Proof.
  intros H. apply (f_equal length) in H. rewrite length_app in H.
  destruct added; [reflexivity | simpl in H; lia].
Qed.









(** * Further properties: comparison and normalization of names *)












(** * Further properties: line endings *)

Lemma replaceLineEndings_properties n :
  ∀ s, String.length s ≤ n →
    containsChar carriageReturn (JS.replaceLineEndings s) = false ∧
    (containsChar carriageReturn s = false → JS.replaceLineEndings s = s) ∧
    String.length (JS.replaceLineEndings s) ≤ String.length s.
Proof.
  induction n as [|n IH]; intros s Hlength.
  - destruct s; [|simpl in Hlength; lia]. by repeat split.
  - destruct s as [|c r]; [by repeat split|].
    simpl in Hlength. cbn [JS.replaceLineEndings].
    destruct (Ascii.eqb_spec c "013") as [->|Hc].
    + destruct r as [|d r'].
      * split; [reflexivity|]. split; [discriminate | simpl; lia].
      * simpl in Hlength.
        destruct (Ascii.eqb_spec d "010") as [->|Hd].
        -- destruct (IH r') as (Hnone & _ & Hshort); [lia|].
           split; [exact Hnone|]. split; [discriminate | simpl; lia].
        -- destruct (IH (String d r')) as (Hnone & _ & Hshort); [simpl; lia|].
           split; [exact Hnone|]. split; [discriminate | simpl in *; lia].
    + destruct (IH r) as (Hnone & Hsame & Hshort); [lia|].
      assert (Hne : Ascii.eqb c carriageReturn = false)
        by (by apply Ascii.eqb_neq).
      cbn [containsChar]. rewrite Hne. simpl.
      split; [exact Hnone|]. split; [|lia].
      intros Hr. by rewrite (Hsame Hr).
Qed.

(** X5. [normalizeLineEndings] leaves no carriage return in a text, changes
    nothing in a text without one, never makes a text longer, and applying
    it twice is the same as applying it once; an absent text stays
    absent. *)
Theorem X5_normalizeLineEndings_no_carriage_return :
  normalizeLineEndings None = None ∧
  ∀ text, ∃ text',
    normalizeLineEndings (Some text) = Some text' ∧
    containsChar carriageReturn text' = false ∧
    (containsChar carriageReturn text = false → text' = text) ∧
    String.length text' ≤ String.length text ∧
    normalizeLineEndings (Some text') = Some text'.
Proof.
  split; [reflexivity|]. intros text.
  destruct (replaceLineEndings_properties (String.length text) text) as (Hnone & Hsame & Hshort);
    [lia|].
  destruct text as [|c r]; [by exists ""|].
  exists (JS.replaceLineEndings (String c r)).
  split; [reflexivity|]. split; [exact Hnone|]. split; [exact Hsame|]. split; [exact Hshort|].
  unfold normalizeLineEndings.
  destruct (JS.truthy (JS.replaceLineEndings (String c r))); [|reflexivity].
  f_equal.
  by apply (replaceLineEndings_properties (String.length (JS.replaceLineEndings (String c r)))).
Qed.

(** * Further properties: type expressions of doc comments *)

Lemma append_cons c (a s : string) : String c a +:+ s = String c (a +:+ s).
Proof. reflexivity. Qed.

Lemma append_assoc (a b c : string) : (a +:+ b) +:+ c = a +:+ b +:+ c.
Proof. induction a as [|d a IH]; [reflexivity|]. by rewrite !append_cons, IH. Qed.

Lemma append_nil_r (a : string) : a +:+ "" = a.
Proof. induction a as [|d a IH]; [reflexivity|]. by rewrite append_cons, IH. Qed.

Lemma length_append (a b : string) :
  String.length (a +:+ b) = String.length a + String.length b.
Proof. induction a as [|d a IH]; [reflexivity|]. rewrite append_cons. simpl. by rewrite IH. Qed.

Lemma drop_append (a b : string) : JS.drop (String.length a) (a +:+ b) = b.
Proof. induction a as [|d a IH]; [by destruct b|]. by rewrite append_cons. Qed.

Lemma take_append (a b : string) : JS.take (String.length a) (a +:+ b) = a.
Proof.
  induction a as [|d a IH]; [by destruct b|]. rewrite append_cons. simpl. by rewrite IH.
Qed.

Lemma slice_between (a b c : string) (start stop : Z) :
  start = Z.of_nat (String.length a) →
  stop = Z.of_nat (String.length a + String.length b) →
  JS.slice (a +:+ b +:+ c) start stop = b.
Proof.
  intros -> ->. unfold JS.slice, JS.clampIndex. rewrite !length_append.
  destruct (Z.ltb_spec (Z.of_nat (String.length a)) 0); [lia|].
  destruct (Z.ltb_spec (Z.of_nat (String.length a + String.length b)) 0); [lia|].
  replace (Z.to_nat (Z.min (Z.of_nat (String.length a)) _)) with (String.length a) by lia.
  rewrite drop_append.
  match goal with |- JS.take ?k _ = _ => replace k with (String.length b) by lia end.
  apply take_append.
Qed.

Lemma indexOfFrom_append c (a r : string) (i : Z) :
  containsChar c a = false →
  JS.indexOfFrom c (a +:+ String c r) i = (i + Z.of_nat (String.length a))%Z.
Proof.
  revert i. induction a as [|d a IH]; intros i Habsent.
  - change ("" +:+ String c r) with (String c r). simpl.
    rewrite Ascii.eqb_refl. lia.
  - rewrite append_cons. simpl in *. apply orb_false_elim in Habsent as [Hd Ha].
    rewrite Hd, (IH _ Ha). lia.
Qed.

Lemma indexOfFrom_absent c (a : string) (i : Z) :
  containsChar c a = false → JS.indexOfFrom c a i = (-1)%Z.
Proof.
  revert i. induction a as [|d a IH]; intros i Habsent; [reflexivity|].
  simpl in *. apply orb_false_elim in Habsent as [Hd Ha]. by rewrite Hd, (IH _ Ha).
Qed.

Lemma countChar_append c (a b : string) :
  JS.countChar c (a +:+ b) = JS.countChar c a + JS.countChar c b.
Proof.
  induction a as [|d a IH]; [reflexivity|]. rewrite append_cons. simpl. rewrite IH. lia.
Qed.

Lemma countChar_absent c (a : string) : containsChar c a = false → JS.countChar c a = 0.
Proof.
  induction a as [|d a IH]; intros Habsent; [reflexivity|].
  simpl in *. apply orb_false_elim in Habsent as [Hd Ha]. by rewrite Hd, (IH Ha).
Qed.

Lemma countChar_arrayBrackets n : JS.countChar "[" (arrayBrackets n) = n.
Proof. induction n as [|n IH]; [reflexivity|]. simpl. by rewrite IH. Qed.

Lemma jsDocParamTypeOf_generic (outer base : string) (n : nat) :
  containsChar "<" outer = false →
  containsChar "[" base = false →
  jsDocParamTypeOf (genericTypeExpression outer base n) =
    {| jt_type := outer;
       jt_returnType := Some base;
       jt_dimensionality :=
         match n with
         | 0 => None
         | 1 => Some "scalar"
         | _ => Some "matrix"
         end |}.
Proof.
  intros Houter Hbase.
  set (sub := base +:+ arrayBrackets n).
  set (param := outer +:+ "<" +:+ sub +:+ ">").
  assert (Hexpression : genericTypeExpression outer base n = "{" +:+ param +:+ "}").
  { unfold genericTypeExpression, param, sub.
    by rewrite !append_assoc. }
  assert (Hparam : JS.slice (genericTypeExpression outer base n) 1
                     (Z.of_nat (String.length (genericTypeExpression outer base n)) - 1)
                   = param).
  { rewrite Hexpression. apply slice_between; [reflexivity|].
    rewrite !length_append. simpl. lia. }
  assert (Hopen : JS.indexOf param "<" = Z.of_nat (String.length outer)).
  { unfold JS.indexOf, param. change ("<" +:+ sub +:+ ">") with (String "<" (sub +:+ ">")).
    by rewrite indexOfFrom_append. }
  assert (Hsub : JS.slice param (Z.of_nat (String.length outer) + 1)
                   (Z.of_nat (String.length param) - 1) = sub).
  { unfold param. rewrite <- (append_assoc outer "<").
    apply slice_between; rewrite !length_append; simpl; lia. }
  assert (Htype : JS.slice param 0 (Z.of_nat (String.length outer)) = outer).
  { unfold param. by apply (slice_between "" outer). }
  assert (Hcount : JS.countChar "[" sub = n).
  { unfold sub. by rewrite countChar_append, countChar_absent, countChar_arrayBrackets. }
  unfold jsDocParamTypeOf. cbv zeta.
  rewrite Hparam, Hopen, Hsub, Htype, Hcount.
  destruct (Z.ltb_spec (-1) (Z.of_nat (String.length outer))); [|lia].
  destruct n as [|n]; [by unfold sub; cbn [arrayBrackets]; rewrite append_nil_r|].
  cbn [Nat.ltb Nat.leb]. f_equal.
  + f_equal. unfold sub. cbn [arrayBrackets].
    unfold JS.indexOf. rewrite indexOfFrom_append by done.
    by apply (slice_between "" base).
  + by destruct n.
Qed.

(** X6. [getJSDocParamsType] reads a type expression [{Outer<Base[]...[]>}]
    of a doc comment as type [Outer] with return type [Base]; the
    dimensionality is absent without brackets, "scalar" for one pair of
    brackets and "matrix" for two or more.  An expression [{T}] without an
    angle bracket gives type [T] and nothing else. *)
Theorem X6_jsDocParamTypeOf_reads_generic_type :
  (∀ outer base n,
     containsChar "<" outer = false →
     containsChar "[" base = false →
     jsDocParamTypeOf (genericTypeExpression outer base n) =
       {| jt_type := outer;
          jt_returnType := Some base;
          jt_dimensionality :=
            match n with
            | 0 => None
            | 1 => Some "scalar"
            | _ => Some "matrix"
            end |}) ∧
  (∀ t, containsChar "<" t = false →
     jsDocParamTypeOf ("{" +:+ t +:+ "}") =
       {| jt_type := t; jt_returnType := None; jt_dimensionality := None |}).
Proof.
  split.
  - apply jsDocParamTypeOf_generic.
  - intros t Ht. unfold jsDocParamTypeOf. cbv zeta.
    assert (Hparam : JS.slice ("{" +:+ t +:+ "}") 1
                       (Z.of_nat (String.length ("{" +:+ t +:+ "}")) - 1) = t).
    { apply slice_between; [reflexivity|]. rewrite !length_append. simpl. lia. }
    rewrite Hparam. unfold JS.indexOf. by rewrite indexOfFrom_absent.
Qed.

Lemma X6_witness :
  jsDocParamTypeOf "{Promise<number[][]>}" =
    {| jt_type := "Promise"; jt_returnType := Some "number";
       jt_dimensionality := Some "matrix" |} ∧
  jsDocParamTypeOf "{Array<string[]>}" =
    {| jt_type := "Array"; jt_returnType := Some "string";
       jt_dimensionality := Some "scalar" |} ∧
  jsDocParamTypeOf "{number}" =
    {| jt_type := "number"; jt_returnType := None; jt_dimensionality := None |}.
Proof.
  destruct X6_jsDocParamTypeOf_reads_generic_type as [Hgeneric Hplain].
  split; [|split].
  - apply (Hgeneric "Promise" "number" 2); reflexivity.
  - apply (Hgeneric "Array" "string" 1); reflexivity.
  - apply (Hplain "number"). reflexivity.
Defined.

(** * Further properties: the tables of the [@param] tags *)

Section Assignments.
Context {A V : Type}.
Variable key : A → string.
Variable val : A → V.



End Assignments.







(** * Further properties: the role of the last parameter *)












(** * Further properties: the records of the custom functions *)

Lemma walkAll_buildFunctions_emitted name nodes :
  ∀ st st',
    walkAll (buildFunctions name) true nodes st = Return st' →
    ∃ emitted,
      functions st' = functions st ++ emitted ∧
      Forall2 emittedFrom emitted (topLevelCustomFunctions nodes).
Proof.
  induction nodes as [|node nodes IH]; intros st st' H.
  - injection H as <-. exists []. split; [by rewrite app_nil_r | constructor].
  - rewrite walkAll_cons in H. apply bind_Return in H as (st1 & Hnode & H).
    rewrite walk_top in Hnode by apply buildFunctions_nested.
    apply IH in H as (emitted & Hfunctions & Hall).
    destruct node as [e|func children|children];
      [injection Hnode as <-; exists emitted; split; [exact Hfunctions | exact Hall]
      |
      |injection Hnode as <-; exists emitted; split; [exact Hfunctions | exact Hall]].
    cbn [topLevelCustomFunctions].
    destruct (isCustomFunction (fn_jsDoc func)) eqn:Hcustom.
    + rewrite (buildFunctions_custom _ _ _ _ Hcustom) in Hnode.
      apply bind_Return in Hnode as (description & Hdescription & Hnode).
      apply bind_Return in Hnode as ([result extra] & Hr & Hnode). injection Hnode as <-.
      exists (fnMetadata func st description result extra :: emitted). split.
      * rewrite Hfunctions. unfold fnFinish. cbn [push_function functions fst snd].
        rewrite <- app_assoc. reflexivity.
      * constructor; [|exact Hall]. by exists st, description, result, extra.
    + rewrite (buildFunctions_plain _ _ _ _ Hcustom) in Hnode. injection Hnode as <-.
      exists emitted. split; [exact Hfunctions | exact Hall].
Qed.

Lemma parseTree_emitted sourceFile name r :
  parseTree sourceFile name = Return r →
  Forall2 emittedFrom (r_functions r) (topLevelCustomFunctions (statements sourceFile)).
Proof.
  intros H. unfold parseTree, walkSourceFile in H.
  apply bind_Return in H as (st1 & H1 & H).
  apply bind_Return in H as (st2 & H2 & H).
  apply bind_Return in H as (st3 & H3 & H). injection H as <-. simpl.
  apply (walkAll_relation buildEnums sameFunctionState sameFunctionState_refl
           sameFunctionState_trans buildEnums_sameFunctionState) in H1.
  apply (walkAll_relation buildCustomEnums sameFunctionState sameFunctionState_refl
           sameFunctionState_trans buildCustomEnums_sameFunctionState) in H2.
  assert (Hfunctions : functions st2 = []).
  { destruct H2 as (_ & -> & _). by destruct H1 as (_ & -> & _). }
  apply walkAll_buildFunctions_emitted in H3 as (emitted & Hemitted & Hall).
  rewrite Hemitted, Hfunctions. exact Hall.
Qed.


Lemma fnParametersToParse_cases func :
  (lastParameterHasRole func = false ∧ fnParametersToParse func = fn_parameters func) ∨
  (∃ p, lastParameterHasRole func = true ∧ last (fn_parameters func) = Some p ∧
        fn_parameters func = fnParametersToParse func ++ [p]).
Proof.
  unfold lastParameterHasRole, fnParametersToParse.
  destruct (fnStreaming func || fnCancelable func || fnInvocation func) eqn:Hrole;
    [right | by left].
  unfold fnStreaming, fnCancelable, fnInvocation, fnLast in Hrole.
  destruct (fn_parameters func) as [|q ps _] using rev_ind; [discriminate|].
  exists q. split; [reflexivity|]. split; [apply last_snoc|].
  rewrite length_app. cbn [length].
  replace (length ps + 1 - 1) with (length ps) by lia.
  by rewrite take_app_length.
Qed.

(** X9. The parameters of an emitted function are the declared parameters
    in their order, under their declared names; the last declared parameter
    is left out exactly when it is a streaming, cancelable or invocation
    parameter, and no other parameter is ever left out. *)
Theorem X9_emitted_parameters_drop_only_last_role
    (sourceFile : SourceFile) (sourceFileName : string) (r : IParseTreeResult) :
  parseTree sourceFile sourceFileName = Return r →
  Forall2 (λ f func,
      (lastParameterHasRole func = false ∧
       map fp_name (f_parameters f) = map p_name (fn_parameters func)) ∨
      (∃ p, lastParameterHasRole func = true ∧
            last (fn_parameters func) = Some p ∧
            map p_name (fn_parameters func) = map fp_name (f_parameters f) ++ [p_name p]))
    (r_functions r) (topLevelCustomFunctions (statements sourceFile)).
Proof.
  intros Hparse. apply parseTree_emitted in Hparse.
  eapply Forall2_impl; [exact Hparse|]. clear.
  intros f func (st & description & result & extra & _ & _ & ->).
  unfold fnMetadata. cbn [f_parameters].
  rewrite getParameters_names. cbn [fnParameterItems ga_parametersToParse].
  destruct (fnParametersToParse_cases func) as [[Hrole ->]|(p & Hrole & Hlast & Hsplit)].
  - by left.
  - right. exists p. split; [exact Hrole|]. split; [exact Hlast|].
    rewrite Hsplit at 1. by rewrite map_app.
Qed.

Lemma X9_witness :
  Forall2 (λ f func,
      (lastParameterHasRole func = false ∧
       map fp_name (f_parameters f) = map p_name (fn_parameters func)) ∨
      (∃ p, lastParameterHasRole func = true ∧
            last (fn_parameters func) = Some p ∧
            map p_name (fn_parameters func) = map fp_name (f_parameters f) ++ [p_name p]))
    (r_functions documentedResult) (topLevelCustomFunctions (statements documentedFile)).
Proof.
  apply (X9_emitted_parameters_drop_only_last_role documentedFile "functions.ts").
  vm_compute. reflexivity.
Defined.

Lemma getParamDim_values typeNode : getParamDim typeNode = "scalar" ∨ getParamDim typeNode = "matrix".
Proof.
  unfold getParamDim. destruct typeNode as [t|]; [|by left].
  destruct (isTypeReferenceNode t || isArrayTypeNode t); [|by left].
  destruct (1 <? at_dimensionality (getArrayDimensionalityAndType t)); [by right | by left].
Qed.




(** A parameter named [constructor] without a tag keeps the inherited member
    as its description and as its optional flag. *)
Example getParameter_constructor :
  let item := (getParameter threeArrayParameters noExtra (parameter "constructor" None)).1 in
  fp_description item = Some (JS.Inherited "constructor") ∧
  fp_optional item = Some (JS.Inherited "constructor").
Proof. split; reflexivity. Qed.

(** * Further properties: the options of a custom function *)

Lemma keepIfTrue_values b : keepIfTrue b = None ∨ keepIfTrue b = Some true.
Proof. destruct b as [[|]|]; by (left + right). Qed.

Lemma pruneOptions_None o :
  pruneOptions o = None → Forall (λ flag, isTrue flag = false) (optionFlags o).
Proof.
  unfold pruneOptions. intros H. case_match eqn:Hall; [clear H|discriminate].
  repeat (apply andb_prop in Hall as [Hall ?%negb_true_iff]).
  apply negb_true_iff in Hall. unfold optionFlags. by repeat constructor.
Qed.

Lemma pruneOptions_Some o o' :
  pruneOptions o = Some o' →
  optionFlags o' = map keepIfTrue (optionFlags o) ∧
  Exists (λ flag, isTrue flag = true) (optionFlags o).
Proof.
  unfold pruneOptions. intros H. case_match eqn:Hall; [discriminate|].
  injection H as <-. split; [reflexivity|].
  unfold optionFlags.
  repeat match goal with
         | |- Exists _ (?b :: _) =>
             destruct (isTrue b) eqn:?; [by apply Exists_cons_hd | apply Exists_cons_tl]
         end.
  repeat match goal with
         | H : isTrue _ = false |- _ => rewrite H in Hall; clear H
         end.
  discriminate.
Qed.

Lemma pruneOptions_getOptions func s c i extra :
  match pruneOptions (getOptions func s c i extra).1 with
  | None =>
      s = false ∧ c = false ∧ Forall (λ t, hasTag (fn_jsDoc func) t = false) optionTags
  | Some o =>
      Forall (λ flag, flag = None ∨ flag = Some true) (optionFlags o) ∧
      Exists (λ flag, flag = Some true) (optionFlags o) ∧
      (stream o = Some true ↔ s = true ∨ hasTag (fn_jsDoc func) STREAMING = true) ∧
      (cancelable o = Some true ↔ c = true ∨ hasTag (fn_jsDoc func) CANCELABLE = true)
  end.
Proof.
  destruct (pruneOptions _) as [o|] eqn:Hprune.
  - pose proof Hprune as [Hflags Hexists]%pruneOptions_Some.
    rewrite Hflags. split; [|split].
    + apply Forall_map, Forall_true. intros flag. apply keepIfTrue_values.
    + apply Exists_exists in Hexists as (flag & Hin & Htrue).
      apply Exists_exists. exists (keepIfTrue flag).
      split; [by apply list_elem_of_fmap_2|]. unfold keepIfTrue. rewrite Htrue.
      by destruct flag as [[|]|].
    + unfold pruneOptions in Hprune. case_match; [discriminate|].
      injection Hprune as <-. cbn [stream cancelable]. rewrite !keepIfTrue_true.
      unfold getOptions. cbn [fst stream cancelable]. unfold isStreaming, isCancelableTag.
      split; (split; [intros [= Hflag]; by apply orb_prop in Hflag
                     | intros Hflag; f_equal; apply orb_true_iff; exact Hflag]).
  - apply pruneOptions_None in Hprune. unfold optionFlags, getOptions in Hprune.
    cbn [fst cancelable requiresAddress requiresStreamAddress stream volatile
         requiresParameterAddresses requiresStreamParameterAddresses
         excludeFromAutoComplete linkedEntityLoadService capturesCallingObject] in Hprune.
    rewrite !Forall_cons in Hprune. cbn [isTrue] in Hprune.
    destruct Hprune as (H1 & H2 & H3 & H4 & H5 & H6 & H7 & H8 & H9 & H10 & _).
    unfold isCancelableTag in H1. unfold isStreaming in *.
    assert (Hbool : ∀ b : bool, (if b then true else false) = false → b = false)
      by (by intros []).
    apply Hbool in H1, H2, H3, H4, H5, H6, H7, H8, H9, H10.
    apply orb_false_elim in H1 as [-> Htc], H4 as [-> Hts].
    rewrite Hts in H2, H6. cbn [orb negb] in H2, H6. rewrite andb_true_r in H2, H6.
    unfold optionTags. split; [reflexivity|]. split; [reflexivity|].
    by repeat constructor.
Qed.

(** X11. Of the options of an emitted function no flag is ever [false]: a
    flag is [true] or absent, and a block that is present has at least one
    flag.  The block is absent only when the last parameter is neither a
    streaming nor a cancelable parameter and the doc comment has none of the
    tags that set a flag; an invocation parameter alone sets no flag.  The
    stream flag is set exactly for a streaming parameter or a
    [@streaming] tag, the cancelable flag exactly for a cancelable parameter
    or a [@cancelable] tag. *)
Theorem X11_options_true_or_absent
    (sourceFile : SourceFile) (sourceFileName : string) (r : IParseTreeResult) :
  parseTree sourceFile sourceFileName = Return r →
  Forall2 (λ f func,
      match f_options f with
      | None =>
          fnStreaming func = false ∧ fnCancelable func = false ∧
          Forall (λ t, hasTag (fn_jsDoc func) t = false) optionTags
      | Some o =>
          Forall (λ flag, flag = None ∨ flag = Some true) (optionFlags o) ∧
          Exists (λ flag, flag = Some true) (optionFlags o) ∧
          (stream o = Some true ↔
           fnStreaming func = true ∨ hasTag (fn_jsDoc func) STREAMING = true) ∧
          (cancelable o = Some true ↔
           fnCancelable func = true ∨ hasTag (fn_jsDoc func) CANCELABLE = true)
      end)
    (r_functions r) (topLevelCustomFunctions (statements sourceFile)).
Proof.
  intros Hparse. apply parseTree_emitted in Hparse.
  eapply Forall2_impl; [exact Hparse|]. clear.
  intros f func (st & description & result & extra & _ & _ & ->).
  unfold fnMetadata. cbn [f_options]. apply pruneOptions_getOptions.
Qed.

Lemma X11_witness :
  Forall2 (λ f func,
      match f_options f with
      | None =>
          fnStreaming func = false ∧ fnCancelable func = false ∧
          Forall (λ t, hasTag (fn_jsDoc func) t = false) optionTags
      | Some o =>
          Forall (λ flag, flag = None ∨ flag = Some true) (optionFlags o) ∧
          Exists (λ flag, flag = Some true) (optionFlags o) ∧
          (stream o = Some true ↔
           fnStreaming func = true ∨ hasTag (fn_jsDoc func) STREAMING = true) ∧
          (cancelable o = Some true ↔
           fnCancelable func = true ∨ hasTag (fn_jsDoc func) CANCELABLE = true)
      end)
    (r_functions documentedResult) (topLevelCustomFunctions (statements documentedFile)).
Proof.
  apply (X11_options_true_or_absent documentedFile "functions.ts").
  vm_compute. reflexivity.
Defined.

(** * Further properties: nested declarations *)

Lemma bind_Return_r {A} (m : Outcome A) : m ≫= (λ a, Return a) = m.
Proof. by destruct m. Qed.

Lemma basicEnumsIn_untagged node :
  Forall (λ e, isCustomEnum (en_jsDoc e) = false) (basicEnumsIn node).
Proof.
  induction node as [e|f children IH|children IH] using Node_nested_ind.
  - simpl. destruct (isCustomEnum (en_jsDoc e)) eqn:He; by repeat constructor.
  - simpl. induction IH as [|c r Hc _ IHr]; simpl; [constructor | by apply Forall_app].
  - simpl. induction IH as [|c r Hc _ IHr]; simpl; [constructor | by apply Forall_app].
Qed.

Lemma flat_map_basicEnumsIn_untagged nodes :
  Forall (λ e, isCustomEnum (en_jsDoc e) = false) (flat_map basicEnumsIn nodes).
Proof.
  induction nodes as [|c r IH]; simpl; [constructor|].
  apply Forall_app. split; [apply basicEnumsIn_untagged | exact IH].
Qed.

Lemma basicEnumsIn_declarations (basics : list EnumDeclaration) :
  Forall (λ e, isCustomEnum (en_jsDoc e) = false) basics →
  flat_map basicEnumsIn (map EnumDeclarationNode basics) = basics.
Proof.
  induction 1 as [|e r He _ IH]; [reflexivity|]. simpl. by rewrite He, IH.
Qed.

Lemma basicEnumsIn_hoisted node : flat_map basicEnumsIn (hoisted node) = basicEnumsIn node.
Proof.
  unfold hoisted. cbn [flat_map].
  rewrite basicEnumsIn_declarations by apply flat_map_basicEnumsIn_untagged.
  destruct node as [e|f children|children]; simpl; [by rewrite app_nil_r | done..].
Qed.

Lemma flat_map_basicEnumsIn_hoisted nodes :
  flat_map basicEnumsIn (flat_map hoisted nodes) = flat_map basicEnumsIn nodes.
Proof.
  induction nodes as [|c r IH]; [reflexivity|].
  cbn [flat_map]. by rewrite flat_map_app, basicEnumsIn_hoisted, IH.
Qed.

Lemma pushBasicEnums_app names1 names2 st :
  pushBasicEnums (names1 ++ names2) st = pushBasicEnums names2 (pushBasicEnums names1 st).
Proof. apply foldl_app. Qed.

Lemma walkAll_buildEnums_of top nodes :
  Forall (λ node, ∀ top st,
            walk buildEnums top node st =
            Return (pushBasicEnums (map en_name (basicEnumsIn node)) st)) nodes →
  ∀ st, walkAll buildEnums top nodes st =
        Return (pushBasicEnums (map en_name (flat_map basicEnumsIn nodes)) st).
Proof.
  induction 1 as [|c r Hc _ IH]; intros st; [reflexivity|].
  rewrite walkAll_cons, Hc. cbn [mbind Outcome_bind]. rewrite IH.
  cbn [flat_map]. by rewrite map_app, pushBasicEnums_app.
Qed.

Lemma walk_buildEnums node :
  ∀ top st, walk buildEnums top node st =
            Return (pushBasicEnums (map en_name (basicEnumsIn node)) st).
Proof.
  induction node as [e|f children IH|children IH] using Node_nested_ind;
    intros top st; rewrite walk_unfold.
  - simpl. by destruct (isCustomEnum (en_jsDoc e)).
  - simpl. by apply walkAll_buildEnums_of.
  - simpl. by apply walkAll_buildEnums_of.
Qed.

Lemma walkAll_buildEnums top nodes st :
  walkAll buildEnums top nodes st =
  Return (pushBasicEnums (map en_name (flat_map basicEnumsIn nodes)) st).
Proof.
  apply walkAll_buildEnums_of, Forall_forall. intros node _. apply walk_buildEnums.
Qed.

Section Hoisting.
Variable visit : bool → Node → State → Outcome State.
Hypothesis visit_nested : ∀ node st, visit false node st = Return st.
Hypothesis visit_children : ∀ node st, visit true (withoutChildren node) st = visit true node st.
Hypothesis visit_untagged :
  ∀ e st, isCustomEnum (en_jsDoc e) = false → visit true (EnumDeclarationNode e) st = Return st.

Lemma walkAll_untagged basics st :
  Forall (λ e, isCustomEnum (en_jsDoc e) = false) basics →
  walkAll visit true (map EnumDeclarationNode basics) st = Return st.
Proof.
  induction 1 as [|e r He _ IH]; [reflexivity|].
  cbn [map]. rewrite walkAll_cons, (walk_top visit visit_nested), (visit_untagged _ _ He).
  exact IH.
Qed.

Lemma walkAll_hoisted nodes :
  ∀ st, walkAll visit true (flat_map hoisted nodes) st = walkAll visit true nodes st.
Proof.
  induction nodes as [|node nodes IH]; intros st; [reflexivity|].
  cbn [flat_map]. rewrite walkAll_app, walkAll_cons.
  change (hoisted node) with
    (withoutChildren node ::
     map EnumDeclarationNode (flat_map basicEnumsIn (childrenOf node))).
  rewrite walkAll_cons, !(walk_top visit visit_nested), visit_children.
  destruct (visit true node st) as [st1|e]; [|reflexivity].
  cbn [mbind Outcome_bind].
  rewrite walkAll_untagged by apply flat_map_basicEnumsIn_untagged.
  cbn [mbind Outcome_bind]. apply IH.
Qed.
End Hoisting.

(** X12. What is nested in a statement of the file counts for one thing
    only: the names of the enums without the custom-enum tag, which are
    recorded at any depth.  Nested functions and nested custom enums are
    ignored altogether, so [parseTree] gives the same outcome on the file
    whose statements have lost their children and are followed by the
    untagged enums that were nested in them. *)
Theorem X12_nested_declarations_count_for_untagged_enums_only
    (sourceFile : SourceFile) (sourceFileName : string) :
  parseTree sourceFile sourceFileName =
  parseTree {| statements := flat_map hoisted (statements sourceFile) |} sourceFileName.
Proof.
  unfold parseTree, walkSourceFile. cbn [statements].
  rewrite !walkAll_buildEnums, flat_map_basicEnumsIn_hoisted. cbn [mbind Outcome_bind].
  rewrite (walkAll_hoisted buildCustomEnums).
  - destruct (walkAll buildCustomEnums true (statements sourceFile) _) as [st2|e];
      [|reflexivity].
    cbn [mbind Outcome_bind].
    rewrite (walkAll_hoisted (buildFunctions sourceFileName)); [reflexivity|..].
    + apply buildFunctions_nested.
    + by intros [e|f children|children] st.
    + by intros e st _.
  - apply buildCustomEnums_nested.
  - by intros [e|f children|children] st.
  - intros e st He. simpl. by rewrite He.
Qed.

(** * Further properties: the items of the custom enums *)


Lemma buildSingleCustomEnum_skipped e st :
  isCustomEnum (en_jsDoc e) = false ∨ en_members e = [] →
  buildSingleCustomEnum true (EnumDeclarationNode e) st = Return st.
Proof.
  intros H. unfold buildSingleCustomEnum. cbn [negb].
  destruct H as [-> | ->]; [reflexivity|].
  by rewrite orb_true_r.
Qed.






(** * Further properties: the result of a function *)

Lemma getResults_signature_flow func s lastParameter info extra basic custom flow extra1 :
  getResults_signature func s lastParameter info extra basic custom = Return (flow, extra1) →
  match flow with
  | Returned item =>
      s = true ∧
      ∃ param, lastParameter = Some param ∧
        ((p_type param = None ∧ extra1 = extra ∧
          ∃ ptype, paramTypeOf info (p_name param) = Some ptype ∧
            item = {| fr_type := ptype_returnType ptype;
                      fr_dimensionality :=
                        if bool_decide (ptype_dimensionality ptype = Some "scalar")
                        then None else ptype_dimensionality ptype |}) ∨
         (is_Some (p_type param) ∧ item = defaultResultItem ∧
          ∃ message, message ∈ streamingDiagnostics ∧
            extra1 = pushError extra (logError message (Some (p_pos param)))))
  | Continue (resultType, resultDim) => resultDim = "scalar" ∨ resultDim = "matrix"
  end.
Proof.
  unfold getResults_signature. intros H. cbv zeta in H.
  assert (Hfirst : ∀ (message : string) (rest : list string), message ∈ message :: rest)
    by (intros; apply elem_of_cons; by left).
  assert (Hsecond : ∀ (a message : string) (rest : list string),
            message ∈ a :: message :: rest)
    by (intros; apply elem_of_cons; right; apply elem_of_cons; by left).
  destruct s.
  - destruct lastParameter as [param|]; [|discriminate].
    destruct (p_type param) as [ty|] eqn:Htype.
    + destruct (typeArgumentsOf ty) as [[|argument [|argument' arguments]]|];
        try (injection H as <- <-; split; [reflexivity|]; exists param;
             split; [reflexivity|]; right; split; [by eexists|];
             split; [reflexivity|]; eexists; split; [apply Hfirst | reflexivity]).
      match type of H with
      | (if ?c then _ else _) = _ => destruct c
      end.
      * injection H as <- <-. split; [reflexivity|]. exists param.
        split; [reflexivity|]. right. split; [by eexists|].
        split; [reflexivity|]. eexists. split; [apply Hsecond | reflexivity].
      * destruct (getParamType (Some argument) extra basic custom) as [ptype extra2].
        injection H as <- <-. apply (getParamDim_values (Some argument)).
    + destruct (paramTypeOf info (p_name param)) as [ptype|] eqn:Hinfo; [|discriminate].
      injection H as <- <-. split; [reflexivity|]. exists param.
      split; [reflexivity|]. left. split; [exact Htype|]. split; [reflexivity|].
      by exists ptype.
  - destruct (fn_type func) as [type|]; [|injection H as <- <-; by left].
    destruct (getParamType (Some (default type (promiseArgument type))) extra basic custom)
      as [ptype extra2].
    injection H as <- <-.
    apply (getParamDim_values (Some (default type (promiseArgument type)))).
Qed.

Lemma getResults_jsDoc_dimensionality func resultType resultDim extra basic custom r :
  resultDim = "scalar" ∨ resultDim = "matrix" →
  getResults_jsDoc func resultType resultDim extra basic custom = Return r →
  r.1.2 = "scalar" ∨ r.1.2 = "matrix".
Proof.
  unfold getResults_jsDoc. intros Hdim H.
  destruct (fn_jsDocReturnType func) as [returnType|]; [|by injection H as <-].
  apply bind_Return in H as (extra1 & _ & H).
  destruct (getParamType (Some (default returnType (promiseArgument returnType)))
              extra1 basic custom) as [ptype extra2].
  injection H as <-.
  apply (getParamDim_values (Some (default returnType (promiseArgument returnType)))).
Qed.

Lemma getResults_item_shape resultType resultDim :
  resultDim = "scalar" ∨ resultDim = "matrix" →
  fr_type (getResults_item resultType resultDim) ≠ Some "any" ∧
  (fr_dimensionality (getResults_item resultType resultDim) = None ∨
   fr_dimensionality (getResults_item resultType resultDim) = Some "matrix").
Proof.
  intros Hdim. unfold getResults_item. cbn [fr_type fr_dimensionality]. split.
  - destruct resultType as [t|]; [|by rewrite bool_decide_eq_false_2].
    destruct (bool_decide (t ∈ tableValues CELLVALUETYPE_MAPPINGS));
      [by rewrite bool_decide_eq_true_2|].
    case_bool_decide as Hany; [discriminate|]. exact Hany.
  - destruct Hdim as [-> | ->]; [by left | by right].
Qed.

(** X14. The result of [getResults] carries the explicit defaults, type
    "any" or dimensionality "scalar", in one case only: a streaming
    function whose handler type does not have exactly one type argument, or
    which declares a return type other than [void]; then the result is the
    default item with both fields and exactly one diagnostic is added, at
    the position of the last parameter.  In every other case in which the
    type of the result is not read from the doc comment of the handler, the
    type is never "any" and the dimensionality is "matrix" or absent. *)
Theorem X14_result_defaults_only_with_streaming_diagnostic
    (func : FunctionDeclaration) (isStreamingFunction : bool)
    (lastParameter : option ParameterDeclaration) (info : JS.Object IJsDocParamType)
    (extra : IFunctionExtras) (basic : list string) (custom : list IEnum)
    (item : IFunctionResult) (extra' : IFunctionExtras) :
  getResults func isStreamingFunction lastParameter info extra basic custom
    = Return (item, extra') →
  (isStreamingFunction = true → ∃ param, lastParameter = Some param ∧ is_Some (p_type param)) →
  (isStreamingFunction = true ∧ item = defaultResultItem ∧
   ∃ message, message ∈ streamingDiagnostics ∧
     extra' = pushError extra (logError message (p_pos <$> lastParameter))) ∨
  (fr_type item ≠ Some "any" ∧
   (fr_dimensionality item = None ∨ fr_dimensionality item = Some "matrix")).
Proof.
  unfold getResults. intros H Htyped.
  apply bind_Return in H as ([flow extra1] & Hsignature & H).
  apply getResults_signature_flow in Hsignature.
  destruct flow as [item1|[resultType resultDim]].
  - injection H as <- <-.
    destruct Hsignature as (-> & param & -> & [(Hnone & _)|(_ & -> & message & Hin & ->)]).
    + destruct (Htyped eq_refl) as (param' & [= <-] & Hsome).
      rewrite Hnone in Hsome. by destruct Hsome.
    + left. split; [reflexivity|]. split; [reflexivity|]. by exists message.
  - apply bind_Return in H as ([[resultType' resultDim'] extra2] & HjsDoc & H).
    apply getResults_jsDoc_dimensionality in HjsDoc; [|exact Hsignature].
    injection H as <- <-. right. by apply getResults_item_shape.
Qed.

(** X15. For a streaming function whose handler has no declared type, the
    result is read from the doc comment of the handler and nothing else:
    with the type expression [{Outer<Base[]...[]>}] the type of the result
    is the text [Base] as written, the dimensionality is "matrix" for two
    or more pairs of brackets and absent otherwise, no diagnostic is added,
    and the declared return type and the return tag are not looked at. *)
Theorem X15_streaming_result_from_doc_comment
    (func : FunctionDeclaration) (param : ParameterDeclaration)
    (info : JS.Object IJsDocParamType) (extra : IFunctionExtras)
    (basic : list string) (custom : list IEnum) (outer base : string) (n : nat) :
  p_type param = None →
  paramTypeOf info (p_name param) =
    Some (JS.Own (jsDocParamTypeOf (genericTypeExpression outer base n))) →
  containsChar "<" outer = false →
  containsChar "[" base = false →
  getResults func true (Some param) info extra basic custom =
    Return ({| fr_type := Some base;
               fr_dimensionality := if 2 <=? n then Some "matrix" else None |}, extra).
Proof.
  intros Htype Hinfo Houter Hbase.
  unfold getResults, getResults_signature. cbv zeta. rewrite Htype, Hinfo.
  cbn [mbind Outcome_bind].
  pose proof (jsDocParamTypeOf_generic outer base n Houter Hbase) as Hread.
  cbn [ptype_returnType ptype_dimensionality].
  rewrite Hread. cbn [jt_returnType jt_dimensionality].
  by destruct n as [|[|n]].
Qed.

Lemma X14_witness :
  (true = true ∧ defaultResultItem = defaultResultItem ∧
   ∃ message, message ∈ streamingDiagnostics ∧
     pushError noExtra
       (logError
          "A streaming function should return 'void'. Use CustomFunctions.StreamingHandler.setResult() to set results."
          (Some at0)) =
     pushError noExtra (logError message (p_pos <$> Some numberHandler))) ∨
  (fr_type defaultResultItem ≠ Some "any" ∧
   (fr_dimensionality defaultResultItem = None ∨
    fr_dimensionality defaultResultItem = Some "matrix")).
Proof.
  apply (X14_result_defaults_only_with_streaming_diagnostic streamingReturningNumber true
           (Some numberHandler) ∅ noExtra [] []).
  - vm_compute. reflexivity.
  - intros _. exists numberHandler. split; [reflexivity|]. vm_compute. by eexists.
Defined.

Lemma X15_witness :
  getResults streamingReturningNumber true (Some (parameter "handler" None))
    documentedHandlerTypes noExtra [] [] =
  Return ({| fr_type := Some "number"; fr_dimensionality := Some "matrix" |}, noExtra).
Proof.
  apply (X15_streaming_result_from_doc_comment streamingReturningNumber
           (parameter "handler" None) documentedHandlerTypes noExtra [] []
           "CustomFunctions.StreamingHandler" "number" 2).
  - reflexivity.
  - vm_compute. reflexivity.
  - reflexivity.
  - reflexivity.
Defined.

Lemma getParamType_type_independent node extra extra' basic custom :
  (getParamType node extra basic custom).1 = (getParamType node extra' basic custom).1.
Proof.
  unfold getParamType. destruct node as [node|]; [|reflexivity]. cbv zeta.
  destruct (if typeNodeIsArray node then _ else _) as [pos e|pos n args|pos k text];
    [reflexivity| |reflexivity].
  destruct (bool_decide (n ∈ basic)); [reflexivity|].
  destruct (List.find _ custom); [reflexivity|].
  cbv zeta. destruct (JS.isTruthy JS.truthy (tableGet CELLVALUETYPE_MAPPINGS n));
    [|reflexivity].
  by destruct (bool_decide (tableGet CELLVALUETYPE_MAPPINGS n = Some (JS.Own "unsupported"))).
Qed.



Lemma getResults_jsDoc_tail (node : option TypeNode) (extra extra0 : IFunctionExtras)
    (basic : list string) (custom : list IEnum) (resultDim : string) :
  ∃ extra1,
    (let '(ptype, extra2) := getParamType node extra0 basic custom in
     Return (pt_type ptype, resultDim, extra2)) =
    Return (pt_type (getParamType node extra basic custom).1, resultDim, extra1).
Proof.
  rewrite (getParamType_type_independent node extra extra0).
  destruct (getParamType node extra0 basic custom). by eexists.
Qed.

Lemma getResults_jsDoc_tag func r resultType resultDim extra extra0 basic custom :
  fn_jsDocReturnType func = Some r →
  is_Some (fn_name func) →
  ∃ extra1,
    getResults_jsDoc func resultType resultDim extra0 basic custom =
    Return (pt_type (getParamType (Some (default r (promiseArgument r))) extra basic
                       custom).1,
            getParamDim (Some (default r (promiseArgument r))), extra1).
Proof.
  intros Hreturn [name Hname]. unfold getResults_jsDoc. rewrite Hreturn, Hname.
  destruct (fn_type func) as [type|]; [|apply getResults_jsDoc_tail].
  destruct (negb (bool_decide (kind type = kind r))); apply getResults_jsDoc_tail.
Qed.

(** X17. The return tag of the doc comment overrides the declared return
    type: for a function that is not streaming and has a return tag, the
    result is the one that the type of the tag gives, whatever the declared
    return type is, and also without one.  The diagnostics may differ, as
    the declared type is still checked. *)
Theorem X17_return_tag_overrides_declared_type
    (func : FunctionDeclaration) (r : TypeNode) (type1 type2 : option TypeNode)
    (lastParameter : option ParameterDeclaration) (info : JS.Object IJsDocParamType)
    (extra : IFunctionExtras) (basic : list string) (custom : list IEnum) :
  fn_jsDocReturnType func = Some r →
  is_Some (fn_name func) →
  ∃ item extra1 extra2,
    getResults (withReturnType func type1) false lastParameter info extra basic custom =
      Return (item, extra1) ∧
    getResults (withReturnType func type2) false lastParameter info extra basic custom =
      Return (item, extra2) ∧
    item = getResults_item
             (pt_type (getParamType (Some (default r (promiseArgument r))) extra basic
                         custom).1)
             (getParamDim (Some (default r (promiseArgument r)))).
Proof.
  intros Hreturn Hname.
  assert (Hone : ∀ type, ∃ extra1,
    getResults (withReturnType func type) false lastParameter info extra basic custom =
    Return (getResults_item
              (pt_type (getParamType (Some (default r (promiseArgument r))) extra basic
                          custom).1)
              (getParamDim (Some (default r (promiseArgument r)))), extra1)).
  { intros type. unfold getResults.
    assert (Hsignature : ∃ resultType resultDim extra0,
      getResults_signature (withReturnType func type) false lastParameter info extra basic
        custom = Return (Continue (resultType, resultDim), extra0)).
    { unfold getResults_signature. cbn [withReturnType fn_type]. cbv zeta.
      destruct type as [type|]; [|by eexists _, _, _].
      destruct (getParamType (Some (default type (promiseArgument type))) extra basic custom).
      by eexists _, _, _. }
    destruct Hsignature as (resultType & resultDim & extra0 & ->).
    cbn [mbind Outcome_bind].
    destruct (getResults_jsDoc_tag (withReturnType func type) r resultType resultDim
                extra extra0 basic custom Hreturn Hname) as (extra1 & ->).
    by exists extra1. }
  destruct (Hone type1) as (extra1 & H1). destruct (Hone type2) as (extra2 & H2).
  eexists _, extra1, extra2. split; [exact H1|]. split; [exact H2 | reflexivity].
Qed.

Lemma X17_witness :
  ∃ item extra1 extra2,
    getResults (withReturnType taggedReturn (Some numberType)) false None ∅ noExtra [] [] =
      Return (item, extra1) ∧
    getResults (withReturnType taggedReturn None) false None ∅ noExtra [] [] =
      Return (item, extra2) ∧
    item = getResults_item
             (pt_type (getParamType (Some (default stringArray (promiseArgument stringArray)))
                         noExtra [] []).1)
             (getParamDim (Some (default stringArray (promiseArgument stringArray)))).
Proof.
  apply (X17_return_tag_overrides_declared_type taggedReturn stringArray
           (Some numberType) None None ∅ noExtra [] []).
  - reflexivity.
  - vm_compute. by eexists.
Defined.

(** * Further properties: the id and the name of a custom function *)












(** * Further properties: the type of an array *)

Lemma pushError_changes extra error : pushError extra error ≠ extra.
Proof.
  intros H. apply (f_equal errors) in H. cbn [pushError errors] in H.
  by apply app_same_nil in H.
Qed.

Lemma arrayTypeNodeLoop_bracketArray positions t dim :
  typeNodeIsArray t = false →
  at_node (arrayTypeNodeLoop (bracketArray positions t) dim) = t.
Proof.
  intros Ht. revert dim. induction positions as [|pos rest IH]; intros dim.
  - simpl. by destruct t.
  - simpl. apply IH.
Qed.

Lemma referenceNodeLoop_genericArray positions t count :
  typeNodeIsArray t = false →
  at_node (getArrayDimensionalityAndTypeForReferenceNode_loop (genericArray positions t) count)
    = t.
Proof.
  intros Ht. revert count. induction positions as [|pos rest IH]; intros count.
  - cbn [genericArray].
    destruct t as [pos e|pos n [[|argument [|argument' arguments]]|]|pos k text];
      try reflexivity.
    change (bool_decide (n = "Array") = false) in Ht.
    cbn [getArrayDimensionalityAndTypeForReferenceNode_loop]. by rewrite Ht.
  - cbn [genericArray getArrayDimensionalityAndTypeForReferenceNode_loop].
    rewrite bool_decide_eq_true_2 by reflexivity. apply IH.
Qed.

Lemma getParamType_element wrapped t extra basic custom :
  typeNodeIsArray wrapped = true →
  at_node (getArrayDimensionalityAndType wrapped) = t →
  typeNodeIsArray t = false →
  (getParamType (Some wrapped) extra basic custom).1 =
    (getParamType (Some t) extra basic custom).1 ∧
  ((getParamType (Some wrapped) extra basic custom).2 = extra ↔
   (getParamType (Some t) extra basic custom).2 = extra).
Proof.
  intros Hwrapped Hnode Ht. unfold getParamType. cbv zeta. rewrite Hwrapped, Hnode, Ht.
  destruct t as [pos e|pos n args|pos k text].
  - discriminate.
  - destruct (bool_decide (n ∈ basic)); [done|].
    destruct (List.find _ custom); [done|].
    destruct (JS.isTruthy JS.truthy (tableGet CELLVALUETYPE_MAPPINGS n)).
    + destruct (bool_decide (tableGet CELLVALUETYPE_MAPPINGS n = Some (JS.Own "unsupported")));
        [|done].
      split; [reflexivity|]. cbn [snd].
      split; intros H; by apply pushError_changes in H.
    + split; [reflexivity|]. cbn [snd].
      split; intros H; by apply pushError_changes in H.
  - split; [reflexivity|]. cbn [snd].
    destruct (negb _); [|done].
    split; intros H; by apply pushError_changes in H.
Qed.

(** X19. The element type decides the type of an array.  For an element
    type that is not itself an array, an array in bracket notation
    [T[]...[]] of any depth and an array in generic notation
    [Array<...Array<T>...>] of any depth get the type, the custom enum type
    and the cell value type of [T], and a diagnostic exactly when [T] gets
    one. *)
Theorem X19_element_type_decides_array_type
    (t : TypeNode) (pos : LineAndCharacter) (positions : list LineAndCharacter)
    (extra : IFunctionExtras) (basic : list string) (custom : list IEnum) :
  typeNodeIsArray t = false →
  ((getParamType (Some (bracketArray (pos :: positions) t)) extra basic custom).1 =
     (getParamType (Some t) extra basic custom).1 ∧
   ((getParamType (Some (bracketArray (pos :: positions) t)) extra basic custom).2 = extra ↔
    (getParamType (Some t) extra basic custom).2 = extra)) ∧
  ((getParamType (Some (genericArray (pos :: positions) t)) extra basic custom).1 =
     (getParamType (Some t) extra basic custom).1 ∧
   ((getParamType (Some (genericArray (pos :: positions) t)) extra basic custom).2 = extra ↔
    (getParamType (Some t) extra basic custom).2 = extra)).
Proof.
  intros Ht. split.
  - apply getParamType_element; [reflexivity| |exact Ht].
    unfold getArrayDimensionalityAndType. cbn [bracketArray].
    change (isArrayTypeNode (ArrayTypeNode pos (bracketArray positions t))) with true.
    cbv iota. cbn [getArrayDimensionalityAndTypeForArrayTypeNode].
    by apply arrayTypeNodeLoop_bracketArray.
  - apply getParamType_element; [reflexivity| |exact Ht].
    unfold getArrayDimensionalityAndType, getArrayDimensionalityAndTypeForReferenceNode.
    cbn [genericArray].
    change (isArrayTypeNode (TypeReferenceNode pos "Array" (Some [genericArray positions t])))
      with false.
    change (isTypeReferenceNode
              (TypeReferenceNode pos "Array" (Some [genericArray positions t]))) with true.
    cbv iota.
    by apply (referenceNodeLoop_genericArray (pos :: positions)).
Qed.

Lemma X19_witness :
  (getParamType (Some (bracketArray [at0; at0; at0] numberType)) noExtra [] []).1 =
    (getParamType (Some numberType) noExtra [] []).1 ∧
  (getParamType (Some (genericArray [at0; at0] numberType)) noExtra [] []).1 =
    (getParamType (Some numberType) noExtra [] []).1.
Proof.
  destruct (X19_element_type_decides_array_type numberType at0 [at0; at0] noExtra [] [])
    as [[Hbracket _] _]; [reflexivity|].
  destruct (X19_element_type_decides_array_type numberType at0 [at0] noExtra [] [])
    as [_ [Hgeneric _]]; [reflexivity|].
  split; [exact Hbracket | exact Hgeneric].
Defined.

(** * Further properties: the diagnostics of the options *)

(** X20. [getOptions] adds at most two diagnostics, in this order.  The
    first is added when the doc comment has [@requiresAddress] or
    [@requiresParameterAddresses] and the last parameter has none of the
    three roles; it names [@requiresAddress] when both tags are present,
    and is placed at the end of the parameters.  The second is added when
    the doc comment has [@linkedEntityLoadService] together with a tag that
    cannot be combined with it; it names the first such tag only.
    [@cancelable] can be combined with it, and for a streaming function the
    address tags count as [@streaming]. *)
Theorem X20_getOptions_diagnostics
    (func : FunctionDeclaration) (isStreamingFunction isCancelableFunction
     isInvocationFunction : bool) (extra : IFunctionExtras) :
  addedErrors extra
    (getOptions func isStreamingFunction isCancelableFunction isInvocationFunction extra).2
    ((if (isAddressRequired (fn_jsDoc func) || isRequiresParameterAddresses (fn_jsDoc func)) &&
         negb (isStreamingFunction || isCancelableFunction || isInvocationFunction)
      then [logError
              ("Since " +:+
               (if isAddressRequired (fn_jsDoc func)
                then "@requiresAddress" else "@requiresParameterAddresses") +:+
               " is present, the last function parameter should be of type CustomFunctions.Invocation :")
              (Some (fn_parametersEnd func))]
      else []) ++
     (if isLinkedEntityLoadService (fn_jsDoc func)
      then match head (linkedEntityConflicts func isStreamingFunction) with
           | Some conflict =>
               [logError (conflict +:+ " cannot be used with @linkedEntityLoadService.")
                  (Some (fn_pos func))]
           | None => []
           end
      else [])).
Proof.
  unfold addedErrors, getOptions, linkedEntityConflicts. cbn [snd]. cbv zeta.
  cbn [cancelable requiresAddress requiresStreamAddress stream volatile
       requiresParameterAddresses requiresStreamParameterAddresses
       excludeFromAutoComplete linkedEntityLoadService capturesCallingObject isTrue].
  unfold isStreaming.
  destruct (isAddressRequired (fn_jsDoc func)),
    (isRequiresParameterAddresses (fn_jsDoc func)),
    isStreamingFunction, isCancelableFunction, isInvocationFunction;
    cbn [andb orb negb app];
    destruct (isLinkedEntityLoadService (fn_jsDoc func));
    cbn [andb orb negb app];
    rewrite ?app_nil_r; try (split; reflexivity);
    destruct (isExcludedFromAutoComplete (fn_jsDoc func)),
      (isVolatile (fn_jsDoc func)), (hasTag (fn_jsDoc func) STREAMING),
      (hasCapturesCallingObject (fn_jsDoc func));
    cbn [andb orb negb app head pushError errors javascriptFunctionName];
    rewrite ?app_nil_r, <- ?app_assoc; split; reflexivity.
Qed.

(** * Further properties: description and help URL *)

Lemma replaceLineEndings_truthy (t : string) :
  JS.truthy t = true → JS.truthy (JS.replaceLineEndings t) = true.
Proof.
  destruct t as [|c r]; [discriminate|]. intros _. cbn [JS.replaceLineEndings].
  destruct (Ascii.eqb c "013"); [|reflexivity].
  destruct r as [|d r']; [reflexivity|]. by destruct (Ascii.eqb d "010").
Qed.

Lemma keepTruthy_normalizeLineEndings (text : option string) :
  keepTruthy (normalizeLineEndings text) = normalizedText text.
Proof.
  destruct text as [t|]; [|reflexivity]. unfold normalizeLineEndings, normalizedText.
  destruct (JS.truthy t) eqn:Ht; cbn [keepTruthy]; [|by rewrite Ht].
  by rewrite replaceLineEndings_truthy.
Qed.

Lemma normalizedText_Some (text : option string) (d : string) :
  normalizedText text = Some d → d ≠ "" ∧ containsChar carriageReturn d = false.
Proof.
  destruct text as [t|]; [|discriminate]. unfold normalizedText.
  destruct (JS.truthy t) eqn:Ht; [|discriminate]. intros [= <-]. split.
  - apply replaceLineEndings_truthy in Ht. by destruct (JS.replaceLineEndings t).
  - by apply (replaceLineEndings_properties (String.length t)).
Qed.

(** X21. The description of an emitted function is the text of the first
    doc comment of the declaration, while the tags are those of the last
    one; its help URL is the text after the first [@helpurl] tag of the last
    doc comment.  Both have line feeds for line endings, so they hold no
    carriage return, and both are absent rather than empty.  A function is
    only emitted when its description is a text or is missing: a
    description with an inline tag makes [parseTree] throw. *)
Theorem X21_description_and_help_url
    (sourceFile : SourceFile) (sourceFileName : string) (r : IParseTreeResult) :
  parseTree sourceFile sourceFileName = Return r →
  Forall2 (λ f func,
      descriptionIsText (fn_jsDoc func) = true ∧
      f_description f = normalizedText (descriptionText (fn_jsDoc func)) ∧
      f_helpUrl f = normalizedText (Some (getTagComment (fn_jsDoc func) HELPURL_PARAM)) ∧
      (∀ d, f_description f = Some d → d ≠ "" ∧ containsChar carriageReturn d = false) ∧
      (∀ u, f_helpUrl f = Some u → u ≠ "" ∧ containsChar carriageReturn u = false))
    (r_functions r) (topLevelCustomFunctions (statements sourceFile)).
Proof.
  intros Hparse. apply parseTree_emitted in Hparse.
  eapply Forall2_impl; [exact Hparse|]. clear.
  intros f func (st & description & result & extra & Hdescription & _ & ->).
  unfold fnMetadata. cbn [f_description f_helpUrl].
  rewrite !keepTruthy_normalizeLineEndings.
  assert (Hfirst : descriptionIsText (fn_jsDoc func) = true ∧
                   keepTruthy description = normalizedText (descriptionText (fn_jsDoc func))).
  { unfold getDescription, descriptionIsText, descriptionText in *.
    destruct (fn_jsDoc func) as [|doc rest]; [discriminate|]. cbn [head mbind option_bind].
    destruct (doc_comment doc) as [[text|parts]|]; [| discriminate |];
      injection Hdescription as <-; split; try reflexivity.
    apply (keepTruthy_normalizeLineEndings (Some text)). }
  destruct Hfirst as [Htext ->].
  split; [exact Htext|]. split; [reflexivity|]. split; [reflexivity|].
  split; intros text; apply normalizedText_Some.
Qed.

(** [parseTree] throws on a custom function whose description holds an
    inline tag. *)
Example parseTree_inlineTag :
  parseTree
    {| statements :=
         [FunctionDeclarationNode
            {| fn_name := Some "add"; fn_parameters := []; fn_type := None;
               fn_jsDoc := [{| doc_comment := Some (CommentNodes 2);
                               doc_tags := [tag "customfunction" None] |}];
               fn_jsDocReturnType := None; fn_pos := at0; fn_parametersEnd := at0 |} []] |}
    "functions.ts" =
  Throw "TypeError: text.replace is not a function".
Proof. vm_compute. reflexivity. Qed.

Lemma X21_witness :
  Forall2 (λ f func,
      descriptionIsText (fn_jsDoc func) = true ∧
      f_description f = normalizedText (descriptionText (fn_jsDoc func)) ∧
      f_helpUrl f = normalizedText (Some (getTagComment (fn_jsDoc func) HELPURL_PARAM)) ∧
      (∀ d, f_description f = Some d → d ≠ "" ∧ containsChar carriageReturn d = false) ∧
      (∀ u, f_helpUrl f = Some u → u ≠ "" ∧ containsChar carriageReturn u = false))
    (r_functions documentedResult) (topLevelCustomFunctions (statements documentedFile)).
Proof.
  apply (X21_description_and_help_url documentedFile "functions.ts").
  vm_compute. reflexivity.
Defined.

(** * Further properties: the diagnostics of a custom enum *)



(** * Further properties: the rows of the result *)

Lemma validateName_javascriptFunctionName name position extra type :
  javascriptFunctionName (validateName name position extra type) =
  javascriptFunctionName extra.
Proof. unfold validateName. by repeat case_match. Qed.

Lemma buildSingleCustomEnum_entries top node st st' :
  buildSingleCustomEnum top node st = Return st' →
  ∃ entries, extras st' = extras st ++ entries ∧
             Forall (λ x, javascriptFunctionName x = "") entries.
Proof.
  assert (Hnone : ∃ entries, extras st = extras st ++ entries ∧
                             Forall (λ x, javascriptFunctionName x = "") entries).
  { exists []. by rewrite app_nil_r. }
  destruct node as [e|f children|children]; [|by intros [= <-]..].
  destruct top; [|by intros [= <-]].
  destruct (isCustomEnum (en_jsDoc e)) eqn:Hcustom;
    [|rewrite buildSingleCustomEnum_skipped by (by left); by intros [= <-]].
  destruct (en_members e) as [|m members] eqn:Hmembers;
    [rewrite buildSingleCustomEnum_skipped by (by right); by intros [= <-]|].
  assert (Hlength : bool_decide (length (en_members e) = 0) = false)
    by (by rewrite Hmembers).
  unfold buildSingleCustomEnum. rewrite Hcustom, Hlength. cbn [negb orb]. cbv zeta.
  cbn [metadataEnumIds push_extras]. rewrite Hmembers. cbn [head].
  destruct (checkForDuplicate (metadataEnumIds st) (en_name e));
    destruct (JS.truthy (getTagComment (en_jsDoc e) CUSTOM_ENUM));
    try destruct (matchEnumType (getTagComment (en_jsDoc e) CUSTOM_ENUM)) as [ty|];
    cbn -[enumValues logError];
    destruct (m_initializer m) as [initializer|];
    cbn -[enumValues logError];
    repeat match goal with
           | |- (if ?c then _ else _) = _ → _ => destruct c
           end;
    intros H;
    try (apply bind_Return in H as ([values|] & _ & H));
    injection H as <-;
    cbn [extras push_extras push_metadataEnumIds push_customEnums];
    rewrite <- ?app_assoc; eexists; (split; [reflexivity|]);
    repeat constructor; apply validateName_javascriptFunctionName.
Qed.

Lemma buildCustomEnums_entries top node st st' :
  buildCustomEnums top node st = Return st' →
  ∃ entries, extras st' = extras st ++ entries ∧
             Forall (λ x, javascriptFunctionName x = "") entries.
Proof.
  destruct node as [e|f children|children];
    [apply buildSingleCustomEnum_entries|..];
    intros [= <-]; exists []; by rewrite app_nil_r.
Qed.

Lemma walkAll_buildFunctions_rows name nodes :
  ∀ st st',
    walkAll (buildFunctions name) true nodes st = Return st' →
    associate st' = associate st ++ map (associateRow name) (topLevelCustomFunctions nodes) ∧
    ∃ entries,
      extras st' = extras st ++ entries ∧
      map javascriptFunctionName entries = map fnName (topLevelCustomFunctions nodes).
Proof.
  induction nodes as [|node nodes IH]; intros st st' H.
  - injection H as <-. split; [by rewrite app_nil_r|]. exists []. by rewrite app_nil_r.
  - rewrite walkAll_cons in H. apply bind_Return in H as (st1 & Hnode & H).
    rewrite walk_top in Hnode by apply buildFunctions_nested.
    apply IH in H as (Hassociate & entries & Hextras & Hnames).
    destruct node as [e|func children|children];
      [injection Hnode as <-; split; [exact Hassociate | by exists entries]
      |
      |injection Hnode as <-; split; [exact Hassociate | by exists entries]].
    cbn [topLevelCustomFunctions].
    destruct (isCustomFunction (fn_jsDoc func)) eqn:Hcustom.
    + rewrite (buildFunctions_custom _ _ _ _ Hcustom) in Hnode.
      apply bind_Return in Hnode as (description & Hdescription & Hnode).
      apply bind_Return in Hnode as (result & Hresult & Hnode). injection Hnode as <-.
      destruct (customFunction_extra func st result Hresult) as (added & _ & Hname & _).
      split.
      * rewrite Hassociate. unfold fnFinish. cbn [push_function associate map].
        by rewrite <- app_assoc.
      * exists (fnFinalExtra func st result.2 :: entries). split.
        -- rewrite Hextras. unfold fnFinish. cbn [push_function extras].
           by rewrite <- app_assoc.
        -- cbn [map]. by rewrite Hname, Hnames.
    + rewrite (buildFunctions_plain _ _ _ _ Hcustom) in Hnode. injection Hnode as <-.
      split; [exact Hassociate | by exists entries].
Qed.

(** X23. Whenever [parseTree] returns, the association table has one row
    for every custom function of the file (a top-level function whose last
    doc comment has the tag), in source order, with the name of the file
    and the declared name of the function, and the ids of the rows are
    those of the function records; when the declared names and the texts
    after the tags are ASCII texts, a row is the name of the file, the
    declared name and the id that the tag or the declared name gives, in
    upper case.  The entries of [extras] are those of the custom enums,
    which carry no function name, followed by one entry for every custom
    function, in source order, under the declared name of the function. *)
Theorem X23_rows_of_the_result
    (sourceFile : SourceFile) (sourceFileName : string) (r : IParseTreeResult) :
  parseTree sourceFile sourceFileName = Return r →
  Forall2 (λ row func,
             as_sourceFileName row = sourceFileName ∧ as_functionName row = fnName func)
    (r_associate r) (topLevelCustomFunctions (statements sourceFile)) ∧
  (asciiFunctions (statements sourceFile) = true →
   r_associate r =
     map (associateRow sourceFileName) (topLevelCustomFunctions (statements sourceFile))) ∧
  map as_id (r_associate r) = map f_id (r_functions r) ∧
  ∃ enumEntries functionEntries,
    r_extras r = enumEntries ++ functionEntries ∧
    Forall (λ x, javascriptFunctionName x = "") enumEntries ∧
    map javascriptFunctionName functionEntries =
      map fnName (topLevelCustomFunctions (statements sourceFile)).
Proof.
  intros H. unfold parseTree, walkSourceFile in H.
  rewrite walkAll_buildEnums in H. cbn [mbind Outcome_bind] in H.
  apply bind_Return in H as (st2 & H2 & H).
  apply bind_Return in H as (st3 & H3 & H). injection H as <-.
  cbn [r_associate r_extras r_functions].
  assert (Hinitial : ∀ names,
    extras (pushBasicEnums names initialState) = [] ∧
    associate (pushBasicEnums names initialState) = [] ∧
    functions (pushBasicEnums names initialState) = []).
  { intros names. unfold pushBasicEnums.
    induction names as [|n names IH] using rev_ind; [done|]. by rewrite foldl_app. }
  destruct (Hinitial (map en_name (flat_map basicEnumsIn (statements sourceFile))))
    as (Hextras1 & Hassociate1 & Hfunctions1).
  pose proof (walkAll_relation buildCustomEnums sameFunctionState sameFunctionState_refl
                sameFunctionState_trans buildCustomEnums_sameFunctionState
                true _ _ _ H2) as (Hassociate2 & Hfunctions2 & _).
  pose proof (walkAll_relation buildCustomEnums
                (λ st st', ∃ entries, extras st' = extras st ++ entries ∧
                                      Forall (λ x, javascriptFunctionName x = "") entries)
                (λ st, ex_intro _ [] (conj (eq_sym (app_nil_r _)) (Forall_nil_2 _)))) as Henums.
  destruct (Henums
              (λ st1 st2 st3 H12 H23,
                 match H12, H23 with
                 | ex_intro _ e1 (conj E1 F1), ex_intro _ e2 (conj E2 F2) =>
                     ex_intro _ (e1 ++ e2)
                       (conj (eq_trans E2 (eq_trans (f_equal (λ l, l ++ e2) E1)
                                             (eq_sym (app_assoc _ _ _))))
                             (Forall_app_2 _ _ _ F1 F2))
                 end)
              buildCustomEnums_entries true _ _ _ H2) as (enumEntries & Hextras2 & Hall).
  pose proof (walkAll_buildFunctions_records _ _ _ _ H3) as [_ Hids].
  apply walkAll_buildFunctions_rows in H3 as (Hassociate3 & functionEntries & Hextras3 & Hnames).
  rewrite Hassociate3, Hassociate2, Hassociate1. cbn [app].
  split; [|split; [reflexivity|split]].
  - apply Forall2_fmap_l, Forall_Forall2_diag, Forall_forall. by intros func _.
  - rewrite Hids, Hfunctions2, Hfunctions1. cbn [app]. rewrite map_map. reflexivity.
  - exists enumEntries, functionEntries. rewrite Hextras3, Hextras2, Hextras1.
    by split.
Qed.

Lemma X23_witness :
  Forall2 (λ row func,
             as_sourceFileName row = "functions.ts" ∧ as_functionName row = fnName func)
    (r_associate documentedResult) (topLevelCustomFunctions (statements documentedFile)) ∧
  (asciiFunctions (statements documentedFile) = true →
   r_associate documentedResult =
     map (associateRow "functions.ts")
       (topLevelCustomFunctions (statements documentedFile))) ∧
  map as_id (r_associate documentedResult) = map f_id (r_functions documentedResult) ∧
  ∃ enumEntries functionEntries,
    r_extras documentedResult = enumEntries ++ functionEntries ∧
    Forall (λ x, javascriptFunctionName x = "") enumEntries ∧
    map javascriptFunctionName functionEntries =
      map fnName (topLevelCustomFunctions (statements documentedFile)).
Proof.
  apply (X23_rows_of_the_result documentedFile "functions.ts").
  vm_compute. reflexivity.
Defined.

(** * Further properties: the rule load-object-before-read *)

Lemma visitReferences_fold references :
  ∀ state reports,
    foldl (λ '(state, reports) node,
             let '(state, new) := Load.visitReference state node in (state, reports ++ new))
          (state, reports) references =
    ((Load.visitReferences state references).1,
     reports ++ (Load.visitReferences state references).2).
Proof.
  induction references as [|node rest IH]; intros state reports.
  - simpl. by rewrite app_nil_r.
  - unfold Load.visitReferences. cbn [foldl].
    destruct (Load.visitReference state node) as [state1 new].
    rewrite (IH state1 (reports ++ new)), (IH state1 ([] ++ new)).
    cbn [fst snd app]. by rewrite app_assoc.
Qed.

Lemma visitReferences_cons state node rest :
  Load.visitReferences state (node :: rest) =
  ((Load.visitReferences (Load.visitReference state node).1 rest).1,
   (Load.visitReference state node).2 ++
   (Load.visitReferences (Load.visitReference state node).1 rest).2).
Proof.
  unfold Load.visitReferences at 1. cbn [foldl].
  destruct (Load.visitReference state node) as [state1 new].
  by rewrite visitReferences_fold.
Qed.

Lemma visitReferences_app state before after :
  Load.visitReferences state (before ++ after) =
  ((Load.visitReferences (Load.visitReferences state before).1 after).1,
   (Load.visitReferences state before).2 ++
   (Load.visitReferences (Load.visitReferences state before).1 after).2).
Proof.
  revert state. induction before as [|node rest IH]; intros state.
  - change (Load.visitReferences state []) with (state, @nil Load.Report).
    cbn [app fst snd]. by destruct (Load.visitReferences state after).
  - cbn [app]. rewrite !visitReferences_cons, IH. cbn [fst snd]. by rewrite app_assoc.
Qed.

Lemma findLoadBeforeRead_allVariables scope :
  Load.findLoadBeforeRead scope = flat_map variableReports (allVariables scope).
Proof.
  induction scope as [variables childScopes IH] using Scope_nested_ind.
  cbn [Load.findLoadBeforeRead allVariables]. rewrite flat_map_app. f_equal.
  induction IH as [|child rest Hchild _ IHrest]; [reflexivity|].
  cbn [flat_map]. by rewrite flat_map_app, Hchild, IHrest.
Qed.

(** What one reference does when the variable is tracked and the reference
    is neither an assignment nor the subject of a load call *)
Lemma visitReference_read state node :
  Load.getFound state = true →
  assigns node = false →
  Load.loadedProperties node = None →
  Load.visitReference state node =
    (state,
     if negb (JS.truthy (Load.findPropertiesRead node)) ||
        Load.hasBeenLoaded node (Load.loadLocation state) (Load.findPropertiesRead node) ||
        Load.hasBeenLoaded node (Load.loadLocation state) "*" ||
        Load.isInsideWriteStatement node
     then []
     else [{| Load.node := node; Load.loadValue := Load.findPropertiesRead node |}]).
Proof.
  intros Hfound Hassigns Hload. unfold Load.visitReference. rewrite Hload.
  unfold assigns in Hassigns. destruct state as [location found]. cbn in Hfound. subst found.
  destruct (Load.parent node) as [[init|assigned|call|call|]|]; try discriminate;
    cbn [negb Load.loadLocation Load.getFound]; by case_match.
Qed.

Lemma visitReference_load state node propertyNames :
  Load.getFound state = true →
  Load.loadedProperties node = Some propertyNames →
  Load.visitReference state node =
    ({| Load.loadLocation :=
          Load.setLoadLocation propertyNames (Load.rangeEnd node) (Load.loadLocation state);
        Load.getFound := true |}, []).
Proof.
  intros Hfound Hload. unfold Load.visitReference. rewrite Hload.
  unfold Load.loadedProperties in Hload.
  destruct (Load.parent node) as [[init|assigned|call|call|]|]; try discriminate;
    by rewrite Hfound.
Qed.

(** A reference is reported only under the conditions of the rule. *)
Lemma visitReference_report state node report :
  report ∈ (Load.visitReference state node).2 →
  report = {| Load.node := node; Load.loadValue := Load.findPropertiesRead node |} ∧
  Load.getFound state = true ∧
  assigns node = false ∧
  Load.loadedProperties node = None ∧
  Load.findPropertiesRead node ≠ "" ∧
  Load.hasBeenLoaded node (Load.loadLocation state) (Load.findPropertiesRead node) = false ∧
  Load.hasBeenLoaded node (Load.loadLocation state) "*" = false ∧
  Load.isInsideWriteStatement node = false.
Proof.
  destruct (Load.getFound state) eqn:Hfound; cycle 1.
  { unfold Load.visitReference. rewrite Hfound.
    destruct (Load.parent node) as [[[init|]|assigned|call|call|]|];
      repeat case_match; simplify_eq; cbn [snd]; intros Hin;
      by apply elem_of_nil in Hin. }
  destruct (assigns node) eqn:Hassigns.
  { unfold Load.visitReference. unfold assigns in Hassigns.
    destruct (Load.parent node) as [[[init|]|assigned|call|call|]|]; try discriminate;
      repeat case_match; simplify_eq; cbn [snd]; intros Hin;
      by apply elem_of_nil in Hin. }
  destruct (Load.loadedProperties node) as [propertyNames|] eqn:Hload.
  { rewrite (visitReference_load _ _ _ Hfound Hload). cbn [snd]. intros Hin.
    by apply elem_of_nil in Hin. }
  rewrite (visitReference_read _ _ Hfound Hassigns Hload). cbn [snd].
  destruct (negb (JS.truthy (Load.findPropertiesRead node))) eqn:Hname;
    [intros Hin; by apply elem_of_nil in Hin|].
  destruct (Load.hasBeenLoaded node (Load.loadLocation state) (Load.findPropertiesRead node));
    [intros Hin; by apply elem_of_nil in Hin|].
  destruct (Load.hasBeenLoaded node (Load.loadLocation state) "*");
    [intros Hin; by apply elem_of_nil in Hin|].
  destruct (Load.isInsideWriteStatement node);
    [intros Hin; by apply elem_of_nil in Hin|].
  cbn [orb]. intros Hin%list_elem_of_singleton. repeat split; try done.
  intros Hempty. rewrite Hempty in Hname. discriminate.
Qed.

Lemma visitReferences_getFound references :
  ∀ state,
    Load.getFound (Load.visitReferences state references).1 = true →
    Load.getFound state = true ∨ ∃ node, node ∈ references ∧ assignsGet node = true.
Proof.
  induction references as [|node rest IH] using rev_ind; intros state Hfound.
  - by left.
  - rewrite visitReferences_app in Hfound. cbn [fst] in Hfound.
    rewrite visitReferences_cons in Hfound. cbn [fst Load.visitReferences foldl] in Hfound.
    destruct (assignsGet node) eqn:Hget.
    { right. exists node. split; [|exact Hget]. apply elem_of_app. right.
      by apply list_elem_of_singleton. }
    assert (Hbefore : Load.getFound (Load.visitReferences state rest).1 = true).
    { revert Hfound. generalize (Load.visitReferences state rest).1. intros state1.
      unfold Load.visitReference, assignsGet in *.
      destruct (Load.parent node) as [[[init|]|assigned|call|call|]|];
        try rewrite Hget; cbn [negb]; try discriminate;
        destruct (Load.getFound state1) eqn:Hstate1; try done;
        cbn [negb fst Load.getFound]; try discriminate;
        repeat case_match; cbn [fst Load.getFound]; done. }
    destruct (IH state Hbefore) as [Hstate|(get & Hin & Hget')]; [by left|].
    right. exists get. split; [|exact Hget']. apply elem_of_app. by left.
Qed.

Lemma visitReferences_report references :
  ∀ state report,
    report ∈ (Load.visitReferences state references).2 →
    ∃ before after,
      references = before ++ Load.node report :: after ∧
      report ∈ (Load.visitReference (Load.visitReferences state before).1
                  (Load.node report)).2.
Proof.
  induction references as [|node rest IH] using rev_ind; intros state report Hin.
  - by apply elem_of_nil in Hin.
  - rewrite visitReferences_app in Hin. cbn [snd] in Hin.
    apply elem_of_app in Hin as [Hin|Hin].
    + apply IH in Hin as (before & after & -> & Hreport).
      exists before, (after ++ [node]). split; [|exact Hreport].
      by rewrite <- app_assoc.
    + rewrite visitReferences_cons in Hin. cbn [snd Load.visitReferences foldl] in Hin.
      rewrite app_nil_r in Hin.
      pose proof (visitReference_report _ _ _ Hin) as (-> & _).
      exists rest, []. split; [reflexivity | exact Hin].
Qed.

(** X24. Every report of the rule is about a reference of a variable of
    the scope or of a scope below it, and names the property that
    [findPropertiesRead] finds at the reference.  The reference comes after
    a reference that assigns the result of a get function, of which the
    [OrNullObject] functions are not, to the variable; it is not itself a
    declaration or an assignment of the variable, nor the subject of a load
    call, nor inside an assignment; the property name is not empty, and
    neither the property nor "*" was loaded at a smaller position. *)
Theorem X24_reports_of_the_rule (scope : Load.Scope) (report : Load.Report) :
  report ∈ Load.findLoadBeforeRead scope →
  ∃ variable before after,
    variable ∈ allVariables scope ∧
    variable = before ++ Load.node report :: after ∧
    Load.loadValue report = Load.findPropertiesRead (Load.node report) ∧
    Load.loadValue report ≠ "" ∧
    (∃ get, get ∈ before ∧ assignsGet get = true) ∧
    assigns (Load.node report) = false ∧
    Load.loadedProperties (Load.node report) = None ∧
    Load.isInsideWriteStatement (Load.node report) = false ∧
    Load.hasBeenLoaded (Load.node report) (Load.loadLocation (variableState before))
      (Load.loadValue report) = false ∧
    Load.hasBeenLoaded (Load.node report) (Load.loadLocation (variableState before)) "*"
      = false.
Proof.
  rewrite findLoadBeforeRead_allVariables. intros Hin.
  apply list_elem_of_In, in_flat_map in Hin as (variable & Hvariable & Hin).
  apply list_elem_of_In in Hvariable, Hin.
  apply visitReferences_report in Hin as (before & after & Hsplit & Hin).
  apply visitReference_report in Hin
    as (Hreport & Hfound & Hassigns & Hload & Hname & Hproperty & Hall & Hwrite).
  exists variable, before, after. split; [exact Hvariable|]. split; [exact Hsplit|].
  assert (Hvalue : Load.loadValue report = Load.findPropertiesRead (Load.node report))
    by (by rewrite Hreport at 1).
  rewrite Hvalue. repeat split; try done.
  apply visitReferences_getFound in Hfound as [Hinitial|Hget]; [discriminate | exact Hget].
Qed.

Lemma X24_witness :
  ∃ variable before after,
    variable ∈ allVariables (Load.mkScope [] [Load.mkScope [[getDeclaration; readOf "address" 20]] []]) ∧
    variable = before ++ readOf "address" 20 :: after ∧
    "address" = Load.findPropertiesRead (readOf "address" 20) ∧
    "address" ≠ "" ∧
    (∃ get, get ∈ before ∧ assignsGet get = true) ∧
    assigns (readOf "address" 20) = false ∧
    Load.loadedProperties (readOf "address" 20) = None ∧
    Load.isInsideWriteStatement (readOf "address" 20) = false ∧
    Load.hasBeenLoaded (readOf "address" 20) (Load.loadLocation (variableState before))
      "address" = false ∧
    Load.hasBeenLoaded (readOf "address" 20) (Load.loadLocation (variableState before)) "*"
      = false.
Proof.
  apply (X24_reports_of_the_rule
           (Load.mkScope [] [Load.mkScope [[getDeclaration; readOf "address" 20]] []])
           {| Load.node := readOf "address" 20; Load.loadValue := "address" |}).
  vm_compute. apply list_elem_of_singleton. reflexivity.
Defined.

Lemma setLoadLocation_lookup propertyNames location :
  ∀ loadLocation propertyName,
    Load.setLoadLocation propertyNames location loadLocation !! propertyName =
    if bool_decide (propertyName ∈ propertyNames) then Some location
    else loadLocation !! propertyName.
Proof.
  induction propertyNames as [|p rest IH]; intros loadLocation propertyName; [reflexivity|].
  unfold Load.setLoadLocation in *. cbn [foldl]. rewrite IH.
  destruct (decide (propertyName = p)) as [->|Hne].
  - rewrite lookup_insert_eq. rewrite (bool_decide_eq_true_2 (p ∈ p :: rest)).
    + by case_bool_decide.
    + apply elem_of_cons. by left.
  - rewrite lookup_insert_ne by done.
    rewrite (bool_decide_ext (propertyName ∈ p :: rest) (propertyName ∈ rest));
      [reflexivity|].
    rewrite elem_of_cons.
    split; [intros [Heq|Hin]; [by destruct Hne | exact Hin] | intros Hin; by right].
Qed.

Lemma hasBeenLoaded_setLoadLocation node propertyNames location loadLocation propertyName :
  (location < Load.rangeEnd node)%Z →
  Load.hasBeenLoaded node (Load.setLoadLocation propertyNames location loadLocation)
    propertyName =
  bool_decide (propertyName ∈ propertyNames) ||
  Load.hasBeenLoaded node loadLocation propertyName.
Proof.
  intros Hbefore. unfold Load.hasBeenLoaded. rewrite setLoadLocation_lookup.
  case_bool_decide; [|reflexivity]. cbn [orb]. by apply Z.ltb_lt.
Qed.

Lemma visitReference_loadLocation state node :
  Load.loadLocation (Load.visitReference state node).1 = Load.loadLocation state ∨
  ∃ propertyNames,
    Load.loadedProperties node = Some propertyNames ∧
    Load.loadLocation (Load.visitReference state node).1 =
      Load.setLoadLocation propertyNames (Load.rangeEnd node) (Load.loadLocation state).
Proof.
  destruct (Load.getFound state) eqn:Hfound; cycle 1.
  { left. unfold Load.visitReference. rewrite Hfound.
    destruct (Load.parent node) as [[[init|]|assigned|call|call|]|];
      by repeat case_match. }
  destruct (assigns node) eqn:Hassigns.
  { left. unfold Load.visitReference. unfold assigns in Hassigns.
    destruct (Load.parent node) as [[[init|]|assigned|call|call|]|]; try discriminate;
      by repeat case_match. }
  destruct (Load.loadedProperties node) as [propertyNames|] eqn:Hload.
  - right. exists propertyNames. split; [reflexivity|].
    by rewrite (visitReference_load _ _ _ Hfound Hload).
  - left. by rewrite (visitReference_read _ _ Hfound Hassigns Hload).
Qed.

Lemma visitReferences_covered references :
  ∀ state bound location,
    Load.loadLocation state !! "*" = Some location →
    (location ≤ bound)%Z →
    increasingFrom bound references →
    (Load.visitReferences state references).2 = [].
Proof.
  induction references as [|node rest IH]; intros state bound location Hall Hbound Hsorted;
    [reflexivity|].
  destruct Hsorted as [Hnode Hrest]. rewrite visitReferences_cons. cbn [snd].
  assert (Hnone : (Load.visitReference state node).2 = []).
  { destruct (Load.visitReference state node).2 as [|report reports] eqn:Hreports;
      [reflexivity|].
    assert (Hin : report ∈ (Load.visitReference state node).2)
      by (rewrite Hreports; apply elem_of_cons; by left).
    apply visitReference_report in Hin as (_ & _ & _ & _ & _ & _ & Hloaded & _).
    unfold Load.hasBeenLoaded in Hloaded. rewrite Hall in Hloaded.
    apply Z.ltb_ge in Hloaded. lia. }
  rewrite Hnone. cbn [app].
  destruct (visitReference_loadLocation state node) as [Hsame|(propertyNames & _ & Hset)].
  - apply (IH _ (Load.rangeEnd node) location); [by rewrite Hsame | lia | exact Hrest].
  - destruct (bool_decide ("*" ∈ propertyNames)) eqn:Hstar.
    + apply (IH _ (Load.rangeEnd node) (Load.rangeEnd node)); [|lia|exact Hrest].
      by rewrite Hset, setLoadLocation_lookup, Hstar.
    + apply (IH _ (Load.rangeEnd node) location); [|lia|exact Hrest].
      by rewrite Hset, setLoadLocation_lookup, Hstar.
Qed.

(** X25. After a load call that loads everything, on a variable that is
    tracked, no later reference of the variable is reported, whatever it
    reads: the load is never forgotten, also not when the variable is
    assigned the result of another get function afterwards.  The references
    are taken in source order, so that the ends of their ranges
    increase. *)
Theorem X25_load_of_everything_covers_later_references
    (before after : Load.ScopeVariable) (load : Load.Identifier)
    (propertyNames : list string) :
  Load.getFound (variableState before) = true →
  Load.loadedProperties load = Some propertyNames →
  "*" ∈ propertyNames →
  increasingFrom (Load.rangeEnd load) after →
  variableReports (before ++ load :: after) = variableReports before.
Proof.
  intros Hfound Hload Hstar Hsorted. unfold variableReports, variableState in *.
  rewrite visitReferences_app. cbn [snd]. rewrite visitReferences_cons. cbn [snd].
  rewrite (visitReference_load _ _ _ Hfound Hload). cbn [fst snd app].
  rewrite (visitReferences_covered after _ (Load.rangeEnd load) (Load.rangeEnd load));
    [by rewrite app_nil_r| |lia|exact Hsorted].
  cbn [Load.loadLocation]. rewrite setLoadLocation_lookup.
  by rewrite bool_decide_eq_true_2.
Qed.

Lemma X25_witness :
  variableReports
    ([getDeclaration] ++ loadCall 20 None ::
     [readOf "address" 30; getAssignment 40; readOf "values" 50]) =
  variableReports [getDeclaration].
Proof.
  apply (X25_load_of_everything_covers_later_references [getDeclaration]
           [readOf "address" 30; getAssignment 40; readOf "values" 50]
           (loadCall 20 None) ["*"]).
  - reflexivity.
  - reflexivity.
  - apply list_elem_of_singleton. reflexivity.
  - simpl. lia.
Defined.

(** X26. A load call with property names covers these properties only.
    For a tracked variable, a read that follows the load call, that is not
    inside an assignment and whose property name is not empty, is reported
    unless its property or "*" is among the names of the call or was
    loaded before the call. *)
Theorem X26_load_of_properties_covers_them_only
    (before : Load.ScopeVariable) (load read : Load.Identifier)
    (propertyNames : list string) :
  Load.getFound (variableState before) = true →
  Load.loadedProperties load = Some propertyNames →
  assigns read = false →
  Load.loadedProperties read = None →
  Load.isInsideWriteStatement read = false →
  Load.findPropertiesRead read ≠ "" →
  (Load.rangeEnd load < Load.rangeEnd read)%Z →
  variableReports (before ++ [load; read]) =
    variableReports before ++
    (if bool_decide (Load.findPropertiesRead read ∈ propertyNames) ||
        bool_decide ("*" ∈ propertyNames) ||
        Load.hasBeenLoaded read (Load.loadLocation (variableState before))
          (Load.findPropertiesRead read) ||
        Load.hasBeenLoaded read (Load.loadLocation (variableState before)) "*"
     then []
     else [{| Load.node := read; Load.loadValue := Load.findPropertiesRead read |}]).
Proof.
  intros Hfound Hload Hassigns Hread Hwrite Hname Hbefore.
  unfold variableReports, variableState in *.
  rewrite visitReferences_app. cbn [snd]. rewrite !visitReferences_cons. cbn [snd fst].
  rewrite (visitReference_load _ _ _ Hfound Hload). cbn [fst snd app].
  rewrite (visitReference_read _ read) by done. cbn [fst snd Load.loadLocation].
  change (Load.visitReferences ?s []) with (s, @nil Load.Report). cbn [snd].
  rewrite app_nil_r, !hasBeenLoaded_setLoadLocation by exact Hbefore.
  rewrite Hwrite. f_equal.
  destruct (Load.findPropertiesRead read) eqn:Hproperty; [done|]. cbn [JS.truthy negb].
  destruct (bool_decide _), (bool_decide _), (Load.hasBeenLoaded _ _ _),
    (Load.hasBeenLoaded _ _ _); reflexivity.
Qed.

Lemma X26_witness :
  variableReports ([getDeclaration] ++ [loadCall 20 (Some ["address"]); readOf "values" 30]) =
    variableReports [getDeclaration] ++
    [{| Load.node := readOf "values" 30; Load.loadValue := "values" |}] ∧
  variableReports ([getDeclaration] ++ [loadCall 20 (Some ["address"]); readOf "address" 30]) =
    variableReports [getDeclaration] ++ [].
Proof.
  split.
  - apply (X26_load_of_properties_covers_them_only [getDeclaration]
             (loadCall 20 (Some ["address"])) (readOf "values" 30) ["address"]);
      [reflexivity | reflexivity | reflexivity | reflexivity | reflexivity | discriminate
      | simpl; lia].
  - apply (X26_load_of_properties_covers_them_only [getDeclaration]
             (loadCall 20 (Some ["address"])) (readOf "address" 30) ["address"]);
      [reflexivity | reflexivity | reflexivity | reflexivity | reflexivity | discriminate
      | simpl; lia].
Defined.

(** * Further properties: the annotation of a custom enum *)

Lemma trimStart_spaces (n : nat) (s : string) :
  JS.trimStart (spaces n +:+ s) = JS.trimStart s.
Proof. induction n as [|n IH]; [reflexivity|]. exact IH. Qed.

Lemma matchEnumTypeHere_word (s w : string) :
  matchEnumTypeHere s = Some w → w = "string" ∨ w = "number".
Proof.
  unfold matchEnumTypeHere. destruct s as [|c rest]; [discriminate|].
  intros H. repeat case_match; simplify_eq; by (left + right).
Qed.

Lemma matchEnumTypeHere_annotation (w rest : string) (before after : nat) :
  w = "string" ∨ w = "number" →
  matchEnumTypeHere ("{" +:+ spaces before +:+ w +:+ spaces after +:+ "}" +:+ rest) = Some w.
Proof.
  intros Hw.
  change ("{" +:+ spaces before +:+ w +:+ spaces after +:+ "}" +:+ rest)
    with (String "{" (spaces before +:+ w +:+ spaces after +:+ "}" +:+ rest)).
  cbn [matchEnumTypeHere]. rewrite trimStart_spaces.
  assert (Hafter : JS.trimStart (spaces after +:+ "}" +:+ rest) = String "}" rest)
    by (by rewrite trimStart_spaces).
  destruct Hw as [-> | ->].
  - change (JS.trimStart ("string" +:+ spaces after +:+ "}" +:+ rest))
      with ("string" +:+ spaces after +:+ "}" +:+ rest).
    rewrite prefix_append.
    change (String.length "string") with 6%nat.
    change (JS.drop 6 ("string" +:+ spaces after +:+ "}" +:+ rest))
      with (spaces after +:+ "}" +:+ rest).
    by rewrite Hafter.
  - change (JS.trimStart ("number" +:+ spaces after +:+ "}" +:+ rest))
      with ("number" +:+ spaces after +:+ "}" +:+ rest).
    change (String.prefix "string" ("number" +:+ spaces after +:+ "}" +:+ rest))
      with false.
    rewrite prefix_append.
    change (String.length "number") with 6%nat.
    change (JS.drop 6 ("number" +:+ spaces after +:+ "}" +:+ rest))
      with (spaces after +:+ "}" +:+ rest).
    by rewrite Hafter.
Qed.

(** X27. The type of a custom enum is read from the text after the tag by
    the pattern [{string}] or [{number}], with optional spaces inside the
    braces: the answer is never another word, an annotation of this form
    at the start of the text is found whatever follows it, and text before
    it that holds no annotation is skipped. *)
Theorem X27_enum_annotation_pattern :
  (∀ comment w, matchEnumType comment = Some w → w = "string" ∨ w = "number") ∧
  (∀ w rest before after,
     w = "string" ∨ w = "number" →
     matchEnumType ("{" +:+ spaces before +:+ w +:+ spaces after +:+ "}" +:+ rest) = Some w) ∧
  (∀ c comment,
     matchEnumTypeHere (String c comment) = None →
     matchEnumType (String c comment) = matchEnumType comment).
Proof.
  split; [|split].
  - induction comment as [|c comment IH]; intros w H.
    + discriminate.
    + cbn [matchEnumType] in H.
      destruct (matchEnumTypeHere (String c comment)) as [found|] eqn:Hhere.
      * injection H as <-. by apply matchEnumTypeHere_word in Hhere.
      * by apply IH.
  - intros w rest before after Hw.
    pose proof (matchEnumTypeHere_annotation w rest before after Hw) as Hhere.
    destruct ("{" +:+ spaces before +:+ w +:+ spaces after +:+ "}" +:+ rest) eqn:Htext;
      [discriminate|].
    cbn [matchEnumType]. by rewrite Hhere.
  - intros c comment Hhere. cbn [matchEnumType]. by rewrite Hhere.
Qed.

Lemma X27_witness :
  matchEnumType ("{" +:+ spaces 1 +:+ "number" +:+ spaces 2 +:+ "}" +:+ " the levels") =
    Some "number" ∧
  matchEnumType (String "x" "{string}") = matchEnumType "{string}".
Proof.
  destruct X27_enum_annotation_pattern as (_ & Hfound & Hskipped). split.
  - apply Hfound. by right.
  - apply Hskipped. reflexivity.
Defined.

(** * Further properties: the type of a parameter *)


(** A parameter of the type reference [toString] has no type, the inherited
    member as cell value type, and no diagnostic. *)
Example getParamType_toString :
  getParamType (Some (TypeReferenceNode at0 "toString" None)) noExtra [] [] =
  ({| pt_type := None; pt_customEnumType := None;
      pt_cellValueType := Some (JS.Inherited "toString") |}, noExtra).
Proof. reflexivity. Qed.



(** * Further properties: when [parseTree] returns *)





